(** * The partitioned review store of [src/collector/storage.py]

    A shallow embedding of [StorageManager.save_reviews] and
    [StorageManager.update_index], together with the date handling of the
    fetchers in [src/collector/fetcher.py] that feeds them, and the
    properties of the merge-on-write partition store and its version index.

    Layout of the development:
    - [PyData]: Python values the code manipulates (datetimes, review
      dicts, exceptions, JSON documents);
    - [Storage]: the store and the two methods, parameterised by the
      library function [datetime.fromisoformat];
    - the fetchers and [main] of the collector, the file selection of
      the viewer in [src/web/app.py] and the notifier of
      [.github/scripts/notify_slack.py], each embedded from its source;
    - the theorems, one group per property. *)

From Stdlib Require Import ZArith Lia Ascii String.
From Stdlib Require OrderedTypeEx.
From stdpp Require Import gmap strings list fin_maps sorting.
From Equations Require Equations.

Local Open Scope Z_scope.

(** ** Python data *)

Module PyData.

(** The exceptions the modelled code can raise. *)
Inductive exn := KeyError | ValueError | AttributeError | TypeError.

(** Outcome of a Python computation: a value, or a raised exception. *)
Inductive result (A : Type) :=
  | Ok (a : A)
  | Raise (e : exn).
Arguments Ok {A} a.
Arguments Raise {A} e.

(** Sequencing: the first exception ends the computation.  With these
    instances [x ← m; k] is stdpp's notation for it. *)
Global Instance result_ret : MRet result := fun _ a => Ok a.
Global Instance result_bind : MBind result := fun _ _ k m =>
  match m with
  | Ok a => k a
  | Raise e => Raise e
  end.

(** *** [datetime.datetime]

    [tzinfo = None] is a naive datetime; [Some m] is an aware one whose
    [utcoffset()] is [m] minutes ([Some 0] is [timezone.utc]). *)
Record datetime := mkdatetime {
  year : Z;
  month : Z;
  day : Z;
  hour : Z;
  minute : Z;
  second : Z;
  microsecond : Z;
  tzinfo : option Z
}.

Definition is_leap (y : Z) : bool :=
  (y mod 4 =? 0) && (negb (y mod 100 =? 0) || (y mod 400 =? 0)).

Definition days_in_month (y m : Z) : Z :=
  if decide (m = 2) then (if is_leap y then 29 else 28)
  else if bool_decide (m ∈ [4; 6; 9; 11]) then 30 else 31.

(** Field ranges every Python [datetime] object satisfies. *)
Definition valid_datetime (d : datetime) : Prop :=
  1 <= year d <= 9999 /\ 1 <= month d <= 12 /\
  1 <= day d <= days_in_month (year d) (month d) /\
  0 <= hour d < 24 /\ 0 <= minute d < 60 /\ 0 <= second d < 60 /\
  0 <= microsecond d < 1000000.

(** ['%0<w>d' % n], for [0 <= n < 10 ^ w]: exactly [w] decimal digits. *)
Definition digit (n : Z) : ascii := ascii_of_nat (48 + Z.to_nat n).

Fixpoint zpad (w : nat) (n : Z) : string :=
  match w with
  | O => EmptyString
  | S w' => String (digit (n / 10 ^ Z.of_nat w'))
                   (zpad w' (n mod 10 ^ Z.of_nat w'))
  end.

(** [dt.strftime('%Y/%m')]; ['%Y'] is printed with four digits, which is
    what every platform does for the years 1000..9999. *)
Definition strftime_Y_m (d : datetime) : string :=
  zpad 4 (year d) +:+ "/" +:+ zpad 2 (month d).

(** The UTC offset as [isoformat] prints it: empty for a naive datetime,
    otherwise sign, hours and minutes. *)
Definition format_offset (tz : option Z) : string :=
  match tz with
  | None => ""
  | Some m =>
      (if m <? 0 then "-" else "+") +:+
      zpad 2 (Z.abs m / 60) +:+ ":" +:+ zpad 2 (Z.abs m mod 60)
  end.

(** [str(dt)], that is [dt.isoformat(sep=' ')]: the fraction is printed
    only when [microsecond] is not zero. *)
Definition datetime_str (d : datetime) : string :=
  zpad 4 (year d) +:+ "-" +:+ zpad 2 (month d) +:+ "-" +:+ zpad 2 (day d) +:+
  " " +:+ zpad 2 (hour d) +:+ ":" +:+ zpad 2 (minute d) +:+ ":" +:+
  zpad 2 (second d) +:+
  (if decide (microsecond d = 0) then "" else "." +:+ zpad 6 (microsecond d)) +:+
  format_offset (tzinfo d).

(** The civil fields as a tuple, compared lexicographically
    ([datetime._cmp] when both operands carry the same offset). *)
Definition fields (d : datetime) : list Z :=
  [year d; month d; day d; hour d; minute d; second d; microsecond d].

Fixpoint lex_compare (a b : list Z) : comparison :=
  match a, b with
  | [], [] => Eq
  | [], _ :: _ => Lt
  | _ :: _, [] => Gt
  | x :: a', y :: b' =>
      match Z.compare x y with
      | Eq => lex_compare a' b'
      | c => c
      end
  end.

(** Proleptic Gregorian ordinal of a date ([datetime._ymd2ord]). *)
Definition days_before_year (y : Z) : Z :=
  (y - 1) * 365 + (y - 1) / 4 - (y - 1) / 100 + (y - 1) / 400.

Definition days_before_month (y m : Z) : Z :=
  nth (Z.to_nat m) [0; 0; 31; 59; 90; 120; 151; 181; 212; 243; 273; 304; 334] 0 +
  (if (2 <? m) && is_leap y then 1 else 0).

Definition ymd2ord (d : datetime) : Z :=
  days_before_year (year d) + days_before_month (year d) (month d) + day d.

(** Microseconds since the epoch of the ordinal, at UTC, for an aware
    datetime of offset [off] minutes. *)
Definition utc_instant (d : datetime) (off : Z) : Z :=
  (((ymd2ord d * 24 + hour d) * 60 + minute d - off) * 60 + second d) * 1000000
  + microsecond d.

(** Ordering of two datetimes ([datetime._cmp]): equal offsets (both naive
    included) compare the civil fields; two aware datetimes of different
    offsets compare their UTC instants; naive against aware raises. *)
Definition datetime_cmp (a b : datetime) : result comparison :=
  if decide (tzinfo a = tzinfo b) then Ok (lex_compare (fields a) (fields b))
  else match tzinfo a, tzinfo b with
       | Some oa, Some ob => Ok (Z.compare (utc_instant a oa) (utc_instant b ob))
       | _, _ => Raise TypeError
       end.

(** *** Review records

    The value found under the key ['date'] of a review dict. *)
Inductive date_val :=
  | DateMissing                 (* the dict has no 'date' key *)
  | DateNone                    (* None / JSON null *)
  | DateStr (s : string)        (* a str, as JSON delivers it *)
  | DateTime (d : datetime).    (* a datetime, as the fetchers deliver it *)

(** A review dict with the nine keys the fetchers write
    (fetcher.py 123-133 and 170-180).  [r_id = None] is the Python [None];
    [r_version = None] is an absent key or [None], which [r.get('version')]
    does not tell apart. *)
Record review := mkReview {
  r_id : option string;
  r_date : date_val;
  r_country : string;
  r_version : option string;
  r_source : string;
  r_user_name : string;
  r_rating : Z;
  r_title : string;
  r_content : string
}.

Global Instance exn_eq_dec : EqDecision exn.
Proof. solve_decision. Defined.
Global Instance datetime_eq_dec : EqDecision datetime.
Proof. solve_decision. Defined.
Global Instance date_val_eq_dec : EqDecision date_val.
Proof. solve_decision. Defined.
Global Instance review_eq_dec : EqDecision review.
Proof. solve_decision. Defined.

Definition set_date (v : date_val) (r : review) : review :=
  mkReview (r_id r) v (r_country r) (r_version r) (r_source r)
           (r_user_name r) (r_rating r) (r_title r) (r_content r).

(** *** JSON documents

    [json.dump(data, default=str)] followed by [json.load]: every value of
    a review survives unchanged except a datetime, which [default=str]
    turns into its [str()]. *)
Definition json_date (v : date_val) : date_val :=
  match v with
  | DateTime d => DateStr (datetime_str d)
  | _ => v
  end.

Definition json_review (r : review) : review := set_date (json_date (r_date r)) r.

(** The index document: a dict that may or may not carry each of its two
    keys.  [versions] maps version -> country -> list of ['YYYY/MM']. *)
Record index_data := mkIndex {
  versions : option (gmap string (gmap string (list string)));
  updated_at : option string
}.

Global Instance index_data_eq_dec : EqDecision index_data.
Proof. solve_decision. Defined.

(** What a path of the store holds: a JSON array of reviews or a JSON
    object shaped like the index. *)
Inductive document :=
  | Reviews (l : list review)
  | Index (i : index_data).

Global Instance document_eq_dec : EqDecision document.
Proof. solve_decision. Defined.

Definition json_document (d : document) : document :=
  match d with
  | Reviews l => Reviews (map json_review l)
  | Index i => Index i
  end.

End PyData.

Import PyData.

(** ** The storage manager *)

(** The blobs under [data_local/] or in the bucket: one namespace of paths,
    each holding a JSON document.  Both backends of [_read_json] and
    [_write_json] behave as this map. *)
Abbreviation store := (gmap string document).

(** One entry of [affected_files] (storage.py 86-91). *)
Record file_info := mkInfo {
  info_path : string;
  info_country : string;
  info_ym : string;
  info_reviews : list review
}.

(** The key of a group: [(country, ym)]. *)
Abbreviation group_key := (string * string)%type.

(** [list.sort(reverse=True)] as a function: a stable sort, largest first.
    [gtb y x] says that [y] is strictly greater than [x].  An element
    precedes those that followed it in the input, so it is put in front of
    the first element that is not strictly greater. *)
Section StableSort.

Context {A : Type} (gtb : A -> A -> bool).

Fixpoint insert_desc (x : A) (l : list A) : list A :=
  match l with
  | [] => [x]
  | y :: l' => if gtb y x then y :: insert_desc x l' else x :: l
  end.

Definition stable_sort_desc (l : list A) : list A := foldr insert_desc [] l.

(** [x] is not smaller than [y]: the order of two neighbours in a list
    sorted largest first. *)
Definition not_below (x y : A) : Prop := gtb y x = false.

End StableSort.

Section StorageManager.

(** [datetime.datetime.fromisoformat]: [None] stands for [ValueError]. *)
Variable fromisoformat : string -> option datetime.

(** storage.py 19-30. *)
Definition _read_json (self : store) (path : string) : option document :=
  self !! path.

(** storage.py 32-45: the document is serialised with [default=str]. *)
Definition _write_json (self : store) (path : string) (data : document) : store :=
  <[path := json_document data]> self.

(** *** Grouping (storage.py 53-65) *)

(** storage.py 55-57, and the attribute lookup [dt.strftime] of line 59. *)
Definition date_of_review (r : review) : result datetime :=
  match r_date r with
  | DateMissing => Raise KeyError
  | DateNone => Raise AttributeError
  | DateStr s =>
      match fromisoformat s with
      | Some dt => Ok dt
      | None => Raise ValueError
      end
  | DateTime dt => Ok dt
  end.

(** storage.py 63-65: [grouped] is a dict, kept here in insertion order. *)
Fixpoint grouped_append (key : group_key) (r : review)
    (grouped : list (group_key * list review)) : list (group_key * list review) :=
  match grouped with
  | [] => [(key, [r])]
  | (k, l) :: rest =>
      if decide (k = key) then (k, l ++ [r]) :: rest
      else (k, l) :: grouped_append key r rest
  end.

Fixpoint group_loop (grouped : list (group_key * list review))
    (reviews : list review) : result (list (group_key * list review)) :=
  match reviews with
  | [] => Ok grouped
  | r :: rest =>
      dt ← date_of_review r;
      let ym := strftime_Y_m dt in
      let key := (r_country r, ym) in
      group_loop (grouped_append key r grouped) rest
  end.

(** *** Merging one partition (storage.py 74-83) *)

(** storage.py 77-80. *)
Fixpoint merge_loop (existing_ids : gset (option string))
    (merged new_reviews : list review) : list review :=
  match new_reviews with
  | [] => merged
  | nr :: rest =>
      if decide (r_id nr ∈ existing_ids)
      then merge_loop existing_ids merged rest
      else merge_loop ({[r_id nr]} ∪ existing_ids) (merged ++ [nr]) rest
  end.

(** Python's ordering of two values of ['date']: two strs compare as
    strings, two datetimes as datetimes, and every other pair raises
    (a [None] is not ordered even against [None]). *)
Definition date_cmp (a b : date_val) : result comparison :=
  match a, b with
  | DateStr s, DateStr t => Ok (String.compare s t)
  | DateTime d, DateTime e => datetime_cmp d e
  | _, _ => Raise TypeError
  end.

Definition date_gtb (a b : date_val) : bool :=
  match date_cmp a b with
  | Ok Gt => true
  | _ => false
  end.

(** The order [list.sort(..., reverse=True)] leaves the reviews in. *)
Definition sort_desc (l : list review) : list review :=
  stable_sort_desc (fun y x => date_gtb (r_date y) (r_date x)) l.

(** The class of values a key can be ordered against. *)
Inductive key_class := KStr | KNaive | KAware.

Global Instance key_class_eq_dec : EqDecision key_class.
Proof. solve_decision. Defined.

Definition class_of (v : date_val) : option key_class :=
  match v with
  | DateStr _ => Some KStr
  | DateTime d => Some (if tzinfo d is Some _ then KAware else KNaive)
  | _ => None
  end.

(** Whether sorting by ['date'] goes through without [TypeError].  With at
    most one element nothing is compared.  With two or more, a sort has to
    link all elements by comparisons, so it succeeds exactly when all keys
    lie in one class of mutually ordered values. *)
Definition comparable_keys (l : list review) : bool :=
  match l with
  | [] | [_] => true
  | x :: rest =>
      match class_of (r_date x) with
      | Some c => forallb (fun y => bool_decide (class_of (r_date y) = Some c)) rest
      | None => false
      end
  end.

(** storage.py 83: [merged.sort(key=lambda x: x['date'], reverse=True)].
    The keys are computed first ([KeyError] on a dict without ['date']),
    then compared. *)
Definition sort_by_date_desc (merged : list review) : result (list review) :=
  if existsb (fun x => bool_decide (r_date x = DateMissing)) merged
  then Raise KeyError
  else if comparable_keys merged then Ok (sort_desc merged)
  else Raise TypeError.

(** storage.py 74-83 for one group. *)
Definition merge_reviews (existing_reviews new_reviews : list review)
    : result (list review) :=
  let existing_ids : gset (option string) := list_to_set (map r_id existing_reviews) in
  let merged := merge_loop existing_ids existing_reviews new_reviews in
  sort_by_date_desc merged.

(** *** Writing the partitions (storage.py 70-91) *)

(** storage.py 71. *)
Definition partition_path (base_path country ym : string) : string :=
  base_path +:+ "/" +:+ country +:+ "/" +:+ ym +:+ ".json".

(** storage.py 72: [self._read_json(path) or []].  An empty JSON object is
    falsy as well; iterating a non-empty one yields its keys, on which
    [r['id']] raises. *)
Definition read_existing (self : store) (path : string) : result (list review) :=
  match _read_json self path with
  | None => Ok []
  | Some (Reviews l) => Ok l
  | Some (Index (mkIndex None None)) => Ok []
  | Some (Index _) => Raise TypeError
  end.

(** The body of the loop of storage.py 70-91. *)
Definition save_group (self : store) (base_path : string)
    (key : group_key) (new_reviews : list review) : result (store * file_info) :=
  let '(country, ym) := key in
  let path := partition_path base_path country ym in
  existing_reviews ← read_existing self path;
  merged ← merge_reviews existing_reviews new_reviews;
  Ok (_write_json self path (Reviews merged), mkInfo path country ym merged).

(** storage.py 68-91: an exception leaves the loop with the store as the
    groups before it wrote it. *)
Fixpoint save_groups (self : store) (base_path : string)
    (grouped : list (group_key * list review)) (affected_files : list file_info)
    : store * result (list file_info) :=
  match grouped with
  | [] => (self, Ok affected_files)
  | (key, new_reviews) :: rest =>
      match save_group self base_path key new_reviews with
      | Raise e => (self, Raise e)
      | Ok (self', info) =>
          save_groups self' base_path rest (affected_files ++ [info])
      end
  end.

(** *** The index (storage.py 96-148) *)

Definition index_path (base_path : string) : string := base_path +:+ "/index.json".

(** storage.py 128-130: [v = r.get('version')], ["Unknown"] when falsy. *)
Definition version_of (r : review) : string :=
  match r_version r with
  | Some v => if decide (v = "") then "Unknown" else v
  | None => "Unknown"
  end.

(** storage.py 126-131: the set of versions of a file, listed without
    repetition.  Each version updates its own key of the index, so the
    order in which the Python set is iterated does not show in the result. *)
Definition versions_in_file (reviews : list review) : list string :=
  remove_dups (map version_of reviews).

(** [list.sort()] on a list of strs. *)
Fixpoint insert_str (x : string) (l : list string) : list string :=
  match l with
  | [] => [x]
  | y :: l' => if String.ltb x y then x :: l else y :: insert_str x l'
  end.

Definition sort_strs (l : list string) : list string := foldr insert_str [] l.

(** storage.py 135-145 for one version [v]. *)
Definition add_ym (vs : gmap string (gmap string (list string)))
    (v country ym : string) : gmap string (gmap string (list string)) :=
  let by_country := default ∅ (vs !! v) in
  let yms := default [] (by_country !! country) in
  let yms' := if decide (ym ∈ yms) then yms else sort_strs (yms ++ [ym]) in
  <[v := <[country := yms']> by_country]> vs.

(** storage.py 118-145. *)
Definition index_file (vs : gmap string (gmap string (list string)))
    (info : file_info) : gmap string (gmap string (list string)) :=
  foldl (fun acc v => add_ym acc v (info_country info) (info_ym info))
        vs (versions_in_file (info_reviews info)).

Definition index_files (vs : gmap string (gmap string (list string)))
    (updated_files_info : list file_info) : gmap string (gmap string (list string)) :=
  foldl index_file vs updated_files_info.

(** storage.py 102: [self._read_json(index_path) or {...}], and 115-116.
    A non-empty JSON array at the index path fails on line 116. *)
Definition read_index (self : store) (base_path : string)
    : result (gmap string (gmap string (list string))) :=
  match _read_json self (index_path base_path) with
  | None => Ok ∅
  | Some (Index i) => Ok (default ∅ (versions i))
  | Some (Reviews []) => Ok ∅
  | Some (Reviews (_ :: _)) => Raise TypeError
  end.

(** storage.py 96-148; [now] is [datetime.datetime.now().isoformat()]. *)
Definition update_index (self : store) (updated_files_info : list file_info)
    (base_path now : string) : store * result unit :=
  match read_index self base_path with
  | Raise e => (self, Raise e)
  | Ok vs =>
      let index_data := mkIndex (Some (index_files vs updated_files_info)) (Some now) in
      (_write_json self (index_path base_path) (Index index_data), Ok tt)
  end.

(** storage.py 47-94. *)
Definition save_reviews (self : store) (reviews : list review)
    (base_path now : string) : store * result unit :=
  match group_loop [] reviews with
  | Raise e => (self, Raise e)
  | Ok grouped =>
      match save_groups self base_path grouped [] with
      | (self', Raise e) => (self', Raise e)
      | (self', Ok affected_files) =>
          update_index self' affected_files base_path now
      end
  end.

End StorageManager.

(** ** Notions used in the statements *)

Definition leap_day (y : Z) : Z := if is_leap y then 1 else 0.

Definition valid_date (v : date_val) : Prop :=
  match v with
  | DateTime d => valid_datetime d
  | _ => True
  end.

(** Every datetime a review carries is a well-formed one. *)
Definition valid_review (r : review) : Prop := valid_date (r_date r).

(** The date of the data model: a datetime is timezone-normalised to UTC
    (fetcher.py 116-119 and 165-168). *)
Definition utc_normalized (r : review) : Prop :=
  match r_date r with
  | DateTime d => valid_datetime d /\ tzinfo d = Some 0
  | _ => True
  end.

(** A review as the fetchers deliver it: dated by an aware datetime. *)
Definition fetched (r : review) : Prop :=
  exists d off, r_date r = DateTime d /\ tzinfo d = Some off.

(** The instant of a datetime, a naive one being read at offset 0. *)
Definition instant (d : datetime) : Z := utc_instant d (default 0 (tzinfo d)).

(** [x] is dated no earlier than [y]. *)
Definition date_ge (x y : review) : Prop := date_gtb (r_date y) (r_date x) = false.


Definition ids_of (l : list review) : gset (option string) := list_to_set (map r_id l).

(** The records [merge_loop] appends: the new reviews whose id was not
    seen, in input order. *)
Fixpoint fresh_reviews (existing_ids : gset (option string))
    (new_reviews : list review) : list review :=
  match new_reviews with
  | [] => []
  | nr :: rest =>
      if decide (r_id nr ∈ existing_ids) then fresh_reviews existing_ids rest
      else nr :: fresh_reviews ({[r_id nr]} ∪ existing_ids) rest
  end.

(** The path of a group. *)
Definition group_path (base_path : string) (g : group_key * list review) : string :=
  partition_path base_path g.1.1 g.1.2.

(** What processing a group against [self] merges (storage.py 72-83). *)
Definition merged_group (self : store) (base_path : string)
    (g : group_key * list review) : result (list review) :=
  existing_reviews ← read_existing self (group_path base_path g);
  merge_reviews existing_reviews g.2.

Definition info_of (base_path : string) (g : group_key * list review)
    (merged : list review) : file_info :=
  mkInfo (group_path base_path g) g.1.1 g.1.2 merged.

(** The groups a run gets through when every group is merged against the
    store the run started from: the entries it appends to
    [affected_files], and the exception that stops it, if any. *)
Fixpoint plan (self : store) (base_path : string)
    (grouped : list (group_key * list review)) : list file_info * option exn :=
  match grouped with
  | [] => ([], None)
  | g :: rest =>
      match merged_group self base_path g with
      | Raise e => ([], Some e)
      | Ok merged =>
          let '(infos, stop) := plan self base_path rest in
          (info_of base_path g merged :: infos, stop)
      end
  end.

(** The writes of line 85 for a list of entries. *)
Definition write_all (self : store) (infos : list file_info) : store :=
  foldl (fun st info => _write_json st (info_path info) (Reviews (info_reviews info)))
        self infos.

(** The index maps version [v] and country [c] to a list holding [ym]. *)
Definition triple_in (vs : gmap string (gmap string (list string)))
    (v c ym : string) : Prop :=
  exists by_country yms,
    vs !! v = Some by_country /\ by_country !! c = Some yms /\ ym ∈ yms.

(** The versions mapping of the index document of a store; empty when the
    store has no index. *)
Definition index_versions (self : store) (base_path : string)
    : gmap string (gmap string (list string)) :=
  match self !! index_path base_path with
  | Some (Index i) => default ∅ (versions i)
  | _ => ∅
  end.

Definition index_has (self : store) (base_path v c ym : string) : Prop :=
  triple_in (index_versions self base_path) v c ym.

(** The records of the partition [(c, ym)]; none when it was never written. *)
Definition partition_records (self : store) (base_path c ym : string) : list review :=
  match self !! partition_path base_path c ym with
  | Some (Reviews l) => l
  | _ => []
  end.

Section Runs.

Variable fromisoformat : string -> option datetime.

(** The group a review goes to; [None] when its date makes line 55-59 raise. *)
Definition key_of (r : review) : option group_key :=
  match date_of_review fromisoformat r with
  | Ok dt => Some (r_country r, strftime_Y_m dt)
  | Raise _ => None
  end.

Definition has_key (k : group_key) (r : review) : bool :=
  bool_decide (key_of r = Some k).

(** A review whose date is missing or does not parse: line 55, 57 or 59
    raises on it. *)
Definition undated (r : review) : Prop :=
  r_date r = DateMissing \/ r_date r = DateNone \/
  exists s, r_date r = DateStr s /\ fromisoformat s = None.

Definition dated (r : review) : bool := bool_decide (is_Some (key_of r)).

(** Rejection record by record, in the words of the specification: the
    undated records are dropped and the rest of the batch is ingested. *)
Definition drops_undated_records (self : store) (reviews : list review)
    (base_path now : string) : Prop :=
  save_reviews fromisoformat self reviews base_path now =
  save_reviews fromisoformat self (List.filter dated reviews) base_path now.

(** Failure isolation, in the words of the specification: the groups
    that merge are written whatever happens to the others, the index is
    updated, and the run returns instead of raising. *)
Definition isolates_failures (self : store) (reviews : list review)
    (base_path now : string) : Prop :=
  forall grouped, group_loop fromisoformat [] reviews = Ok grouped ->
    let self' := (save_reviews fromisoformat self reviews base_path now).1 in
    (forall g merged, g ∈ grouped -> merged_group self base_path g = Ok merged ->
       self' !! group_path base_path g = Some (Reviews (map json_review merged))) /\
    (exists vs, self' !! index_path base_path =
                Some (Index (mkIndex (Some vs) (Some now)))) /\
    (save_reviews fromisoformat self reviews base_path now).2 = Ok tt.

(** Idempotence, in the words of the specification: the store after a
    second ingestion of the batch is the store after the first. *)
Definition idempotent_on (reviews : list review) (base_path now1 now2 : string) : Prop :=
  let once := (save_reviews fromisoformat ∅ reviews base_path now1).1 in
  (save_reviews fromisoformat once reviews base_path now2).1 = once.

(** The stores the system can bring about: from the empty store, any
    number of runs with one [base_path], whether they end normally or
    with an exception. *)
Inductive reachable (base_path : string) : store -> Prop :=
  | reachable_empty : reachable base_path ∅
  | reachable_run self reviews now :
      reachable base_path self ->
      reachable base_path (save_reviews fromisoformat self reviews base_path now).1.

End Runs.

(** *** Invariants of the reachable stores *)

(** Every partition document is a list of reviews of its country. *)
Definition partitions_ok (base : string) (self : store) : Prop :=
  forall c ym d, String.length ym = 7%nat ->
    self !! partition_path base c ym = Some d ->
    exists l, d = Reviews l /\ Forall (fun r => r_country r = c) l.

(** Every triple of the index has a record in its partition. *)
Definition index_sound (base : string) (self : store) : Prop :=
  forall v c ym, index_has self base v c ym ->
    String.length ym = 7%nat /\
    exists r, r ∈ partition_records self base c ym /\ version_of r = v /\ r_country r = c.

(** The index path holds an index document, or nothing. *)
Definition index_readable (base : string) (self : store) : Prop :=
  self !! index_path base = None \/ exists i, self !! index_path base = Some (Index i).

(** An entry of [affected_files] made from a group of one country. *)
Definition good_info (base : string) (self : store) (info : file_info) : Prop :=
  String.length (info_ym info) = 7%nat /\
  info_path info = partition_path base (info_country info) (info_ym info) /\
  exists news,
    merge_reviews (partition_records self base (info_country info) (info_ym info)) news
    = Ok (info_reviews info) /\
    Forall (fun r => r_country r = info_country info) news.

(** An entry of [affected_files] as a second run finds it: the reviews
    come back from the store. *)
Definition json_info (info : file_info) : file_info :=
  mkInfo (info_path info) (info_country info) (info_ym info)
         (map json_review (info_reviews info)).


(** ** The dates the fetchers produce *)

Section Fetcher.

Variable fromisoformat : string -> option datetime.

(** [dt.astimezone(datetime.timezone.utc)]. *)
Variable astimezone_utc : datetime -> datetime.

(** [dt.replace(tzinfo=...)]. *)
Definition replace_tzinfo (tz : option Z) (d : datetime) : datetime :=
  mkdatetime (year d) (month d) (day d) (hour d) (minute d) (second d)
             (microsecond d) tz.

(** fetcher.py 116-119 and 165-168. *)
Definition ensure_utc (dt : datetime) : datetime :=
  match tzinfo dt with
  | None => replace_tzinfo (Some 0) dt
  | Some _ => astimezone_utc dt
  end.

(** fetcher.py 112-121: the date of an iOS entry from its [updated] text;
    [now_utc] is [datetime.datetime.now(datetime.timezone.utc)]. *)
Definition entry_date (updated : string) (now_utc : datetime) : datetime :=
  match fromisoformat updated with
  | Some dt => ensure_utc dt
  | None => now_utc
  end.

(** fetcher.py 161-168: the value under ['date'] of an Android review;
    [at_] is [r.get('at')]. *)
Definition android_date (at_ : option datetime) : date_val :=
  match at_ with
  | Some dt => DateTime (ensure_utc dt)
  | None => DateNone
  end.

End Fetcher.

(** ** A parser for the instances

    The strings [isoformat] writes: ['YYYY-MM-DD'], optionally followed by
    a separator, ['HH:MM:SS'], a fraction ['.ffffff'] and an offset
    ['+HH:MM'].  It instantiates [fromisoformat] wherever a statement is
    run on concrete data; the theorems hold for every parser. *)

Module IsoFormat.

Fixpoint read_digits (n : nat) (acc : Z) (s : string) : option (Z * string) :=
  match n with
  | O => Some (acc, s)
  | S n' =>
      match s with
      | String c s' => d ← Ascii.is_nat c; read_digits n' (acc * 10 + Z.of_nat d) s'
      | EmptyString => None
      end
  end.

Definition expect (c : ascii) (s : string) : option string :=
  match s with
  | String c' s' => if decide (c = c') then Some s' else None
  | EmptyString => None
  end.

Definition check_fields (d : datetime) : option datetime :=
  if bool_decide (1 <= year d <= 9999 ∧ 1 <= month d <= 12 ∧
                  1 <= day d <= days_in_month (year d) (month d) ∧
                  hour d < 24 ∧ minute d < 60 ∧ second d < 60)
  then Some d else None.

Definition read_offset (s : string) : option (option Z) :=
  match s with
  | EmptyString => Some None
  | String sign s =>
      sgn ← (if decide (sign = "+"%char) then Some 1
             else if decide (sign = "-"%char) then Some (-1) else None);
      '(oh, s) ← read_digits 2 0 s;
      s ← expect ":" s;
      '(om, s) ← read_digits 2 0 s;
      if decide (s = "") then
        if bool_decide (oh < 24 ∧ om < 60) then Some (Some (sgn * (oh * 60 + om)))
        else None
      else None
  end.

Definition fromisoformat (s : string) : option datetime :=
  '(y, s) ← read_digits 4 0 s;
  s ← expect "-" s;
  '(m, s) ← read_digits 2 0 s;
  s ← expect "-" s;
  '(d, s) ← read_digits 2 0 s;
  match s with
  | EmptyString => check_fields (mkdatetime y m d 0 0 0 0 None)
  | String _ s =>
      '(h, s) ← read_digits 2 0 s;
      s ← expect ":" s;
      '(mi, s) ← read_digits 2 0 s;
      s ← expect ":" s;
      '(sec, s) ← read_digits 2 0 s;
      '(us, s) ← match s with
                 | String "." s' => read_digits 6 0 s'
                 | _ => Some (0, s)
                 end;
      tz ← read_offset s;
      check_fields (mkdatetime y m d h mi sec us tz)
  end.

End IsoFormat.

(** ** Sample data

    The records of the scenarios of the specification, and a few more. *)

Module Sample.

Definition utc (y m d h mi s : Z) : datetime := mkdatetime y m d h mi s 0 (Some 0).

Definition review_of (id : string) (date : date_val) (country version : string) : review :=
  mkReview (Some id) date country (Some version) "ios" "someone" 5 "title" "text".

(** Scenarios A and B: the record [a], and [a] fetched again with another
    version. *)
Definition a : review := review_of "a" (DateTime (utc 2024 5 1 0 0 0)) "jp" "1.0".
Definition a_again : review := review_of "a" (DateTime (utc 2024 5 1 0 0 0)) "jp" "2.0".

(** Scenario C: a record of the next month. *)
Definition b : review := review_of "b" (DateTime (utc 2024 6 15 0 0 0)) "jp" "1.1".

(** A later review of the month of [a], and one of another country. *)
Definition c : review := review_of "c" (DateTime (utc 2024 5 20 12 0 0)) "jp" "1.1".
Definition d : review := review_of "d" (DateTime (utc 2024 5 21 8 30 0)) "us" "1.1".

(** Scenario D: a record whose date does not parse. *)
Definition undated_record : review := review_of "x" (DateStr "yesterday") "jp" "1.0".

(** Two reviews of one month whose datetimes carry different offsets:
    [p] at 10:00 +09:00 is 01:00 at UTC, earlier than [q] at 05:00 UTC. *)
Definition p : review :=
  review_of "p" (DateTime (mkdatetime 2024 5 1 10 0 0 0 (Some 540))) "jp" "1.0".
Definition q : review := review_of "q" (DateTime (utc 2024 5 1 5 0 0)) "jp" "1.0".

(** [a] as the store returns it. *)
Definition a_stored : review := review_of "a" (DateStr "2024-05-01 00:00:00+00:00") "jp" "1.0".

(** The store after scenario A. *)
Definition store_A : store :=
  (save_reviews IsoFormat.fromisoformat ∅ [a] "reviews" "2024-05-02T09:00:00").1.

End Sample.

(** ** Notions of the store invariants *)

(** Strict order of two strs, as [list.sort()] compares them. *)
Definition str_lt (a b : string) : Prop := String.ltb a b = true.

Section StoreInvariants.

Variable fromisoformat : string -> option datetime.

(** A stored record of the partition [(c, ym)]: it is of country [c], and
    its date is a str, the [str()] of a datetime of year-month [ym] or a
    str that parses to one. *)
Definition filed_under (c ym : string) (r : review) : Prop :=
  r_country r = c /\
  exists dt, strftime_Y_m dt = ym /\
    (r_date r = DateStr (datetime_str dt) \/
     exists s, r_date r = DateStr s /\ fromisoformat s = Some dt).

(** An entry of [affected_files] of a run on [reviews] that started from
    [self]: the merge of the stored partition with reviews of its key. *)
Definition written (base_path : string) (self : store) (reviews : list review)
    (info : file_info) : Prop :=
  String.length (info_ym info) = 7%nat /\
  info_path info = partition_path base_path (info_country info) (info_ym info) /\
  exists news,
    merge_reviews (partition_records self base_path (info_country info) (info_ym info))
                  news = Ok (info_reviews info) /\
    Forall (fun r => r ∈ reviews /\
                     key_of fromisoformat r = Some (info_country info, info_ym info)) news.

(** The stores reached from the empty store by runs that all satisfy
    [admitted]. *)
Inductive reachable_by (admitted : store -> list review -> string -> Prop)
    (base_path : string) : store -> Prop :=
  | reachable_by_empty : reachable_by admitted base_path ∅
  | reachable_by_run self reviews now :
      reachable_by admitted base_path self ->
      admitted self reviews now ->
      reachable_by admitted base_path
        (save_reviews fromisoformat self reviews base_path now).1.

(** The run returns instead of raising. *)
Definition returns (base_path : string) (self : store) (reviews : list review)
    (now : string) : Prop :=
  (save_reviews fromisoformat self reviews base_path now).2 = Ok tt.

End StoreInvariants.

(** The datetimes of the batch are normalised to UTC. *)
Definition normalized (self : store) (reviews : list review) (now : string) : Prop :=
  Forall utc_normalized reviews.

(** ** The fetchers of [src/collector/fetcher.py]

    The network is outside the model: a fetcher is given what its request
    returned, already parsed, or [None] when the request or the parser
    raised. *)

(** *** JSON values, as [response.json()] returns them

    A number is kept by the integer [int()] makes of it; the dicts have
    distinct keys, as [json.loads] builds them. *)
Local Unset Elimination Schemes.
Inductive json :=
  | JNull
  | JBool (b : bool)
  | JNum (n : Z)
  | JStr (s : string)
  | JList (l : list json)
  | JDict (items : list (string * json)).
Local Set Elimination Schemes.

(** [needle in s] for two strs. *)
Fixpoint is_substring (needle s : string) : bool :=
  String.prefix needle s ||
  match s with
  | EmptyString => false
  | String _ s' => is_substring needle s'
  end.

(** Looking a key up in the items of a dict. *)
Fixpoint dict_lookup (key : string) (items : list (string * json)) : option json :=
  match items with
  | [] => None
  | (k, v) :: rest => if decide (k = key) then Some v else dict_lookup key rest
  end.

(** [d.get(key, default)]: only a dict has the method. *)
Definition dict_get (d : json) (key : string) (default : json) : result json :=
  match d with
  | JDict items => Ok (from_option id default (dict_lookup key items))
  | _ => Raise AttributeError
  end.

(** [for x in v]: the elements of a list, the keys of a dict, the
    characters of a str. *)
Definition iterate (v : json) : result (list json) :=
  match v with
  | JList l => Ok l
  | JDict items => Ok (map (fun kv => JStr kv.1) items)
  | JStr s => Ok (map (fun c => JStr (String c EmptyString)) (list_ascii_of_string s))
  | _ => Raise TypeError
  end.

(** [key in v] for a str [key]: a key of a dict, an element of a list, a
    substring of a str. *)
Definition contains (key : string) (v : json) : result bool :=
  match v with
  | JDict items => Ok (bool_decide (key ∈ map fst items))
  | JList l => Ok (existsb (fun x => match x with
                                     | JStr s => bool_decide (s = key)
                                     | _ => false
                                     end) l)
  | JStr s => Ok (is_substring key s)
  | _ => Raise TypeError
  end.

(** *** An entry of the Atom feed

    What [entry.find(tag, ns)] returns for each tag the fetcher asks for:
    [None] when the entry has no such child, otherwise the [text] of the
    child, which is [None] for an empty element.  The name, title and
    content elements are taken to carry text, since a review holds them
    as strs. *)
Record xml_entry := mkEntry {
  e_rating : option (option string);
  e_id : option (option string);
  e_updated : option (option string);
  e_author : option (option string);   (* the author, and the text of its name *)
  e_title : option string;
  e_content : option string;
  e_version : option (option string)
}.

(** *** A review of the Play Store scraper

    The keys the fetcher reads with [r.get].  [g_reviewCreatedVersion] is
    [None] when the dict has no such key and [Some None] when it holds
    [None]. *)
Record gps_review := mkGps {
  g_reviewId : option string;
  g_userName : string;
  g_at : option datetime;
  g_score : Z;
  g_content : string;
  g_reviewCreatedVersion : option (option string)
}.

Definition set_version (v : option string) (r : review) : review :=
  mkReview (r_id r) (r_date r) (r_country r) v (r_source r)
           (r_user_name r) (r_rating r) (r_title r) (r_content r).

Section Fetchers.

(** Library functions: [datetime.fromisoformat] and [int] on a str
    ([None] stands for [ValueError]), and [dt.astimezone(timezone.utc)]. *)
Variable fromisoformat : string -> option datetime.
Variable astimezone_utc : datetime -> datetime.
Variable int_of_str : string -> option Z.

(** [int(x)] for a JSON value. *)
Definition py_int (x : json) : result Z :=
  match x with
  | JBool b => Ok (if b then 1 else 0)
  | JNum n => Ok n
  | JStr s =>
      match int_of_str s with
      | Some n => Ok n
      | None => Raise ValueError
      end
  | _ => Raise TypeError
  end.

(** fetcher.py 29-37: the body of the loop over the entries of the JSON
    feed.  Nothing it computes is kept; it can only raise. *)
Definition json_entry (entry : json) : result unit :=
  rated ← contains "im:rating" entry;
  if negb rated then Ok tt
  else
    review_id ← (x ← dict_get entry "id" (JDict []); dict_get x "label" (JStr ""));
    user_name ← (x ← dict_get entry "author" (JDict []);
                 y ← dict_get x "name" (JDict []);
                 dict_get y "label" (JStr "Unknown"));
    title ← (x ← dict_get entry "title" (JDict []); dict_get x "label" (JStr ""));
    content ← (x ← dict_get entry "content" (JDict []); dict_get x "label" (JStr ""));
    rating ← (x ← dict_get entry "im:rating" (JDict []);
              label ← dict_get x "label" (JStr "0");
              py_int label);
    version ← (x ← dict_get entry "im:version" (JDict []);
               dict_get x "label" (JStr "Unknown"));
    Ok tt.

Fixpoint json_entries (entries : list json) : result unit :=
  match entries with
  | [] => Ok tt
  | entry :: rest => _ ← json_entry entry; json_entries rest
  end.

(** fetcher.py 16-67. *)
Definition json_feed (data : json) : result unit :=
  feed ← dict_get data "feed" (JDict []);
  entries ← dict_get feed "entry" (JList []);
  entries ← iterate entries;
  json_entries entries.

(** [element.text] on what [find] returned. *)
Definition text_of {A : Type} (element : option A) : result A :=
  match element with
  | Some text => Ok text
  | None => Raise AttributeError
  end.

(** [int(rating_tag.text)]. *)
Definition int_of_text (text : option string) : result Z :=
  match text with
  | None => Raise TypeError
  | Some s =>
      match int_of_str s with
      | Some n => Ok n
      | None => Raise ValueError
      end
  end.

(** fetcher.py 112-121 on the text of [updated]; [fromisoformat(None)]
    raises inside the [try] as well. *)
Definition updated_date (updated : option string) (now_utc : datetime) : datetime :=
  match updated with
  | Some s => entry_date fromisoformat astimezone_utc s now_utc
  | None => now_utc
  end.

(** fetcher.py 103-133 for an entry with a rating. *)
Definition ios_review (country : string) (entry : xml_entry)
    (rating_text : option string) (now_utc : datetime) : result review :=
  review_id ← text_of (e_id entry);
  updated ← text_of (e_updated entry);
  user_name ← (author ← text_of (e_author entry); text_of author);
  title ← text_of (e_title entry);
  content ← text_of (e_content entry);
  rating ← int_of_text rating_text;
  version ← text_of (e_version entry);
  let dt := updated_date updated now_utc in
  Ok (mkReview review_id (DateTime dt) country version "ios"
               user_name rating title content).

(** fetcher.py 97-136.  [now_utc i] is the clock when the entry at
    position [i] of the feed is read. *)
Fixpoint xml_loop (now_utc : nat -> datetime) (country : string) (count : Z)
    (i : nat) (entries : list xml_entry) (fetched_data : list review)
    : result (list review) :=
  match entries with
  | [] => Ok fetched_data
  | entry :: rest =>
      match e_rating entry with
      | None => xml_loop now_utc country count (S i) rest fetched_data
      | Some rating_text =>
          r ← ios_review country entry rating_text (now_utc i);
          let fetched_data := fetched_data ++ [r] in
          if bool_decide (count <= Z.of_nat (length fetched_data))
          then Ok fetched_data
          else xml_loop now_utc country count (S i) rest fetched_data
      end
  end.

(** fetcher.py 76-142; [feed] is the list of the entries of the response. *)
Definition fetch_ios_reviews_xml (feed : option (list xml_entry))
    (now_utc : nat -> datetime) (country : string) (count : Z) : list review :=
  match feed with
  | None => []
  | Some entries =>
      match xml_loop now_utc country count 0 entries [] with
      | Ok fetched_data => fetched_data
      | Raise _ => []
      end
  end.

(** fetcher.py 6-74. *)
Definition fetch_ios_reviews (response : option json) (feed : option (list xml_entry))
    (now_utc : nat -> datetime) (country : string) (count : Z) : list review :=
  match response with
  | None => []
  | Some data =>
      match json_feed data with
      | Ok _ => fetch_ios_reviews_xml feed now_utc country count
      | Raise _ => []
      end
  end.

(** fetcher.py 149. *)
Definition android_lang (country : string) : string :=
  if bool_decide (country ∈ ["jp"; "en"; "ko"]) then country else "en".

(** fetcher.py 161-180. *)
Definition android_review (country : string) (r : gps_review) : review :=
  mkReview (g_reviewId r) (android_date astimezone_utc (g_at r)) country
           (default (Some "Unknown") (g_reviewCreatedVersion r)) "android"
           (g_userName r) (g_score r) "" (g_content r).

(** fetcher.py 183-185. *)
Definition ensure_version (r : review) : review :=
  match r_version r with
  | None => set_version (Some "Unknown") r
  | Some _ => r
  end.

(** fetcher.py 144-190; [gps_reviews lang country count] is the result list
    of the scraper, [None] when it raised. *)
Definition fetch_android_reviews
    (gps_reviews : string -> string -> Z -> option (list gps_review))
    (country : string) (count : Z) : list review :=
  let lang := android_lang country in
  match gps_reviews lang country count with
  | None => []
  | Some result => map ensure_version (map (android_review country) result)
  end.

(** *** [main] of [src/collector/main.py] *)

(** An entry of [config['apps']]; an id is [None] when the key is absent. *)
Record app_entry := mkApp {
  app_name : string;
  app_countries : list string;
  app_ios_id : option string;
  app_android_id : option string
}.

(** What the network answers during a run: for an app id and a country,
    the JSON response and the Atom feed of the App Store with the clock
    of that fetch, and the result of the Play Store scraper. *)
Record network := mkNetwork {
  ios_json : string -> string -> option json;
  ios_xml : string -> string -> option (list xml_entry);
  ios_clock : string -> string -> nat -> datetime;
  gps : string -> string -> string -> Z -> option (list gps_review)
}.

(** main.py 35-47 for one app and one country; the fetchers are called
    with their default [count]. *)
Definition fetch_country (net : network) (a : app_entry) (all_reviews : list review)
    (country : string) : list review :=
  let all_reviews :=
    match app_ios_id a with
    | Some ios_id =>
        all_reviews ++ fetch_ios_reviews (ios_json net ios_id country)
                         (ios_xml net ios_id country) (ios_clock net ios_id country)
                         country 200
    | None => all_reviews
    end in
  match app_android_id a with
  | Some android_id =>
      all_reviews ++ fetch_android_reviews (gps net android_id) country 200
  | None => all_reviews
  end.

(** main.py 28-47. *)
Definition fetch_all (net : network) (apps : list app_entry) : list review :=
  foldl (fun all_reviews a => foldl (fetch_country net a) all_reviews (app_countries a))
        [] apps.

(** main.py 49-53: nothing is saved when nothing was fetched. *)
Definition main (net : network) (apps : list app_entry) (base_path : string)
    (self : store) (now : string) : store * result unit :=
  let all_reviews := fetch_all net apps in
  match all_reviews with
  | [] => (self, Ok tt)
  | _ :: _ => save_reviews fromisoformat self all_reviews base_path now
  end.

End Fetchers.

(** *** Library functions for the instances *)

Module PyLib.

(** [int] on a str of decimal digits, with a minus sign or without. *)
Fixpoint digits (acc : Z) (s : string) : option Z :=
  match s with
  | EmptyString => Some acc
  | String c s' => d ← Ascii.is_nat c; digits (acc * 10 + Z.of_nat d) s'
  end.

Definition int_of_str (s : string) : option Z :=
  match s with
  | EmptyString => None
  | String "-" (String c s') => Z.opp <$> digits 0 (String c s')
  | _ => digits 0 s
  end.

(** The date of a proleptic Gregorian ordinal ([datetime._ord2ymd]). *)
Definition ord2ymd (n : Z) : Z * Z * Z :=
  let n := n - 1 in
  let n400 := n / 146097 in
  let n := n mod 146097 in
  let n100 := n / 36524 in
  let n := n mod 36524 in
  let n4 := n / 1461 in
  let n := n mod 1461 in
  let n1 := n / 365 in
  let n := n mod 365 in
  let y := n400 * 400 + 1 + n100 * 100 + n4 * 4 + n1 in
  if (n1 =? 4) || (n100 =? 4) then (y - 1, 12, 31)
  else
    let m := (n + 50) / 32 in
    let preceding := days_before_month y m in
    if n <? preceding
    then (y, m - 1, n - days_before_month y (m - 1) + 1)
    else (y, m, n - preceding + 1).

(** [dt.astimezone(timezone.utc)] for an aware datetime. *)
Definition astimezone_utc (d : datetime) : datetime :=
  let minutes := (ymd2ord d * 24 + hour d) * 60 + minute d - default 0 (tzinfo d) in
  let '(y, m, dd) := ord2ymd (minutes / 1440) in
  mkdatetime y m dd (minutes mod 1440 / 60) (minutes mod 60)
             (second d) (microsecond d) (Some 0).

End PyLib.

(** ** The viewer of [src/web/app.py]: which files it loads *)

(** [datetime.date]. *)
Record date := mkdate {
  d_year : Z;
  d_month : Z;
  d_day : Z
}.

Global Instance date_eq_dec : EqDecision date.
Proof. solve_decision. Defined.

(** Year, month and day that make a date. *)
Definition valid_ymd (y m d : Z) : Prop :=
  1 <= y <= 9999 /\ 1 <= m <= 12 /\ 1 <= d <= days_in_month y m.

Definition valid (a : date) : Prop := valid_ymd (d_year a) (d_month a) (d_day a).

(** The constructor behind [replace]: [ValueError] when the fields do
    not make a date. *)
Definition make_date (y m d : Z) : result date :=
  if bool_decide (valid_ymd y m d) then Ok (mkdate y m d) else Raise ValueError.

(** [a <= b] on two dates. *)
Definition date_le (a b : date) : bool :=
  match lex_compare [d_year a; d_month a; d_day a] [d_year b; d_month b; d_day b] with
  | Gt => false
  | _ => true
  end.

(** [current.strftime('%Y/%m')], with ['%Y'] printed with four digits as
    for the datetimes of the store. *)
Definition date_strftime_Y_m (a : date) : string :=
  zpad 4 (d_year a) +:+ "/" +:+ zpad 2 (d_month a).

(** app.py 75. *)
Definition BASE_PATH : string := "reviews".

(** app.py 160: the default of the start date,
    [today.replace(month=today.month-1 if today.month > 1 else 12)]. *)
Definition default_start_date (today : date) : result date :=
  make_date (d_year today)
            (if decide (1 < d_month today) then d_month today - 1 else 12)
            (d_day today).

(** app.py 189-193: the month after [current]. *)
Definition next_month (current : date) : result date :=
  if decide (d_month current = 12)
  then make_date (d_year current + 1) 1 (d_day current)
  else make_date (d_year current) (d_month current + 1) (d_day current).

(** The months still to visit, which bounds the loop. *)
Definition months_left (current end_date : date) : nat :=
  Z.to_nat ((d_year end_date - d_year current) * 12 + 13 - d_month current).

Definition inspect {A : Type} (a : A) : {b : A | a = b} := exist _ a eq_refl.

Section MonthLoop.

Import Equations.Prop.Equations.
Local Unset Equations With Funext.

(** app.py 184-193. *)
Equations? month_loop (selected_country : string) (end_date current : date)
    (files_to_load : gset string) : result (gset string)
    by wf (months_left current end_date) lt :=
  month_loop selected_country end_date current files_to_load with
      inspect (date_le current end_date) := {
    | exist _ false _ => Ok files_to_load
    | exist _ true _ with inspect (next_month current) => {
      | exist _ (Raise e) _ => Raise e
      | exist _ (Ok next) _ =>
          let ym := date_strftime_Y_m current in
          let path := BASE_PATH +:+ "/" +:+ selected_country +:+ "/" +:+ ym +:+ ".json" in
          month_loop selected_country end_date next ({[path]} ∪ files_to_load) } }.
Proof.
  clear month_loop. unfold months_left.
  destruct current as [cy cm cd], end_date as [ey em ed].
  unfold date_le in *. cbn in *.
  assert (cy <= ey) by (destruct (Z.compare_spec cy ey); [lia|lia|done]).
  unfold next_month, make_date in *. cbn in *.
  destruct (decide (cm = 12)) as [->|Hm];
    destruct (bool_decide _) eqn:Hv; try done;
    apply bool_decide_eq_true_1 in Hv as (? & ? & ?);
    injection e0 as <-; cbn; lia.
Qed.

End MonthLoop.

(** app.py 170-193: the set of files for the choices of the sidebar.
    [selected_version] is [None] when no version is chosen. *)
Definition files_to_load (versions_map : gmap string (gmap string (list string)))
    (selected_country : string) (use_version_filter : bool)
    (selected_version : option string) (start_date end_date : date)
    : result (gset string) :=
  match selected_version with
  | Some v =>
      if use_version_filter && negb (bool_decide (v = ""))
      then
        match versions_map !! v ≫= (.!! selected_country) with
        | Some ym_list =>
            Ok (list_to_set
                  (map (fun ym => BASE_PATH +:+ "/" +:+ selected_country +:+ "/" +:+ ym
                                  +:+ ".json") ym_list))
        | None => Ok ∅
        end
      else
        current ← make_date (d_year start_date) (d_month start_date) 1;
        month_loop selected_country end_date current ∅
  | None =>
      current ← make_date (d_year start_date) (d_month start_date) 1;
      month_loop selected_country end_date current ∅
  end.

(** What [bucket.blob(path)] gives the viewer: no blob, a blob that
    parses, or an exception on the way. *)
Inductive blob :=
  | BlobMissing
  | BlobDoc (d : document)
  | BlobError.

(** What the viewer reads from: the bucket, when a client could be made
    and a bucket name is set, and the files under [data_local]. *)
Record viewer_env := mkViewerEnv {
  bucket : option (string -> blob);
  local_files : store
}.

(** app.py 78-95: the bucket first, the local file otherwise. *)
Definition load_json (env : viewer_env) (path : string) : option document :=
  match bucket env with
  | Some blobs =>
      match blobs path with
      | BlobDoc d => Some d
      | _ => local_files env !! path
      end
  | None => local_files env !! path
  end.

(** app.py 98-104: [{"versions": {}}] when there is no index, or an empty
    document in its place. *)
Definition load_index (env : viewer_env) : document :=
  match load_json env (BASE_PATH +:+ "/index.json") with
  | None | Some (Reviews []) | Some (Index (mkIndex None None)) =>
      Index (mkIndex (Some ∅) None)
  | Some data => data
  end.

(** app.py 129: [index_data.get("versions", {})]; a list has no [get]. *)
Definition versions_map (index_data : document)
    : result (gmap string (gmap string (list string))) :=
  match index_data with
  | Index i => Ok (default ∅ (versions i))
  | Reviews _ => Raise AttributeError
  end.

(** ** The notifier of [.github/scripts/notify_slack.py] *)






(** What lines 65-73 do with the request: an answer with its status, one
    of the two errors the script handles, or another exception, such as
    the [ValueError] of [Request] on a URL without a scheme. *)
Inductive response :=
  | Answered (status : Z)
  | HTTPError (code : Z)
  | URLError
  | OtherError (e : exn).



(** ** Sample feeds, configuration and environment *)

Module FeedSample.

Import Sample.

(** The first entry of a feed, which describes the app and has no rating. *)
Definition app_info : xml_entry :=
  mkEntry None (Some (Some "app")) (Some (Some "2024-05-21T07:00:00-07:00"))
          None (Some "The app") None None.

(** A review, one whose date does not parse, and one without an id. *)
Definition entry_1 : xml_entry :=
  mkEntry (Some (Some "5")) (Some (Some "r1")) (Some (Some "2024-05-21T07:00:00-07:00"))
          (Some (Some "ann")) (Some "Great") (Some "Works well") (Some (Some "1.0")).

Definition entry_2 : xml_entry :=
  mkEntry (Some (Some "3")) (Some (Some "r2")) (Some (Some "yesterday"))
          (Some (Some "bob")) (Some "So so") (Some "Crashes") (Some (Some "1.1")).

Definition entry_without_id : xml_entry :=
  mkEntry (Some (Some "4")) None (Some (Some "2024-05-22T07:00:00-07:00"))
          (Some (Some "eve")) (Some "Fine") (Some "Fine") (Some (Some "1.1")).

(** The clock of a fetch. *)
Definition clock (i : nat) : datetime := utc 2024 5 22 9 0 0.

(** [entry_1] as the Atom fetcher returns it for the country ["jp"]. *)
Definition review_1 : review :=
  mkReview (Some "r1") (DateTime (utc 2024 5 21 14 0 0)) "jp" (Some "1.0") "ios"
           "ann" 5 "Great" "Works well".

(** A JSON feed whose [entry] is one object. *)
Definition single_entry_feed : json :=
  JDict [("feed",
          JDict [("title", JDict [("label", JStr "Customer Reviews")]);
                 ("entry",
                  JDict [("author", JDict [("name", JDict [("label", JStr "ann")])]);
                         ("im:version", JDict [("label", JStr "1.0")]);
                         ("im:rating", JDict [("label", JStr "5")]);
                         ("id", JDict [("label", JStr "r1")])])])].

(** Results of the Play Store scraper, with and without a date. *)
Definition gps_1 : gps_review :=
  mkGps (Some "g1") "bob" (Some (mkdatetime 2024 5 20 10 0 0 0 None)) 4 "ok"
        (Some (Some "2.0")).

Definition gps_2 : gps_review :=
  mkGps (Some "g2") "eve" (Some (mkdatetime 2024 5 19 8 0 0 0 None)) 2 "slow" (Some None).

Definition gps_undated : gps_review := mkGps (Some "g3") "dan" None 3 "hm" None.

(** Three networks: one that answers nothing, one that answers every
    request, and one whose scraper returns a result without a date. *)
Definition offline : network :=
  mkNetwork (fun _ _ => None) (fun _ _ => None) (fun _ _ => clock) (fun _ _ _ _ => None).

Definition online : network :=
  mkNetwork (fun _ _ => Some (JDict [])) (fun _ _ => Some [app_info; entry_1; entry_2])
            (fun _ _ => clock) (fun _ _ _ _ => Some [gps_1; gps_2]).

Definition online_undated : network :=
  mkNetwork (fun _ _ => Some (JDict [])) (fun _ _ => Some [app_info; entry_1])
            (fun _ _ => clock) (fun _ _ _ _ => Some [gps_1; gps_undated]).

Definition apps : list app_entry :=
  [mkApp "Sample" ["jp"; "us"] (Some "123456") (Some "com.example.sample")].

(** The viewer reading the local files the collector wrote in scenario A. *)
Definition viewer : viewer_env := mkViewerEnv None store_A.



End FeedSample.

(** * Proofs *)

(** ** Stable sorting *)

Section StableSortFacts.

Context {A : Type} (gtb : A -> A -> bool).

Local Abbreviation not_below := (not_below gtb).

Lemma insert_desc_perm x l : insert_desc gtb x l ≡ₚ x :: l.
Proof.
  induction l as [|y l IH]; simpl; [done|].
  destruct (gtb y x); [|done].
  rewrite IH. apply Permutation_swap.
Qed.

Lemma stable_sort_desc_perm l : stable_sort_desc gtb l ≡ₚ l.
Proof.
  induction l as [|x l IH]; simpl; [done|].
  by rewrite insert_desc_perm, IH.
Qed.

Lemma insert_desc_hd x y l :
  HdRel not_below y l -> gtb y x = true -> gtb x y = false ->
  HdRel not_below y (insert_desc gtb x l).
Proof.
  intros Hhd Hyx Hxy. destruct l as [|z l]; simpl.
  - by constructor.
  - destruct (gtb z x); constructor; [|done].
    by inversion Hhd.
Qed.

Lemma insert_desc_sorted x l :
  (forall y, y ∈ l -> gtb y x = true -> gtb x y = false) ->
  Sorted not_below l -> Sorted not_below (insert_desc gtb x l).
Proof.
  intros Hasym Hs. induction Hs as [|y l Hs IH Hhd]; simpl.
  - by repeat constructor.
  - destruct (gtb y x) eqn:Hyx.
    + constructor.
      * apply IH. intros z Hz. apply Hasym. by right.
      * apply insert_desc_hd; [done..|]. apply Hasym; [by left|done].
    + repeat constructor; done.
Qed.

(** Neighbours of the sorted list are in order as soon as [gtb] is
    asymmetric on the elements. *)
Lemma stable_sort_desc_sorted l :
  (forall x y, x ∈ l -> y ∈ l -> gtb y x = true -> gtb x y = false) ->
  Sorted not_below (stable_sort_desc gtb l).
Proof.
  induction l as [|x l IH]; intros Hasym; simpl; [constructor|].
  apply insert_desc_sorted.
  - intros y Hy. apply Hasym; [by left|].
    right. by rewrite <- (stable_sort_desc_perm l).
  - apply IH. intros y z Hy Hz. apply Hasym; by right.
Qed.

(** A list already in order is left as it is. *)
Lemma stable_sort_desc_id l :
  Sorted not_below l -> stable_sort_desc gtb l = l.
Proof.
  induction 1 as [|x l Hs IH Hhd]; simpl; [done|].
  rewrite IH. destruct Hhd as [|y l Hxy]; simpl; [done|].
  unfold not_below in Hxy. by rewrite Hxy.
Qed.



(** With a transitive order every element is in order with all that
    follow it, not only with its neighbour. *)
Lemma sorted_strongly l :
  (forall x y z, x ∈ l -> y ∈ l -> z ∈ l ->
     not_below x y -> not_below y z -> not_below x z) ->
  Sorted not_below l -> StronglySorted not_below l.
Proof.
  intros Htr Hs. induction Hs as [|x l Hs IH Hhd]; [constructor|].
  assert (Hl : StronglySorted not_below l).
  { apply IH. intros a b c Ha Hb Hc. apply Htr; by right. }
  constructor; [done|].
  destruct Hhd as [|y l Hxy]; [constructor|].
  constructor; [done|].
  apply StronglySorted_inv in Hl as [_ Hall].
  rewrite Forall_forall in Hall |- *. intros z Hz.
  apply (Htr x y z); [by left|right; by left|right; by right|done|].
  apply Hall. done.
Qed.

End StableSortFacts.

(** ** Strings *)

Lemma append_cons c s t : String c s +:+ t = String c (s +:+ t).
Proof. reflexivity. Qed.

Lemma append_nil s : "" +:+ s = s.
Proof. reflexivity. Qed.

Lemma append_assoc s t u : (s +:+ t) +:+ u = s +:+ t +:+ u.
Proof. induction s as [|c s IH]; [done|]. rewrite !append_cons. by f_equal. Qed.

Lemma length_append s t :
  String.length (s +:+ t) = (String.length s + String.length t)%nat.
Proof. induction s as [|c s IH]; [done|]. rewrite append_cons. simpl. by f_equal. Qed.

(** Two concatenations with right parts of one length are equal piecewise. *)
Lemma append_inj_2 s1 s2 t1 t2 :
  String.length s2 = String.length t2 ->
  s1 +:+ s2 = t1 +:+ t2 -> s1 = t1 /\ s2 = t2.
Proof.
  revert t1. induction s1 as [|c s1 IH]; intros [|d t1] Hlen Heq.
  - done.
  - rewrite append_nil in Heq. subst s2.
    rewrite length_append in Hlen. simpl in Hlen. lia.
  - rewrite append_nil in Heq. subst t2.
    rewrite length_append in Hlen. simpl in Hlen. lia.
  - rewrite !append_cons in Heq. injection Heq as -> Heq.
    destruct (IH t1 Hlen Heq) as [-> ->]. done.
Qed.

Lemma compare_refl s : String.compare s s = Eq.
Proof.
  induction s as [|c s IH]; [done|]. simpl.
  unfold Ascii.compare. by rewrite N.compare_refl.
Qed.

(** Strings of one length in front decide the comparison unless equal. *)
Lemma compare_append a b s t :
  String.length a = String.length b ->
  String.compare (a +:+ s) (b +:+ t) =
  match String.compare a b with
  | Eq => String.compare s t
  | c => c
  end.
Proof.
  revert b. induction a as [|c a IH]; intros [|d b] Hlen; try done.
  rewrite !append_cons. simpl.
  destruct (Ascii.compare c d); [|done..].
  apply IH. simpl in Hlen. lia.
Qed.

Lemma compare_append_same a s t :
  String.compare (a +:+ s) (a +:+ t) = String.compare s t.
Proof. by rewrite compare_append, compare_refl. Qed.

(** *** Zero-padded numbers *)

Lemma length_zpad w n : String.length (zpad w n) = w.
Proof. revert n. induction w as [|w IH]; intros n; simpl; [done|]. by rewrite IH. Qed.

Lemma compare_digit a b :
  0 <= a < 10 -> 0 <= b < 10 -> Ascii.compare (digit a) (digit b) = (a ?= b).
Proof.
  intros Ha Hb. unfold Ascii.compare, digit, ascii_of_nat.
  rewrite !N_ascii_embedding by lia.
  destruct (Z.compare_spec a b);
    [apply N.compare_eq_iff|apply N.compare_lt_iff|apply N.compare_gt_iff]; lia.
Qed.

Lemma zpad_S w n :
  zpad (S w) n = String (digit (n / 10 ^ Z.of_nat w)) (zpad w (n mod 10 ^ Z.of_nat w)).
Proof. reflexivity. Qed.

Lemma compare_zpad w a b :
  0 <= a < 10 ^ Z.of_nat w -> 0 <= b < 10 ^ Z.of_nat w ->
  String.compare (zpad w a) (zpad w b) = (a ?= b).
Proof.
  revert a b. induction w as [|w IH]; intros a b Ha Hb.
  - change (10 ^ Z.of_nat 0) with 1 in Ha, Hb.
    assert (a = 0) as -> by lia. assert (b = 0) as -> by lia. done.
  - rewrite !zpad_S. rewrite Nat2Z.inj_succ, Z.pow_succ_r in Ha, Hb by lia.
    assert (Hp : 0 < 10 ^ Z.of_nat w) by (apply Z.pow_pos_nonneg; lia).
    remember (10 ^ Z.of_nat w) as p eqn:Hp0. clear Hp0.
    pose proof (Z.div_mod a p ltac:(lia)) as Ha'.
    pose proof (Z.div_mod b p ltac:(lia)) as Hb'.
    pose proof (Z.mod_pos_bound a p Hp) as Ha''.
    pose proof (Z.mod_pos_bound b p Hp) as Hb''.
    assert (0 <= a / p < 10) by (split; [apply Z.div_pos; lia|apply Z.div_lt_upper_bound; lia]).
    assert (0 <= b / p < 10) by (split; [apply Z.div_pos; lia|apply Z.div_lt_upper_bound; lia]).
    cbn [String.compare]. rewrite compare_digit by done.
    rewrite IH by done.
    remember (a / p) as qa eqn:E1. remember (b / p) as qb eqn:E2.
    remember (a mod p) as ra eqn:E3. remember (b mod p) as rb eqn:E4.
    clear E1 E2 E3 E4 IH.
    destruct (Z.compare_spec qa qb) as [Heq|Hlt|Hgt].
    + subst qb.
      destruct (Z.compare_spec ra rb); symmetry;
        [apply Z.compare_eq_iff|apply Z.compare_lt_iff|apply Z.compare_gt_iff]; lia.
    + symmetry. apply Z.compare_lt_iff. nia.
    + symmetry. apply Z.compare_gt_iff. nia.
Qed.

Lemma length_strftime_Y_m d : String.length (strftime_Y_m d) = 7%nat.
Proof. unfold strftime_Y_m. by rewrite !length_append, !length_zpad. Qed.

(** *** [str] of a datetime keeps the order *)

Lemma format_offset_head tz :
  format_offset tz = "" \/
  exists c rest, format_offset tz = String c rest /\ Ascii.compare c "." = Lt.
Proof.
  destruct tz as [m|]; [right|by left]. unfold format_offset.
  destruct (m <? 0); rewrite append_cons; eauto.
Qed.

Lemma compare_fraction ua ub off :
  0 <= ua < 1000000 -> 0 <= ub < 1000000 ->
  String.compare
    ((if decide (ua = 0) then "" else "." +:+ zpad 6 ua) +:+ format_offset off)
    ((if decide (ub = 0) then "" else "." +:+ zpad 6 ub) +:+ format_offset off)
  = (ua ?= ub).
Proof.
  intros Ha Hb.
  assert (Hlt : forall u, String.compare (format_offset off)
                   (("." +:+ zpad 6 u) +:+ format_offset off) = Lt).
  { intros u. rewrite append_cons.
    destruct (format_offset_head off) as [->|(c & rest & -> & Hc)]; [done|].
    simpl. by rewrite Hc. }
  destruct (decide (ua = 0)) as [->|Hua], (decide (ub = 0)) as [->|Hub].
  - by rewrite !append_nil, compare_refl.
  - rewrite append_nil, Hlt. symmetry. apply Z.compare_lt_iff. lia.
  - rewrite append_nil, String.compare_antisym, Hlt. simpl.
    symmetry. apply Z.compare_gt_iff. lia.
  - rewrite !append_assoc, compare_append_same.
    rewrite compare_append by (by rewrite !length_zpad).
    rewrite compare_zpad by (change (10 ^ Z.of_nat 6) with 1000000; lia).
    rewrite compare_refl. by destruct (ua ?= ub).
Qed.

Lemma compare_datetime_str a b :
  valid_datetime a -> valid_datetime b -> tzinfo a = tzinfo b ->
  String.compare (datetime_str a) (datetime_str b) = lex_compare (fields a) (fields b).
Proof.
  intros (Hy & Hm & Hd & Hh & Hmi & Hs & Hu) (Hy' & Hm' & Hd' & Hh' & Hmi' & Hs' & Hu') Htz.
  assert (Hdim : forall y m, days_in_month y m <= 31).
  { intros y m. unfold days_in_month. repeat case_match; lia. }
  pose proof (Hdim (year a) (month a)). pose proof (Hdim (year b) (month b)).
  unfold datetime_str, fields. rewrite Htz. cbn [lex_compare].
  repeat (rewrite compare_append by (by rewrite !length_zpad);
          rewrite compare_zpad
            by (first [change (10 ^ Z.of_nat 4) with 10000
                      |change (10 ^ Z.of_nat 2) with 100]; lia);
          rewrite ?compare_append_same).
  rewrite compare_fraction by done.
  by repeat case_match.
Qed.

(** ** The calendar: the ordinal follows the order of (year, month, day) *)

Lemma days_before_year_succ y :
  days_before_year (y + 1) = days_before_year y + 365 + leap_day y.
Proof.
  unfold days_before_year, leap_day, is_leap.
  replace (y + 1 - 1) with y by lia.
  destruct (Z.eqb_spec (y mod 4) 0), (Z.eqb_spec (y mod 100) 0),
    (Z.eqb_spec (y mod 400) 0); simpl;
    Z.to_euclidean_division_equations; lia.
Qed.

Lemma days_before_year_mono y y' :
  y < y' -> days_before_year (y + 1) <= days_before_year y'.
Proof.
  intros Hlt. unfold days_before_year.
  Z.to_euclidean_division_equations; lia.
Qed.

Lemma month_cases m :
  1 <= m <= 12 ->
  m = 1 \/ m = 2 \/ m = 3 \/ m = 4 \/ m = 5 \/ m = 6 \/
  m = 7 \/ m = 8 \/ m = 9 \/ m = 10 \/ m = 11 \/ m = 12.
Proof. lia. Qed.

Lemma days_before_month_next y m :
  1 <= m <= 12 ->
  days_before_month y m + days_in_month y m =
  if decide (m = 12) then 365 + leap_day y else days_before_month y (m + 1).
Proof.
  intros Hm. unfold days_before_month, days_in_month, leap_day.
  destruct (month_cases m Hm) as [->|[->|[->|[->|[->|[->|[->|[->|[->|[->|[->| ->]]]]]]]]]]];
    destruct (is_leap y); reflexivity.
Qed.

Lemma days_before_month_le y m m' :
  1 <= m -> m < m' -> m' <= 12 ->
  days_before_month y m + days_in_month y m <= days_before_month y m'.
Proof.
  intros H1 Hlt H12.
  assert (Hstep : forall k, 1 <= k < 12 -> days_before_month y k <= days_before_month y (k + 1)).
  { intros k Hk. pose proof (days_before_month_next y k ltac:(lia)) as E.
    destruct (decide (k = 12)); [lia|].
    assert (0 <= days_in_month y k); [|lia].
    unfold days_in_month. repeat case_match; lia. }
  rewrite days_before_month_next by lia. destruct (decide (m = 12)) as [|Hne]; [lia|].
  assert (Hgen : forall n : nat, m + 1 + Z.of_nat n <= 12 ->
            days_before_month y (m + 1) <= days_before_month y (m + 1 + Z.of_nat n)).
  { induction n as [|n IH]; intros Hn.
    - replace (m + 1 + Z.of_nat 0) with (m + 1) by lia. lia.
    - etrans; [apply IH; lia|].
      replace (m + 1 + Z.of_nat (S n)) with (m + 1 + Z.of_nat n + 1) by lia.
      apply Hstep. lia. }
  specialize (Hgen (Z.to_nat (m' - (m + 1))) ltac:(lia)).
  replace (m + 1 + Z.of_nat (Z.to_nat (m' - (m + 1)))) with m' in Hgen by lia. done.
Qed.

Lemma days_before_month_year y m :
  1 <= m <= 12 -> days_before_month y m + days_in_month y m <= 365 + leap_day y.
Proof.
  intros Hm. destruct (decide (m = 12)) as [->|Hne].
  - rewrite days_before_month_next by lia. by rewrite decide_True.
  - pose proof (days_before_month_le y m 12 ltac:(lia) ltac:(lia) ltac:(lia)).
    pose proof (days_before_month_next y 12 ltac:(lia)) as E.
    rewrite decide_True in E by done.
    assert (0 <= days_in_month y 12); [|lia].
    unfold days_in_month. repeat case_match; lia.
Qed.

(** The date part of two valid datetimes, in lexicographic order, is the
    order of their ordinals. *)
Lemma compare_ymd2ord a b :
  valid_datetime a -> valid_datetime b ->
  (ymd2ord a ?= ymd2ord b) = lex_compare [year a; month a; day a] [year b; month b; day b].
Proof.
  intros (Hy & Hm & Hd & _) (Hy' & Hm' & Hd' & _).
  unfold ymd2ord. cbn [lex_compare].
  assert (Hlt : forall a b, 1 <= year a -> 1 <= month a <= 12 -> 1 <= month b <= 12 ->
            1 <= day a <= days_in_month (year a) (month a) -> 1 <= day b ->
            year a < year b ->
            days_before_year (year a) + days_before_month (year a) (month a) + day a <
            days_before_year (year b) + days_before_month (year b) (month b) + day b).
  { clear. intros a b Hy Hm Hm' Hd Hd' Hlt.
    pose proof (days_before_month_year (year a) (month a) Hm).
    pose proof (days_before_year_succ (year a)).
    pose proof (days_before_year_mono (year a) (year b) Hlt).
    assert (0 <= days_before_month (year b) (month b)); [|lia].
    unfold days_before_month.
    destruct (month_cases _ Hm') as [->|[->|[->|[->|[->|[->|[->|[->|[->|[->|[->| ->]]]]]]]]]]];
      simpl; repeat case_match; lia. }
  destruct (Z.compare_spec (year a) (year b)) as [Ey|Hl|Hg].
  - rewrite Ey in *.
    destruct (Z.compare_spec (month a) (month b)) as [Em|Hl|Hg].
    + rewrite Em.
      destruct (Z.compare_spec (day a) (day b));
        [apply Z.compare_eq_iff|apply Z.compare_lt_iff|apply Z.compare_gt_iff]; lia.
    + apply Z.compare_lt_iff.
      pose proof (days_before_month_le (year b) (month a) (month b)). lia.
    + apply Z.compare_gt_iff.
      pose proof (days_before_month_le (year b) (month b) (month a)). lia.
  - apply Z.compare_lt_iff. apply Hlt; lia.
  - apply Z.compare_gt_iff. apply Hlt; lia.
Qed.

(** Two valid datetimes of one offset: their fields are ordered as their
    instants. *)
Lemma compare_utc_instant a b off :
  valid_datetime a -> valid_datetime b ->
  (utc_instant a off ?= utc_instant b off) = lex_compare (fields a) (fields b).
Proof.
  intros Ha Hb. pose proof (compare_ymd2ord a b Ha Hb) as Hord.
  destruct Ha as (_ & _ & _ & Hh & Hmi & Hs & Hu).
  destruct Hb as (_ & _ & _ & Hh' & Hmi' & Hs' & Hu').
  unfold utc_instant, fields. cbn [lex_compare] in *.
  remember (ymd2ord a) as oa. remember (ymd2ord b) as ob.
  assert (Hhead :
    match oa ?= ob with
    | Eq => lex_compare [hour a; minute a; second a; microsecond a]
                        [hour b; minute b; second b; microsecond b]
    | c => c
    end =
    match year a ?= year b with
    | Eq => match month a ?= month b with
            | Eq => match day a ?= day b with
                    | Eq => lex_compare [hour a; minute a; second a; microsecond a]
                                        [hour b; minute b; second b; microsecond b]
                    | c => c
                    end
            | c => c
            end
    | c => c
    end).
  { rewrite Hord. by repeat case_match. }
  cbn [lex_compare] in Hhead. rewrite <- Hhead. clear Hhead Hord Heqoa Heqob.
  destruct (Z.compare_spec oa ob) as [->|?|?];
    [|apply Z.compare_lt_iff; lia|apply Z.compare_gt_iff; lia].
  destruct (Z.compare_spec (hour a) (hour b)) as [->|?|?];
    [|apply Z.compare_lt_iff; lia|apply Z.compare_gt_iff; lia].
  destruct (Z.compare_spec (minute a) (minute b)) as [->|?|?];
    [|apply Z.compare_lt_iff; lia|apply Z.compare_gt_iff; lia].
  destruct (Z.compare_spec (second a) (second b)) as [->|?|?];
    [|apply Z.compare_lt_iff; lia|apply Z.compare_gt_iff; lia].
  destruct (Z.compare_spec (microsecond a) (microsecond b)) as [->|?|?];
    [apply Z.compare_eq_iff|apply Z.compare_lt_iff|apply Z.compare_gt_iff]; lia.
Qed.

(** ** The order of dates *)

Lemma lex_compare_antisym a b : lex_compare a b = CompOpp (lex_compare b a).
Proof.
  revert b. induction a as [|x a IH]; intros [|y b]; simpl; try done.
  rewrite (Z.compare_antisym y x). destruct (y ?= x); simpl; auto.
Qed.

Lemma datetime_cmp_instant a b :
  valid_datetime a -> valid_datetime b ->
  class_of (DateTime a) = class_of (DateTime b) ->
  datetime_cmp a b = Ok (instant a ?= instant b).
Proof.
  intros Ha Hb Hc. unfold datetime_cmp, instant.
  destruct (decide (tzinfo a = tzinfo b)) as [E|E].
  - rewrite E. by rewrite compare_utc_instant.
  - simpl in Hc. destruct (tzinfo a), (tzinfo b); simpl; congruence.
Qed.

Lemma date_cmp_antisym a b c :
  date_cmp a b = Ok c -> date_cmp b a = Ok (CompOpp c).
Proof.
  destruct a as [| |s|d], b as [| |t|e]; simpl; try done.
  - intros [= <-]. by rewrite String.compare_antisym.
  - unfold datetime_cmp.
    destruct (decide (tzinfo d = tzinfo e)) as [E|E].
    + intros [= <-]. rewrite decide_True by done. by rewrite lex_compare_antisym.
    + rewrite decide_False by done.
      destruct (tzinfo d), (tzinfo e); try done.
      intros [= <-]. by rewrite Z.compare_antisym.
Qed.

Lemma date_gtb_asym a b : date_gtb a b = true -> date_gtb b a = false.
Proof.
  unfold date_gtb. destruct (date_cmp a b) as [c|] eqn:E; [|done].
  rewrite (date_cmp_antisym _ _ _ E). by destruct c.
Qed.

(** Within one class the order is that of strings or of instants. *)
Lemma date_gtb_str s t : date_gtb (DateStr s) (DateStr t) = negb (String.leb s t).
Proof. unfold date_gtb, String.leb. simpl. by destruct (String.compare s t). Qed.

Lemma date_gtb_instant a b :
  valid_datetime a -> valid_datetime b ->
  class_of (DateTime a) = class_of (DateTime b) ->
  date_gtb (DateTime a) (DateTime b) = bool_decide (instant b < instant a).
Proof.
  intros Ha Hb Hc. unfold date_gtb. simpl. rewrite datetime_cmp_instant by done.
  destruct (Z.compare_spec (instant a) (instant b)); symmetry;
    [apply bool_decide_eq_false|apply bool_decide_eq_false|apply bool_decide_eq_true]; lia.
Qed.

Lemma date_ge_trans k a b c :
  valid_date a -> valid_date b -> valid_date c ->
  class_of a = Some k -> class_of b = Some k -> class_of c = Some k ->
  date_gtb b a = false -> date_gtb c b = false -> date_gtb c a = false.
Proof.
  intros Va Vb Vc Ca Cb Cc.
  destruct a as [| |s|d], b as [| |t|e], c as [| |u|f]; try done;
    try (by simpl in *; repeat case_match; simplify_eq).
  - rewrite !date_gtb_str. intros H1%negb_false_iff H2%negb_false_iff.
    apply negb_false_iff. apply Is_true_true. apply Is_true_true in H1, H2.
    by trans t.
  - rewrite !date_gtb_instant by (done || congruence).
    intros H1%bool_decide_eq_false H2%bool_decide_eq_false.
    apply bool_decide_eq_false. lia.
Qed.


(** ** The merge loop *)

Lemma elem_of_ids_of x l : x ∈ ids_of l <-> exists r, r ∈ l /\ r_id r = x.
Proof.
  unfold ids_of. rewrite elem_of_list_to_set, list_elem_of_fmap. split.
  - intros (r & -> & Hr). eauto.
  - intros (r & Hr & <-). eauto.
Qed.

Lemma merge_loop_fresh ids merged new :
  merge_loop ids merged new = merged ++ fresh_reviews ids new.
Proof.
  revert ids merged. induction new as [|nr new IH]; intros ids merged; simpl.
  - by rewrite app_nil_r.
  - case_decide; [done|]. by rewrite IH, <- app_assoc.
Qed.

Lemma elem_of_fresh_reviews ids new r :
  r ∈ fresh_reviews ids new -> r ∈ new /\ r_id r ∉ ids.
Proof.
  revert ids. induction new as [|nr new IH]; intros ids; simpl; [by intros ?%elem_of_nil|].
  case_decide as Hin.
  - intros [? ?]%IH. split; [by right|done].
  - intros [->|[? Hn]%IH]%elem_of_cons; [split; [by left|done]|].
    split; [by right|]. intros ?. apply Hn, elem_of_union. by right.
Qed.

Lemma fresh_reviews_seen ids new :
  (forall r, r ∈ new -> r_id r ∈ ids) -> fresh_reviews ids new = [].
Proof.
  revert ids. induction new as [|nr new IH]; intros ids Hall; simpl; [done|].
  rewrite decide_True by (apply Hall; by left).
  apply IH. intros r Hr. apply Hall. by right.
Qed.

(** After the loop every incoming id is in the merged list. *)
Lemma fresh_reviews_covers ids new r :
  r ∈ new -> r_id r ∈ ids ∪ ids_of (fresh_reviews ids new).
Proof.
  revert ids. induction new as [|nr new IH]; intros ids; simpl; [by intros ?%elem_of_nil|].
  intros [->|Hr]%elem_of_cons.
  - case_decide; [apply elem_of_union; by left|].
    apply elem_of_union. right. apply elem_of_ids_of. exists nr. split; [by left|done].
  - case_decide; [by apply IH|].
    specialize (IH ({[r_id nr]} ∪ ids) Hr).
    apply elem_of_union in IH as [[Hnr|?]%elem_of_union|(x & Hx & Hid)%elem_of_ids_of].
    + apply elem_of_singleton in Hnr. apply elem_of_union. right.
      apply elem_of_ids_of. exists nr. split; [by left|done].
    + apply elem_of_union. by left.
    + apply elem_of_union. right. apply elem_of_ids_of. exists x. split; [by right|done].
Qed.


(** ** Sorting the merged list *)

Lemma sort_by_date_desc_Ok l l' :
  sort_by_date_desc l = Ok l' ->
  l' = sort_desc l /\ comparable_keys l = true /\
  Forall (fun x => r_date x ≠ DateMissing) l.
Proof.
  unfold sort_by_date_desc.
  destruct (existsb _ l) eqn:Hex; [done|].
  destruct (comparable_keys l) eqn:Hc; [|done].
  intros [= <-]. split_and!; [done..|].
  apply Forall_forall. intros x Hx Hm.
  assert (existsb (fun x => bool_decide (r_date x = DateMissing)) l = true); [|congruence].
  apply existsb_exists. exists x. split; [by apply list_elem_of_In|].
  by apply bool_decide_eq_true.
Qed.

Lemma sort_desc_perm l : sort_desc l ≡ₚ l.
Proof. apply stable_sort_desc_perm. Qed.

(** Keys that can be sorted: at most one, or all of one class. *)
Lemma comparable_keys_spec l :
  comparable_keys l = true <->
  (length l <= 1)%nat \/ exists c, Forall (fun y => class_of (r_date y) = Some c) l.
Proof.
  destruct l as [|x [|y l]]; simpl.
  - split; [left; lia|done].
  - split; [left; lia|done].
  - split.
    + destruct (class_of (r_date x)) as [c|] eqn:Hx; [|done].
      intros [Hy Hall]%andb_prop. right. exists c.
      apply bool_decide_eq_true in Hy.
      repeat constructor; [done..|].
      apply Forall_forall. intros z Hz.
      rewrite forallb_forall in Hall. eapply bool_decide_eq_true_1, Hall.
      by apply list_elem_of_In.
    + intros [?|[c Hall]]; [lia|].
      apply Forall_cons in Hall as [-> Hall]. apply Forall_cons in Hall as [-> Hall].
      rewrite bool_decide_eq_true_2 by done. simpl.
      apply forallb_forall. intros z Hz. apply bool_decide_eq_true_2.
      rewrite Forall_forall in Hall. by apply Hall, list_elem_of_In.
Qed.

Lemma comparable_keys_perm l l' :
  l ≡ₚ l' -> comparable_keys l = true -> comparable_keys l' = true.
Proof.
  intros Hp. rewrite !comparable_keys_spec. intros [?|[c Hall]].
  - left. by rewrite <- Hp.
  - right. exists c. by rewrite <- Hp.
Qed.

Lemma sort_desc_sorted l : Sorted date_ge (sort_desc l).
Proof. apply stable_sort_desc_sorted. intros x y _ _. apply date_gtb_asym. Qed.

Lemma sorted_date_ge_strongly l :
  Forall valid_review l -> comparable_keys l = true ->
  Sorted date_ge l -> StronglySorted date_ge l.
Proof.
  intros Hv [Hlen|[c Hc]]%comparable_keys_spec Hs.
  - destruct l as [|x [|y l]]; simpl in Hlen; try lia; repeat constructor.
  - apply (sorted_strongly (fun y x => date_gtb (r_date y) (r_date x))); [|done].
    rewrite Forall_forall in Hv, Hc.
    intros x y z Hx Hy Hz. unfold not_below.
    apply (date_ge_trans c); auto; by apply Hv.
Qed.

Lemma sort_desc_id l : Sorted date_ge l -> sort_desc l = l.
Proof. apply stable_sort_desc_id. Qed.


Lemma sort_by_date_desc_sorted l :
  Sorted date_ge l -> comparable_keys l = true ->
  Forall (fun x => r_date x ≠ DateMissing) l ->
  sort_by_date_desc l = Ok l.
Proof.
  intros Hs Hc Hm. unfold sort_by_date_desc.
  assert (existsb (fun x => bool_decide (r_date x = DateMissing)) l = false) as ->.
  { apply not_true_is_false. intros (x & Hx & Hd%bool_decide_eq_true)%existsb_exists.
    rewrite Forall_forall in Hm. apply (Hm x); [by apply list_elem_of_In|done]. }
  by rewrite Hc, sort_desc_id.
Qed.

(** ** Paths *)

Lemma partition_path_inj base c ym c' ym' :
  String.length ym = 7%nat -> String.length ym' = 7%nat ->
  partition_path base c ym = partition_path base c' ym' -> c = c' /\ ym = ym'.
Proof.
  intros Hl Hl'. unfold partition_path. intros H.
  apply (inj (String.app base)), (inj (String.app "/")) in H.
  apply append_inj_2 in H as [-> H].
  - split; [done|]. apply (inj (String.app "/")) in H.
    apply append_inj_2 in H as [-> _]; done.
  - rewrite !length_append, Hl, Hl'. done.
Qed.

Lemma partition_path_not_index base c ym :
  String.length ym = 7%nat -> partition_path base c ym ≠ index_path base.
Proof.
  intros Hl. unfold partition_path, index_path. intros H.
  apply (inj (String.app base)), (inj (String.app "/")) in H.
  apply (f_equal String.length) in H.
  rewrite !length_append, Hl in H. simpl in H. lia.
Qed.

(** ** Grouping *)

Section Grouping.

Variable fromisoformat : string -> option datetime.

Local Abbreviation date_of_review := (date_of_review fromisoformat).
Local Abbreviation group_loop := (group_loop fromisoformat).
Local Abbreviation key_of := (key_of fromisoformat).
Local Abbreviation has_key := (has_key fromisoformat).

Lemma key_of_length r c ym : key_of r = Some (c, ym) -> String.length ym = 7%nat.
Proof.
  unfold key_of. destruct (date_of_review r); [|done].
  intros [= _ <-]. apply length_strftime_Y_m.
Qed.

Lemma grouped_append_keys key r g :
  map fst (grouped_append key r g) =
  if decide (key ∈ map fst g) then map fst g else map fst g ++ [key].
Proof.
  induction g as [|[k l] g IH].
  - cbn [grouped_append map fst]. case_decide as H; [by apply elem_of_nil in H|done].
  - cbn [grouped_append map fst].
    destruct (decide (k = key)) as [->|Hne]; cbn [map fst].
    + rewrite decide_True; [done|]. by left.
    + rewrite IH. destruct (decide (key ∈ map fst g)) as [Hin|Hnin].
      * rewrite decide_True; [done|]. by right.
      * rewrite decide_False; [done|]. by intros [?|?]%elem_of_cons.
Qed.

Lemma grouped_append_NoDup key r g :
  NoDup (map fst g) -> NoDup (map fst (grouped_append key r g)).
Proof.
  intros Hnd. rewrite grouped_append_keys. case_decide; [done|].
  apply NoDup_app. split_and!; [done| |apply NoDup_singleton].
  intros x Hx Hx'. apply list_elem_of_singleton in Hx'. by subst.
Qed.

Lemma elem_of_keys (g : list (group_key * list review)) k l :
  (k, l) ∈ g -> k ∈ map fst g.
Proof. intros H. apply list_elem_of_fmap. by exists (k, l). Qed.

(** Where an entry of the extended dict comes from. *)
Lemma elem_of_grouped_append key r g k l :
  NoDup (map fst g) -> (k, l) ∈ grouped_append key r g ->
  (k ≠ key /\ (k, l) ∈ g) \/
  (k = key /\ ((exists l0, (k, l0) ∈ g /\ l = l0 ++ [r]) \/
               ((key ∉ map fst g) /\ l = [r]))).
Proof.
  induction g as [|[k' l'] g IH]; cbn [grouped_append map fst]; intros Hnd.
  - intros [= -> ->]%list_elem_of_singleton. right. split; [done|]. right.
    split; [apply not_elem_of_nil|done].
  - apply NoDup_cons in Hnd as [Hk' Hnd].
    destruct (decide (k' = key)) as [->|Hne].
    + intros [[= -> ->]|Hin]%elem_of_cons.
      * right. split; [done|]. left. exists l'. split; [by left|done].
      * left. split; [|by right]. intros ->. by apply Hk', (elem_of_keys _ _ l).
    + intros [[= -> ->]|Hin]%elem_of_cons.
      * left. split; [done|by left].
      * destruct (IH Hnd Hin) as [[? ?]|[-> [(l0 & ? & ->)|[? ->]]]].
        -- left. split; [done|by right].
        -- right. split; [done|]. left. exists l0. split; [by right|done].
        -- right. split; [done|]. right. split; [|done].
           by intros [?|?]%elem_of_cons.
Qed.

(** What [group_loop] returns: under each key the reviews of that key, in
    input order, after those the dict held before. *)
Lemma group_loop_spec g0 reviews g :
  NoDup (map fst g0) -> group_loop g0 reviews = Ok g ->
  NoDup (map fst g) /\
  (forall r, r ∈ reviews -> is_Some (key_of r)) /\
  (forall k l, (k, l) ∈ g ->
     exists l0, ((k, l0) ∈ g0 \/ (l0 = [] /\ k ∉ map fst g0)) /\
                l = l0 ++ List.filter (has_key k) reviews) /\
  (forall k, k ∈ map fst g ->
     k ∈ map fst g0 \/ exists r, r ∈ reviews /\ key_of r = Some k).
Proof.
  revert g0. induction reviews as [|r reviews IH]; intros g0 Hnd; cbn [group_loop].
  - intros [= <-]. split_and!; [done| | |by left].
    + by intros r ?%elem_of_nil.
    + intros k l Hin. exists l. rewrite app_nil_r. auto.
  - destruct (date_of_review r) as [dt|e] eqn:Hdt; [|done]. cbn.
    set (key := (r_country r, strftime_Y_m dt)).
    assert (Hkey : key_of r = Some key) by (unfold key_of; by rewrite Hdt).
    intros Hg. apply IH in Hg as (Hnd' & Hsome & Hgroups & Hkeys);
      [|by apply grouped_append_NoDup].
    split_and!; [done| | |].
    + intros x [->|Hx]%elem_of_cons; [by rewrite Hkey|auto].
    + intros k l Hin. destruct (Hgroups k l Hin) as (l1 & Hl1 & ->).
      cbn [List.filter]. unfold has_key at 2. rewrite Hkey.
      destruct Hl1 as [Hl1|[-> Hl1]].
      * apply elem_of_grouped_append in Hl1; [|done].
        destruct Hl1 as [[Hne ?]|[-> [(l0 & ? & ->)|[? ->]]]].
        -- exists l1. rewrite bool_decide_eq_false_2 by congruence. auto.
        -- exists l0. rewrite bool_decide_eq_true_2 by done.
           rewrite <- app_assoc. auto.
        -- exists []. rewrite bool_decide_eq_true_2 by done. auto.
      * exists []. rewrite grouped_append_keys in Hl1.
        rewrite bool_decide_eq_false_2.
        -- split; [right|done]. split; [done|].
           case_decide; [done|]. intros ?. apply Hl1, elem_of_app. by left.
        -- intros [= <-]. apply Hl1. case_decide; [done|].
           apply elem_of_app. right. by left.
    + intros k Hk. destruct (Hkeys k Hk) as [Hin|(x & Hx & Hkx)].
      * rewrite grouped_append_keys in Hin. case_decide; [by left|].
        apply elem_of_app in Hin as [?|Hin]; [by left|].
        apply list_elem_of_singleton in Hin as ->.
        right. exists r. split; [by left|done].
      * right. exists x. split; [by right|done].
Qed.

(** The keys of the dict: those it had, and those of the reviews. *)
Lemma group_loop_keys g0 reviews g k :
  group_loop g0 reviews = Ok g ->
  k ∈ map fst g0 \/ (exists r, r ∈ reviews /\ key_of r = Some k) -> k ∈ map fst g.
Proof.
  revert g0. induction reviews as [|x reviews IH]; intros g0; cbn [group_loop].
  - intros [= <-] [?|(r & ?%elem_of_nil & _)]; done.
  - destruct (date_of_review x) as [dt|e] eqn:Hdt; [|done]. cbn.
    intros Hg Hk. apply (IH _ Hg). rewrite grouped_append_keys.
    destruct Hk as [Hk|(r & [->|Hr]%elem_of_cons & Hkr)].
    + left. case_decide; [done|]. apply elem_of_app. by left.
    + left. unfold key_of in Hkr. rewrite Hdt in Hkr. injection Hkr as <-.
      case_decide; [done|]. apply elem_of_app. right. by left.
    + right. eauto.
Qed.

(** Every review of a batch that groups is listed under its key. *)
Lemma group_loop_elem reviews g r :
  group_loop [] reviews = Ok g -> r ∈ reviews ->
  exists k, key_of r = Some k /\
    (k, List.filter (has_key k) reviews) ∈ g /\ r ∈ List.filter (has_key k) reviews.
Proof.
  intros Hg Hr.
  destruct (group_loop_spec [] reviews g (NoDup_nil_2) Hg) as (_ & Hsome & Hgroups & _).
  destruct (Hsome r Hr) as [k Hk]. exists k. split; [done|].
  assert (Hin : k ∈ map fst g) by (eapply group_loop_keys; eauto).
  apply list_elem_of_fmap in Hin as ([k' l] & -> & Hin).
  destruct (Hgroups _ _ Hin) as (l0 & [?%elem_of_nil|[-> _]] & ->); [done|].
  split; [done|].
  apply list_elem_of_In, filter_In. split; [by apply list_elem_of_In|].
  by apply bool_decide_eq_true.
Qed.

End Grouping.

(** ** Writing the groups *)

Lemma save_group_merged self base key news :
  save_group self base key news =
  (merged ← merged_group self base (key, news);
   Ok (_write_json self (group_path base (key, news)) (Reviews merged),
       info_of base (key, news) merged)).
Proof.
  destruct key as [c ym]. unfold save_group, merged_group, group_path. cbn.
  destruct (read_existing self _) as [ex|]; [|done]. cbn.
  by destruct (merge_reviews ex news).
Qed.

Lemma read_existing_write_ne self p d q :
  p ≠ q -> read_existing (_write_json self p d) q = read_existing self q.
Proof.
  intros Hne. unfold read_existing, _read_json, _write_json.
  by rewrite lookup_insert_ne.
Qed.

Lemma merged_group_write_ne self base p d g :
  p ≠ group_path base g ->
  merged_group (_write_json self p d) base g = merged_group self base g.
Proof. intros Hne. unfold merged_group. by rewrite read_existing_write_ne. Qed.

Lemma plan_write_ne self base p d grouped :
  p ∉ map (group_path base) grouped ->
  plan (_write_json self p d) base grouped = plan self base grouped.
Proof.
  induction grouped as [|g rest IH]; intros Hp; cbn [plan]; [done|].
  rewrite merged_group_write_ne by (intros ->; apply Hp; by left).
  rewrite IH; [done|]. intros ?. apply Hp. by right.
Qed.

Lemma write_all_cons self info infos :
  write_all self (info :: infos) =
  write_all (_write_json self (info_path info) (Reviews (info_reviews info))) infos.
Proof. reflexivity. Qed.

(** With distinct paths, the loop does what the plan says. *)
Lemma save_groups_plan self base grouped affected :
  NoDup (map (group_path base) grouped) ->
  save_groups self base grouped affected =
  (write_all self (plan self base grouped).1,
   match (plan self base grouped).2 with
   | None => Ok (affected ++ (plan self base grouped).1)
   | Some e => Raise e
   end).
Proof.
  revert self affected. induction grouped as [|g rest IH]; intros self affected Hnd.
  - cbn. by rewrite app_nil_r.
  - apply NoDup_cons in Hnd as [Hg Hnd].
    cbn [save_groups plan]. destruct g as [key news].
    rewrite save_group_merged.
    destruct (merged_group self base (key, news)) as [merged|e]; [|done]. cbn.
    rewrite IH by done. rewrite plan_write_ne by done.
    destruct (plan self base rest) as [infos stop]. cbn.
    destruct stop; [done|]. by rewrite <- app_assoc.
Qed.

(** The entries of a plan are those of a prefix of the groups. *)
Lemma plan_prefix self base grouped :
  exists done rest,
    grouped = done ++ rest /\
    Forall2 (fun g info => exists merged,
               merged_group self base g = Ok merged /\ info = info_of base g merged)
            done (plan self base grouped).1 /\
    match (plan self base grouped).2 with
    | None => rest = []
    | Some e => exists g rest', rest = g :: rest' /\ merged_group self base g = Raise e
    end.
Proof.
  induction grouped as [|g grouped IH]; cbn [plan].
  - exists [], []. split_and!; [done|constructor|done].
  - destruct (merged_group self base g) as [merged|e] eqn:Hm.
    + destruct IH as (done & rest & -> & Hall & Hstop).
      destruct (plan self base (done ++ rest)) as [infos stop]. cbn in *.
      exists (g :: done), rest. split_and!; [done| |done].
      constructor; [eauto|done].
    + exists [], (g :: grouped). split_and!; [done|constructor|]. cbn. eauto.
Qed.

Lemma plan_paths self base grouped :
  exists n, map info_path (plan self base grouped).1 = take n (map (group_path base) grouped).
Proof.
  induction grouped as [|g grouped IH]; cbn [plan].
  - by exists 0%nat.
  - destruct (merged_group self base g) as [merged|e].
    + destruct IH as [n Hn]. destruct (plan self base grouped) as [infos stop].
      exists (S n). cbn. by rewrite <- Hn.
    + by exists 0%nat.
Qed.

Lemma write_all_lookup_ne self infos p :
  p ∉ map info_path infos -> write_all self infos !! p = self !! p.
Proof.
  revert self. induction infos as [|info infos IH]; intros self Hp; [done|].
  rewrite write_all_cons, IH by (intros ?; apply Hp; by right).
  unfold _write_json. rewrite lookup_insert_ne; [done|].
  intros <-. apply Hp. by left.
Qed.

Lemma write_all_lookup self infos info :
  NoDup (map info_path infos) -> info ∈ infos ->
  write_all self infos !! info_path info =
  Some (Reviews (map json_review (info_reviews info))).
Proof.
  revert self. induction infos as [|i infos IH]; intros self Hnd Hin;
    [by apply elem_of_nil in Hin|].
  cbn [map] in Hnd. apply NoDup_cons in Hnd as [Hi Hnd].
  rewrite write_all_cons.
  destruct (decide (info_path info ∈ map info_path infos)) as [Hp|Hp].
  - apply elem_of_cons in Hin as [->|Hin]; [done|]. by apply IH.
  - rewrite write_all_lookup_ne by done.
    apply elem_of_cons in Hin as [->|Hin].
    + unfold _write_json. by rewrite lookup_insert_eq.
    + exfalso. apply Hp. apply list_elem_of_fmap. eauto.
Qed.

(** ** The index *)

Lemma insert_str_perm x l : insert_str x l ≡ₚ x :: l.
Proof.
  induction l as [|y l IH]; cbn [insert_str]; [done|].
  destruct (String.ltb x y); [done|]. rewrite IH. apply Permutation_swap.
Qed.

Lemma sort_strs_perm l : sort_strs l ≡ₚ l.
Proof.
  induction l as [|x l IH]; cbn; [done|].
  by rewrite insert_str_perm, IH.
Qed.

Lemma add_ym_has vs v c ym : triple_in (add_ym vs v c ym) v c ym.
Proof.
  unfold triple_in, add_ym. eexists _, _.
  rewrite lookup_insert_eq. split; [done|]. rewrite lookup_insert_eq. split; [done|].
  case_decide; [done|]. rewrite sort_strs_perm. apply elem_of_app. right. by left.
Qed.

Lemma add_ym_mono vs v c ym v' c' ym' :
  triple_in vs v' c' ym' -> triple_in (add_ym vs v c ym) v' c' ym'.
Proof.
  intros (bc & yms & Hv & Hc & Hin). unfold triple_in, add_ym.
  destruct (decide (v = v')) as [->|Hv'].
  - rewrite Hv. cbn. rewrite lookup_insert_eq.
    destruct (decide (c = c')) as [->|Hc'].
    + rewrite Hc. cbn. eexists _, _. split; [done|].
      rewrite lookup_insert_eq. split; [done|].
      case_decide; [done|]. rewrite sort_strs_perm. apply elem_of_app. by left.
    + eexists _, _. split; [done|]. rewrite lookup_insert_ne by done. eauto.
  - rewrite lookup_insert_ne by done. eauto.
Qed.

Lemma add_ym_inv vs v c ym v' c' ym' :
  triple_in (add_ym vs v c ym) v' c' ym' ->
  triple_in vs v' c' ym' \/ (v' = v /\ c' = c /\ ym' = ym).
Proof.
  unfold triple_in, add_ym. intros (bc & yms & Hv & Hc & Hin).
  destruct (decide (v = v')) as [->|Hv'].
  - rewrite lookup_insert_eq in Hv. injection Hv as <-.
    destruct (decide (c = c')) as [->|Hc'].
    + rewrite lookup_insert_eq in Hc. injection Hc as <-.
      destruct (vs !! v') as [bc|] eqn:Ev; cbn in *.
      * destruct (bc !! c') as [yms|] eqn:Ec; cbn in *.
        -- case_decide; [left; eauto 10|].
           rewrite sort_strs_perm in Hin.
           apply elem_of_app in Hin as [?|Hin]; [left; eauto 10|right].
           apply list_elem_of_singleton in Hin. auto.
        -- rewrite decide_False in Hin by apply not_elem_of_nil.
           apply list_elem_of_singleton in Hin. auto.
      * rewrite lookup_empty in Hin. cbn in Hin.
        rewrite decide_False in Hin by apply not_elem_of_nil.
        apply list_elem_of_singleton in Hin. auto.
    + rewrite lookup_insert_ne in Hc by done.
      destruct (vs !! v') as [bc|] eqn:Ev; cbn in *; [left; eauto 10|].
      by rewrite lookup_empty in Hc.
  - rewrite lookup_insert_ne in Hv by done. left. eauto 10.
Qed.

(** Adding a year-month that is listed changes nothing (line 142). *)
Lemma add_ym_id vs v c ym : triple_in vs v c ym -> add_ym vs v c ym = vs.
Proof.
  intros (bc & yms & Hv & Hc & Hin). unfold add_ym.
  rewrite Hv. cbn. rewrite Hc. cbn. rewrite decide_True by done.
  rewrite (insert_id bc) by done. by rewrite insert_id.
Qed.

Lemma elem_of_versions_in_file v reviews :
  v ∈ versions_in_file reviews <-> exists r, r ∈ reviews /\ version_of r = v.
Proof.
  unfold versions_in_file. rewrite elem_of_remove_dups, list_elem_of_fmap. split.
  - intros (r & -> & Hr). eauto.
  - intros (r & Hr & <-). eauto.
Qed.

Section IndexFile.

Context (c ym : string).

Local Abbreviation step :=
  (fun (acc : gmap string (gmap string (list string))) (v : string) =>
     add_ym acc v c ym).

Lemma foldl_add_ym_mono vs l v' c' ym' :
  triple_in vs v' c' ym' -> triple_in (foldl step vs l) v' c' ym'.
Proof.
  revert vs. induction l as [|v l IH]; intros vs H; cbn; [done|].
  apply IH. by apply add_ym_mono.
Qed.

Lemma foldl_add_ym_has vs l v : v ∈ l -> triple_in (foldl step vs l) v c ym.
Proof.
  revert vs. induction l as [|x l IH]; intros vs; cbn; [by intros ?%elem_of_nil|].
  intros [->|Hin]%elem_of_cons; [|by apply IH].
  apply foldl_add_ym_mono, add_ym_has.
Qed.

Lemma foldl_add_ym_inv vs l v' c' ym' :
  triple_in (foldl step vs l) v' c' ym' ->
  triple_in vs v' c' ym' \/ (v' ∈ l /\ c' = c /\ ym' = ym).
Proof.
  revert vs. induction l as [|x l IH]; intros vs; cbn; [by left|].
  intros [H|(? & ? & ?)]%IH.
  - apply add_ym_inv in H as [?|(-> & ? & ?)]; [by left|right].
    split; [by left|done].
  - right. split; [by right|done].
Qed.

Lemma foldl_add_ym_id vs l :
  (forall v, v ∈ l -> triple_in vs v c ym) -> foldl step vs l = vs.
Proof.
  induction l as [|x l IH]; intros Hall; cbn; [done|].
  rewrite add_ym_id by (apply Hall; by left).
  apply IH. intros v Hv. apply Hall. by right.
Qed.

(** Each version updates its own key: the order in which the versions
    of a file are visited does not show in the index. *)
Lemma add_ym_comm vs v v' :
  add_ym (add_ym vs v c ym) v' c ym = add_ym (add_ym vs v' c ym) v c ym.
Proof.
  destruct (decide (v = v')) as [->|Hne]; [done|].
  unfold add_ym. rewrite !lookup_insert_ne by done.
  by rewrite insert_insert_ne.
Qed.

Lemma foldl_add_ym_perm vs l l' : l ≡ₚ l' -> foldl step vs l = foldl step vs l'.
Proof.
  intros Hp. revert vs. induction Hp as [|x l l' _ IH|x y l|l1 l2 l3 _ IH1 _ IH2];
    intros vs; cbn.
  - done.
  - apply IH.
  - by rewrite add_ym_comm.
  - by rewrite IH1.
Qed.

End IndexFile.

Lemma index_file_mono vs info v c ym :
  triple_in vs v c ym -> triple_in (index_file vs info) v c ym.
Proof. apply foldl_add_ym_mono. Qed.

Lemma index_file_has vs info r :
  r ∈ info_reviews info ->
  triple_in (index_file vs info) (version_of r) (info_country info) (info_ym info).
Proof.
  intros Hr. apply foldl_add_ym_has, elem_of_versions_in_file. eauto.
Qed.

Lemma index_file_inv vs info v c ym :
  triple_in (index_file vs info) v c ym ->
  triple_in vs v c ym \/
  (c = info_country info /\ ym = info_ym info /\
   exists r, r ∈ info_reviews info /\ version_of r = v).
Proof.
  intros [?|(Hv & ? & ?)]%foldl_add_ym_inv; [by left|right].
  by apply elem_of_versions_in_file in Hv.
Qed.

Lemma index_file_id vs info :
  (forall r, r ∈ info_reviews info ->
     triple_in vs (version_of r) (info_country info) (info_ym info)) ->
  index_file vs info = vs.
Proof.
  intros Hall. apply foldl_add_ym_id.
  intros v (r & Hr & <-)%elem_of_versions_in_file. auto.
Qed.

Lemma index_files_mono vs infos v c ym :
  triple_in vs v c ym -> triple_in (index_files vs infos) v c ym.
Proof.
  revert vs. induction infos as [|i infos IH]; intros vs H; cbn; [done|].
  apply IH. by apply index_file_mono.
Qed.

Lemma index_files_has vs infos info r :
  info ∈ infos -> r ∈ info_reviews info ->
  triple_in (index_files vs infos) (version_of r) (info_country info) (info_ym info).
Proof.
  revert vs. induction infos as [|i infos IH]; intros vs; cbn; [by intros ?%elem_of_nil|].
  intros [->|Hin]%elem_of_cons Hr; [|by apply IH].
  by apply index_files_mono, index_file_has.
Qed.

Lemma index_files_inv vs infos v c ym :
  triple_in (index_files vs infos) v c ym ->
  triple_in vs v c ym \/
  exists info r, info ∈ infos /\ r ∈ info_reviews info /\
    c = info_country info /\ ym = info_ym info /\ version_of r = v.
Proof.
  revert vs. induction infos as [|i infos IH]; intros vs; cbn; [by left|].
  intros [H|(info & r & ? & ?)]%IH.
  - apply index_file_inv in H as [?|(? & ? & r & ? & ?)]; [by left|right].
    exists i, r. split; [by left|done].
  - right. exists info, r. split; [by right|done].
Qed.

Lemma index_files_id vs infos :
  (forall info r, info ∈ infos -> r ∈ info_reviews info ->
     triple_in vs (version_of r) (info_country info) (info_ym info)) ->
  index_files vs infos = vs.
Proof.
  induction infos as [|i infos IH]; intros Hall; cbn; [done|].
  rewrite index_file_id by (intros r Hr; apply Hall; [by left|done]).
  apply IH. intros info r Hin. apply Hall. by right.
Qed.

(** ** Reading and writing the index *)

Lemma read_index_versions self base vs :
  read_index self base = Ok vs -> vs = index_versions self base.
Proof.
  unfold read_index, index_versions, _read_json.
  destruct (self !! index_path base) as [[[|x l]|i]|]; by intros [= <-].
Qed.

Lemma index_has_read self base v c ym :
  index_has self base v c ym -> read_index self base = Ok (index_versions self base).
Proof.
  unfold index_has, read_index, index_versions, _read_json.
  destruct (self !! index_path base) as [[l|i]|]; [|done|].
  - intros (bc & yms & H & _). by rewrite lookup_empty in H.
  - intros (bc & yms & H & _). by rewrite lookup_empty in H.
Qed.

Lemma update_index_Ok self infos base now vs :
  read_index self base = Ok vs ->
  update_index self infos base now =
  (<[index_path base := Index (mkIndex (Some (index_files vs infos)) (Some now))]> self,
   Ok tt).
Proof. intros H. unfold update_index. by rewrite H. Qed.

Lemma index_versions_insert self base vs now :
  index_versions (<[index_path base := Index (mkIndex (Some vs) (Some now))]> self) base = vs.
Proof. unfold index_versions. by rewrite lookup_insert_eq. Qed.

(** ** C9: the index only grows *)

(** C9.  The index update never removes a mapping: a triple
    (version, country, year-month) the index holds before [update_index]
    is held after it, whatever the files handed to the update contain. *)
Theorem update_index_keeps_mappings self infos base now v c ym :
  index_has self base v c ym ->
  (update_index self infos base now).2 = Ok tt /\
  index_has (update_index self infos base now).1 base v c ym.
Proof.
  intros H. rewrite (update_index_Ok _ _ _ _ _ (index_has_read _ _ _ _ _ H)). cbn.
  split; [done|]. unfold index_has. rewrite index_versions_insert.
  by apply index_files_mono.
Qed.

(** ** C10: the empty batch, and the stamp of every run *)

Section EmptyBatch.

Variable fromisoformat : string -> option datetime.

Local Abbreviation save_reviews := (save_reviews fromisoformat).



End EmptyBatch.

(** ** C2: an existing record wins over a fetched duplicate *)

Lemma merge_reviews_Ok existing new merged :
  merge_reviews existing new = Ok merged ->
  merged = sort_desc (existing ++ fresh_reviews (ids_of existing) new) /\
  comparable_keys (existing ++ fresh_reviews (ids_of existing) new) = true /\
  Forall (fun x => r_date x ≠ DateMissing) (existing ++ fresh_reviews (ids_of existing) new).
Proof.
  unfold merge_reviews. rewrite merge_loop_fresh. apply sort_by_date_desc_Ok.
Qed.

Lemma merge_reviews_perm existing new merged :
  merge_reviews existing new = Ok merged ->
  merged ≡ₚ existing ++ fresh_reviews (ids_of existing) new.
Proof. intros (-> & _)%merge_reviews_Ok. apply sort_desc_perm. Qed.

Lemma NoDup_ids_eq (l : list review) x y :
  NoDup (map r_id l) -> x ∈ l -> y ∈ l -> r_id x = r_id y -> x = y.
Proof.
  induction l as [|z l IH]; cbn [map]; [by intros _ ?%elem_of_nil|].
  intros [Hz Hnd]%NoDup_cons [->|Hx]%elem_of_cons [->|Hy]%elem_of_cons Hid; auto.
  - exfalso. apply Hz. rewrite Hid. apply list_elem_of_fmap. eauto.
  - exfalso. apply Hz. rewrite <- Hid. apply list_elem_of_fmap. eauto.
Qed.

(** C2.  When the partition holds a record [e] and the batch brings a
    record [n] of the same id with other field values, the merge result
    holds [e] itself, with every field as it was, and every record of that
    id in the result is one the partition already held: nothing of [n] is
    taken over.  With ids unique in the partition, [e] is the only record
    of its id in the result and [n] is not in it. *)
Theorem merge_reviews_existing_wins existing new merged e n :
  merge_reviews existing new = Ok merged ->
  e ∈ existing -> n ∈ new -> r_id n = r_id e -> n ≠ e ->
  e ∈ merged /\
  (forall r, r ∈ merged -> r_id r = r_id e -> r ∈ existing) /\
  (NoDup (map r_id existing) ->
   (forall r, r ∈ merged -> r_id r = r_id e -> r = e) /\ n ∉ merged).
Proof.
  intros Hm He Hn Hid Hne. apply merge_reviews_perm in Hm.
  assert (Hold : forall r, r ∈ merged -> r_id r = r_id e -> r ∈ existing).
  { intros r Hr Hre. rewrite Hm in Hr.
    apply elem_of_app in Hr as [?|[_ Hfresh]%elem_of_fresh_reviews]; [done|].
    exfalso. apply Hfresh, elem_of_ids_of. exists e. by rewrite Hre. }
  split_and!; [|done|].
  - rewrite Hm. apply elem_of_app. by left.
  - intros Hnd.
    assert (Hone : forall r, r ∈ merged -> r_id r = r_id e -> r = e).
    { intros r Hr Hre. apply (NoDup_ids_eq existing); auto. }
    split; [done|]. intros Hin. by apply Hne, Hone.
Qed.

(** ** Serialised dates *)

Lemma json_date_idemp v : json_date (json_date v) = json_date v.
Proof. by destruct v. Qed.

Lemma json_review_idemp r : json_review (json_review r) = json_review r.
Proof. unfold json_review, set_date. cbn. by rewrite json_date_idemp. Qed.

Lemma map_json_review_idemp l :
  map json_review (map json_review l) = map json_review l.
Proof. rewrite map_map. apply map_ext. intros r. apply json_review_idemp. Qed.

Lemma ids_of_json l : ids_of (map json_review l) = ids_of l.
Proof. unfold ids_of. by rewrite map_map. Qed.

Lemma ids_of_perm l l' : l ≡ₚ l' -> ids_of l = ids_of l'.
Proof. intros Hp. unfold ids_of. apply set_eq. intros x. by rewrite !elem_of_list_to_set, Hp. Qed.

(** Serialising keeps the order of two dates of one class, when the
    datetimes are normalised to UTC. *)
Lemma json_date_gtb x y c :
  utc_normalized x -> utc_normalized y ->
  class_of (r_date x) = Some c -> class_of (r_date y) = Some c ->
  date_gtb (json_date (r_date y)) (json_date (r_date x)) = date_gtb (r_date y) (r_date x).
Proof.
  unfold utc_normalized.
  destruct (r_date x) as [| |s|d], (r_date y) as [| |t|e]; cbn [class_of json_date];
    intros Hx Hy Hcx Hcy; try done;
    try (by repeat case_match; simplify_eq).
  destruct Hx as [Hvd Hd], Hy as [Hve He]. unfold date_gtb. cbn.
  rewrite compare_datetime_str by (done || congruence).
  unfold datetime_cmp. rewrite decide_True by congruence. done.
Qed.

Lemma Sorted_json l :
  Forall utc_normalized l -> comparable_keys l = true ->
  Sorted date_ge l -> Sorted date_ge (map json_review l).
Proof.
  intros Hu Hc Hs.
  apply comparable_keys_spec in Hc as [Hlen|[c Hc]].
  { destruct l as [|x [|y l]]; cbn in Hlen; try lia; repeat constructor. }
  induction Hs as [|x l Hs IH Hhd]; cbn; [constructor|].
  apply Forall_cons in Hu as [Hx Hu]. apply Forall_cons in Hc as [Hcx Hc].
  constructor; [by apply IH|].
  destruct Hhd as [|y l Hxy]; cbn; constructor.
  apply Forall_cons in Hu as [Hy _]. apply Forall_cons in Hc as [Hcy _].
  unfold date_ge in *. cbn. by rewrite (json_date_gtb x y c).
Qed.

Lemma comparable_keys_json l :
  comparable_keys l = true -> comparable_keys (map json_review l) = true.
Proof.
  rewrite !comparable_keys_spec. intros [Hlen|[c Hc]].
  - left. by rewrite length_map.
  - right. exists KStr. apply Forall_fmap. eapply Forall_impl; [done|].
    intros r. cbn. by destruct (r_date r).
Qed.

(** ** C3: the written sequence is sorted and the sort is stable *)


(** ** C7: a batch with an undated record *)

Section BadDates.

Variable fromisoformat : string -> option datetime.

Local Abbreviation save_reviews := (save_reviews fromisoformat).
Local Abbreviation group_loop := (group_loop fromisoformat).
Local Abbreviation key_of := (key_of fromisoformat).

Lemma group_loop_Raise g0 reviews r :
  r ∈ reviews -> key_of r = None -> exists e, group_loop g0 reviews = Raise e.
Proof.
  revert g0. induction reviews as [|x reviews IH]; intros g0; [by intros ?%elem_of_nil|].
  cbn [group_loop]. unfold key_of.
  intros [->|Hr]%elem_of_cons Hk.
  - destruct (date_of_review fromisoformat x); [done|]. cbn. eauto.
  - destruct (date_of_review fromisoformat x); cbn; [|eauto].
    by apply IH.
Qed.

End BadDates.

(** ** The shape of a run *)

Section RunShape.

Variable fromisoformat : string -> option datetime.

Local Abbreviation save_reviews := (save_reviews fromisoformat).
Local Abbreviation group_loop := (group_loop fromisoformat).
Local Abbreviation key_of := (key_of fromisoformat).
Local Abbreviation has_key := (has_key fromisoformat).

Lemma group_loop_key_length reviews g k l :
  group_loop [] reviews = Ok g -> (k, l) ∈ g -> String.length k.2 = 7%nat.
Proof.
  intros Hg Hin.
  destruct (group_loop_spec fromisoformat [] reviews g (NoDup_nil_2) Hg)
    as (_ & _ & _ & Hkeys).
  destruct (Hkeys k) as [?%elem_of_nil|(r & _ & Hr)]; [by eapply elem_of_keys|done|].
  destruct k as [c ym]. by eapply key_of_length.
Qed.

Lemma group_loop_paths_NoDup base reviews g :
  group_loop [] reviews = Ok g -> NoDup (map (group_path base) g).
Proof.
  intros Hg.
  destruct (group_loop_spec fromisoformat [] reviews g (NoDup_nil_2) Hg) as (Hnd & _).
  replace (map (group_path base) g)
    with ((fun k : group_key => partition_path base k.1 k.2) <$> (map fst g))
    by (by rewrite <- list_fmap_compose).
  apply NoDup_fmap_2_strong; [|done].
  intros [c ym] [c' ym'] ([k1 l1] & E1 & H1)%list_elem_of_fmap
    ([k2 l2] & E2 & H2)%list_elem_of_fmap Hp. cbn in *. subst k1 k2.
  apply (group_loop_key_length _ _ _ _ Hg) in H1, H2. cbn in *.
  by apply partition_path_inj in Hp as [-> ->].
Qed.

Lemma group_loop_paths_not_index base reviews g :
  group_loop [] reviews = Ok g -> index_path base ∉ map (group_path base) g.
Proof.
  intros Hg ([k l] & E & Hin)%list_elem_of_fmap.
  apply (group_loop_key_length _ _ _ _ Hg) in Hin.
  symmetry in E. by apply partition_path_not_index in E.
Qed.

Lemma plan_infos_NoDup self base g :
  NoDup (map (group_path base) g) -> NoDup (map info_path (plan self base g).1).
Proof.
  intros Hnd. destruct (plan_paths self base g) as [n ->].
  eapply sublist_NoDup; [done|]. apply sublist_take.
Qed.

Lemma plan_infos_paths self base g p :
  p ∈ map info_path (plan self base g).1 -> p ∈ map (group_path base) g.
Proof.
  destruct (plan_paths self base g) as [n ->]. apply subseteq_take.
Qed.

Lemma read_index_write_all self base infos :
  index_path base ∉ map info_path infos ->
  read_index (write_all self infos) base = read_index self base.
Proof.
  intros H. unfold read_index, _read_json. by rewrite write_all_lookup_ne.
Qed.

(** A run, by its plan: it stops where the plan stops, and otherwise
    hands the entries of the plan to the index. *)
Lemma save_reviews_plan self reviews base now g :
  group_loop [] reviews = Ok g ->
  save_reviews self reviews base now =
  match (plan self base g).2 with
  | Some e => (write_all self (plan self base g).1, Raise e)
  | None => update_index (write_all self (plan self base g).1)
                         (plan self base g).1 base now
  end.
Proof.
  intros Hg. unfold save_reviews. rewrite Hg.
  rewrite save_groups_plan by by eapply group_loop_paths_NoDup.
  by destruct (plan self base g).2.
Qed.

Lemma save_reviews_group_Raise self reviews base now e :
  group_loop [] reviews = Raise e -> save_reviews self reviews base now = (self, Raise e).
Proof. intros Hg. unfold save_reviews. by rewrite Hg. Qed.

(** A run that returns: every group was merged against the store it
    started from and written, then the index was updated. *)
Lemma save_reviews_Ok_spec self reviews base now self' :
  save_reviews self reviews base now = (self', Ok tt) ->
  exists g infos,
    group_loop [] reviews = Ok g /\
    Forall2 (fun grp info => exists merged,
               merged_group self base grp = Ok merged /\ info = info_of base grp merged)
            g infos /\
    NoDup (map info_path infos) /\
    (index_path base ∉ map info_path infos) /\
    read_index self base = Ok (index_versions self base) /\
    self' = <[index_path base :=
                Index (mkIndex (Some (index_files (index_versions self base) infos))
                               (Some now))]> (write_all self infos).
Proof.
  destruct (group_loop [] reviews) as [g|e] eqn:Hg;
    [|by rewrite (save_reviews_group_Raise _ _ _ _ _ Hg)].
  rewrite (save_reviews_plan _ _ _ _ _ Hg).
  pose proof (plan_infos_NoDup self base g (group_loop_paths_NoDup base _ _ Hg)) as Hnd.
  assert (Hidx : index_path base ∉ map info_path (plan self base g).1).
  { intros H%plan_infos_paths. by eapply group_loop_paths_not_index. }
  destruct (plan_prefix self base g) as (done & rest & E & Hall & Hstop).
  destruct (plan self base g) as [infos [e|]]; cbn in *; [done|]. subst rest.
  rewrite app_nil_r in E. subst done.
  unfold update_index. rewrite read_index_write_all by done.
  destruct (read_index self base) as [vs|] eqn:Hvs; [|done].
  intros [= <-]. exists g, infos. split_and!; try done.
  - by rewrite <- (read_index_versions _ _ _ Hvs).
  - by rewrite <- (read_index_versions _ _ _ Hvs).
Qed.

(** A run that raises: in the grouping, in the merge of a group, or in
    the update of the index. *)
Lemma save_reviews_Raise_spec self reviews base now self' e :
  save_reviews self reviews base now = (self', Raise e) ->
  (group_loop [] reviews = Raise e /\ self' = self) \/
  exists g infos,
    group_loop [] reviews = Ok g /\
    NoDup (map (group_path base) g) /\
    (index_path base ∉ map (group_path base) g) /\
    self' = write_all self infos /\
    ((exists done failed rest,
        g = done ++ failed :: rest /\
        Forall2 (fun grp info => exists merged,
                   merged_group self base grp = Ok merged /\
                   info = info_of base grp merged) done infos /\
        merged_group self base failed = Raise e) \/
     (Forall2 (fun grp info => exists merged,
                 merged_group self base grp = Ok merged /\
                 info = info_of base grp merged) g infos /\
      read_index self base = Raise e)).
Proof.
  destruct (group_loop [] reviews) as [g|e'] eqn:Hg.
  - rewrite (save_reviews_plan _ _ _ _ _ Hg). intros H. right.
    pose proof (group_loop_paths_NoDup base _ _ Hg) as Hnd.
    pose proof (group_loop_paths_not_index base _ _ Hg) as Hidx.
    assert (Hidx' : index_path base ∉ map info_path (plan self base g).1).
    { by intros ?%plan_infos_paths. }
    destruct (plan_prefix self base g) as (done & rest & E & Hall & Hstop).
    destruct (plan self base g) as [infos [e'|]]; cbn in *.
    + injection H as <- <-. destruct Hstop as (failed & rest' & -> & Hf).
      exists g, infos. split_and!; try done. left. eauto 10.
    + subst rest. rewrite app_nil_r in E. subst done.
      unfold update_index in H. rewrite read_index_write_all in H by done.
      destruct (read_index self base) as [vs|] eqn:Hvs; [done|].
      injection H as <- <-. exists g, infos. split_and!; try done. by right.
  - rewrite (save_reviews_group_Raise _ _ _ _ _ Hg). intros [= <- <-]. by left.
Qed.

End RunShape.

Section RunTheorems.

Variable fromisoformat : string -> option datetime.

Local Abbreviation save_reviews := (save_reviews fromisoformat).
Local Abbreviation group_loop := (group_loop fromisoformat).
Local Abbreviation date_of_review := (date_of_review fromisoformat).
Local Abbreviation key_of := (key_of fromisoformat).
Local Abbreviation has_key := (has_key fromisoformat).
Local Abbreviation undated := (undated fromisoformat).

(** ** C7: a batch with an undated record *)

Lemma undated_key_of r : undated r <-> key_of r = None.
Proof.
  unfold undated, key_of, date_of_review. split.
  - intros [->|[->|(s & -> & ->)]]; done.
  - destruct (r_date r) as [| |s|d]; [auto..| |done].
    destruct (fromisoformat s) eqn:E; [done|]. eauto 10.
Qed.

(** C7 as the code has it.  [save_reviews] does not drop single records:
    when a record of the batch has a missing or unparsable date, the run
    raises while grouping, before anything is written, and the store is
    left as it was; no record of the batch is stored by that run. *)
Theorem undated_record_aborts_run self reviews base now r :
  r ∈ reviews -> undated r ->
  exists e, save_reviews self reviews base now = (self, Raise e).
Proof.
  intros Hr Hu%undated_key_of.
  destruct (group_loop_Raise fromisoformat [] reviews r Hr Hu) as [e He].
  exists e. by apply save_reviews_group_Raise.
Qed.

(** ** C6: a merge that fails *)

Lemma plan_stop self base done failed rest e :
  Forall (fun g => exists merged, merged_group self base g = Ok merged) done ->
  merged_group self base failed = Raise e ->
  (plan self base (done ++ failed :: rest)).2 = Some e /\
  Forall2 (fun g info => exists merged,
             merged_group self base g = Ok merged /\ info = info_of base g merged)
          done (plan self base (done ++ failed :: rest)).1.
Proof.
  intros Hdone Hf. induction Hdone as [|g done [merged Hm] _ IH]; cbn [plan app].
  - rewrite Hf. split; [done|constructor].
  - rewrite Hm. destruct IH as [IH1 IH2].
    destruct (plan self base (done ++ failed :: rest)) as [infos stop]. cbn in *.
    split; [done|]. constructor; eauto.
Qed.

Lemma Forall2_info_paths self base gs infos :
  Forall2 (fun g info => exists merged,
             merged_group self base g = Ok merged /\ info = info_of base g merged)
          gs infos ->
  map info_path infos = map (group_path base) gs.
Proof.
  induction 1 as [|g info gs infos (merged & _ & ->) _ IH]; cbn; [done|].
  by rewrite IH.
Qed.

Lemma Forall2_info_elem self base gs infos g merged :
  Forall2 (fun g info => exists merged,
             merged_group self base g = Ok merged /\ info = info_of base g merged)
          gs infos ->
  g ∈ gs -> merged_group self base g = Ok merged -> info_of base g merged ∈ infos.
Proof.
  induction 1 as [|g' info gs infos (merged' & Hm' & ->) _ IH]; [by intros ?%elem_of_nil|].
  intros [->|Hin]%elem_of_cons Hm.
  - assert (merged' = merged) as -> by congruence. by left.
  - right. auto.
Qed.

(** C6 as the code has it.  When the merge of a group raises, the run
    ends there with that exception: the groups before it are written,
    the failing group and those after it are not, and the index document
    is left as it was. *)
Theorem merge_failure_aborts_run self reviews base now done failed rest e :
  group_loop [] reviews = Ok (done ++ failed :: rest) ->
  Forall (fun g => exists merged, merged_group self base g = Ok merged) done ->
  merged_group self base failed = Raise e ->
  exists self',
    save_reviews self reviews base now = (self', Raise e) /\
    (forall g merged, g ∈ done -> merged_group self base g = Ok merged ->
       self' !! group_path base g = Some (Reviews (map json_review merged))) /\
    (forall g, g ∈ failed :: rest -> self' !! group_path base g = self !! group_path base g) /\
    self' !! index_path base = self !! index_path base.
Proof.
  intros Hg Hdone Hf.
  rewrite (save_reviews_plan _ _ _ _ _ _ Hg).
  destruct (plan_stop self base done failed rest e Hdone Hf) as [Hstop Hall].
  pose proof (group_loop_paths_NoDup _ base _ _ Hg) as Hnd.
  pose proof (group_loop_paths_not_index _ base _ _ Hg) as Hidx.
  pose proof (Forall2_info_paths _ _ _ _ Hall) as Hpaths.
  rewrite Hstop. eexists. split; [done|].
  rewrite map_app in Hnd, Hidx. apply NoDup_app in Hnd as (Hnd1 & Hdisj & _).
  split_and!.
  - intros g merged Hin Hm.
    change (group_path base g) with (info_path (info_of base g merged)).
    change (map json_review merged)
      with (map json_review (info_reviews (info_of base g merged))).
    apply write_all_lookup; [by rewrite Hpaths|].
    by eapply Forall2_info_elem.
  - intros g Hin. apply write_all_lookup_ne. rewrite Hpaths.
    intros Hin'. apply (Hdisj _ Hin'). apply list_elem_of_fmap. eauto.
  - apply write_all_lookup_ne. rewrite Hpaths.
    intros ?. apply Hidx, elem_of_app. by left.
Qed.

(** ** C5: the index lists every version of a touched partition *)

Lemma json_review_version r : version_of (json_review r) = version_of r.
Proof. done. Qed.

Lemma json_review_id r : r_id (json_review r) = r_id r.
Proof. done. Qed.

Lemma json_review_country r : r_country (json_review r) = r_country r.
Proof. done. Qed.



(** ** C8: where a record is stored *)




End RunTheorems.

(** ** C4: the index is sound in every reachable store *)

Lemma read_existing_Ok self base c ym ex :
  read_existing self (partition_path base c ym) = Ok ex ->
  ex = partition_records self base c ym.
Proof.
  unfold read_existing, partition_records, _read_json.
  destruct (self !! partition_path base c ym) as [[l|[[?|] [?|]]]|]; by intros [= <-].
Qed.

Lemma merged_group_Ok self base k news merged :
  merged_group self base (k, news) = Ok merged ->
  merge_reviews (partition_records self base k.1 k.2) news = Ok merged.
Proof.
  unfold merged_group, group_path. cbn.
  destruct (read_existing self _) as [ex|] eqn:Hex; [|done]. cbn.
  by rewrite (read_existing_Ok _ _ _ _ _ Hex).
Qed.

Section Soundness.

Variable fromisoformat : string -> option datetime.
Variable base : string.

Local Abbreviation save_reviews := (save_reviews fromisoformat).
Local Abbreviation group_loop := (group_loop fromisoformat).
Local Abbreviation key_of := (key_of fromisoformat).
Local Abbreviation has_key := (has_key fromisoformat).
Local Abbreviation reachable := (reachable fromisoformat base).

Local Abbreviation partitions_ok := (partitions_ok base).
Local Abbreviation index_sound := (index_sound base).
Local Abbreviation good_info := (good_info base).
Local Abbreviation index_readable := (index_readable base).

Lemma group_loop_good_infos self reviews g gs infos :
  group_loop [] reviews = Ok g -> gs ⊆ g ->
  Forall2 (fun grp info => exists merged,
             merged_group self base grp = Ok merged /\ info = info_of base grp merged)
          gs infos ->
  Forall (good_info self) infos.
Proof.
  intros Hg Hsub Hall.
  destruct (group_loop_spec fromisoformat [] reviews g (NoDup_nil_2) Hg)
    as (_ & _ & Hgroups & _).
  revert Hsub.
  induction Hall as [|grp info gs infos Hgrp _ IH]; intros Hsub; [constructor|].
  destruct Hgrp as (merged & Hm & ->). destruct grp as [k news].
  constructor; [|apply IH; set_solver].
  assert (Hin : (k, news) ∈ g) by set_solver.
  split_and!.
  - by eapply group_loop_key_length.
  - done.
  - exists news. split; [by apply merged_group_Ok|].
    destruct (Hgroups _ _ Hin) as (l0 & [?%elem_of_nil|[-> _]] & ->); [done|].
    apply Forall_forall. intros r Hr%list_elem_of_In.
    apply filter_In in Hr as [_ Hr%bool_decide_eq_true].
    unfold key_of in Hr.
    destruct (date_of_review fromisoformat r); [|done]. by injection Hr as <-.
Qed.

Lemma good_info_country self info r :
  partitions_ok self -> good_info self info ->
  r ∈ info_reviews info -> r_country r = info_country info.
Proof.
  intros Hok (Hlen & Hpath & news & Hm & Hnews) Hr.
  rewrite (merge_reviews_perm _ _ _ Hm) in Hr.
  apply elem_of_app in Hr as [Hr|[Hr _]%elem_of_fresh_reviews].
  - unfold partition_records in Hr.
    destruct (self !! partition_path base _ _) as [d|] eqn:E; [|by apply elem_of_nil in Hr].
    destruct (Hok _ _ _ Hlen E) as (l & -> & Hl).
    rewrite Forall_forall in Hl. auto.
  - rewrite Forall_forall in Hnews. auto.
Qed.

Lemma write_all_partition self infos c ym :
  Forall (good_info self) infos -> NoDup (map info_path infos) ->
  String.length ym = 7%nat ->
  ((partition_path base c ym ∉ map info_path infos) /\
   write_all self infos !! partition_path base c ym
   = self !! partition_path base c ym) \/
  (exists info, info ∈ infos /\ info_country info = c /\ info_ym info = ym /\
     write_all self infos !! partition_path base c ym =
     Some (Reviews (map json_review (info_reviews info)))).
Proof.
  intros Hgood Hnd Hlen.
  destruct (decide (partition_path base c ym ∈ map info_path infos)) as [Hin|Hnin].
  - right. apply list_elem_of_fmap in Hin as (info & Hp & Hin).
    rewrite Forall_forall in Hgood.
    destruct (Hgood _ Hin) as (Hlen' & Hpath & _).
    rewrite Hpath in Hp. apply partition_path_inj in Hp as [-> ->]; [|done..].
    exists info. split_and!; [done..|].
    rewrite <- Hpath. by apply write_all_lookup.
  - left. split; [done|]. by apply write_all_lookup_ne.
Qed.

Lemma write_all_partitions_ok self infos :
  partitions_ok self -> Forall (good_info self) infos ->
  NoDup (map info_path infos) -> partitions_ok (write_all self infos).
Proof.
  intros Hok Hgood Hnd c ym d Hlen Hd.
  destruct (write_all_partition self infos c ym Hgood Hnd Hlen)
    as [[_ E]|(info & Hin & <- & <- & E)]; rewrite E in Hd.
  - by apply Hok in Hd.
  - injection Hd as <-. eexists. split; [done|].
    apply Forall_forall. intros x (y & -> & Hy)%list_elem_of_fmap.
    rewrite json_review_country. eapply good_info_country; eauto.
    rewrite Forall_forall in Hgood. auto.
Qed.

(** The records of a partition stay, up to their serialisation. *)
Lemma write_all_keeps_records self infos c ym r :
  Forall (good_info self) infos -> NoDup (map info_path infos) ->
  String.length ym = 7%nat ->
  r ∈ partition_records self base c ym ->
  r ∈ partition_records (write_all self infos) base c ym \/
  json_review r ∈ partition_records (write_all self infos) base c ym.
Proof.
  intros Hgood Hnd Hlen Hr.
  unfold partition_records in Hr |- *.
  destruct (write_all_partition self infos c ym Hgood Hnd Hlen)
    as [[_ E]|(info & Hin & <- & <- & E)]; rewrite E.
  - by left.
  - right. rewrite Forall_forall in Hgood.
    destruct (Hgood _ Hin) as (_ & _ & news & Hm & _).
    apply list_elem_of_fmap. exists r. split; [done|].
    rewrite (merge_reviews_perm _ _ _ Hm). apply elem_of_app. left.
    by unfold partition_records.
Qed.

Lemma write_all_index self infos :
  Forall (good_info self) infos ->
  write_all self infos !! index_path base = self !! index_path base.
Proof.
  intros Hgood. apply write_all_lookup_ne.
  intros (info & Hp & Hin)%list_elem_of_fmap.
  rewrite Forall_forall in Hgood. destruct (Hgood _ Hin) as (Hlen & Hpath & _).
  rewrite Hpath in Hp. symmetry in Hp. by apply partition_path_not_index in Hp.
Qed.

Lemma write_all_index_sound self infos :
  partitions_ok self -> index_sound self ->
  Forall (good_info self) infos -> NoDup (map info_path infos) ->
  index_sound (write_all self infos).
Proof.
  intros Hok Hsound Hgood Hnd v c ym Hhas.
  unfold index_has, index_versions in Hhas. rewrite write_all_index in Hhas by done.
  destruct (Hsound v c ym Hhas) as (Hlen & r & Hr & Hv & Hc).
  split; [done|].
  destruct (write_all_keeps_records self infos c ym r Hgood Hnd Hlen Hr) as [H|H]; eauto.
Qed.

Lemma insert_index_partitions_ok self i :
  partitions_ok self -> partitions_ok (<[index_path base := Index i]> self).
Proof.
  intros Hok c ym d Hlen. rewrite lookup_insert_ne; [by apply Hok|].
  intros E. symmetry in E. by apply partition_path_not_index in E.
Qed.

Lemma insert_index_partition_records self i c ym :
  String.length ym = 7%nat ->
  partition_records (<[index_path base := Index i]> self) base c ym =
  partition_records self base c ym.
Proof.
  intros Hlen. unfold partition_records. rewrite lookup_insert_ne; [done|].
  intros E. symmetry in E. by apply partition_path_not_index in E.
Qed.

(** A run keeps both invariants, however it ends. *)
Lemma save_reviews_invariant self reviews now :
  partitions_ok self /\ index_sound self ->
  partitions_ok (save_reviews self reviews base now).1 /\
  index_sound (save_reviews self reviews base now).1.
Proof.
  intros [Hok Hsound].
  destruct (save_reviews self reviews base now) as [self' [[]|e]] eqn:Hs; cbn.
  - apply save_reviews_Ok_spec in Hs
      as (g & infos & Hg & Hall & Hnd & Hidx & Hread & ->).
    assert (Hgood : Forall (good_info self) infos)
      by (eapply group_loop_good_infos; eauto).
    split; [by apply insert_index_partitions_ok, write_all_partitions_ok|].
    intros v c ym Hhas. unfold index_has in Hhas.
    rewrite index_versions_insert in Hhas.
    apply index_files_inv in Hhas as [Hold|(info & r & Hin & Hr & -> & -> & <-)].
    + destruct (Hsound v c ym Hold) as (Hlen & r & Hr & Hv & Hc).
      split; [done|]. rewrite insert_index_partition_records by done.
      destruct (write_all_keeps_records self infos c ym r Hgood Hnd Hlen Hr) as [H|H];
        eauto.
    + rewrite Forall_forall in Hgood.
      destruct (Hgood _ Hin) as (Hlen & Hpath & _).
      split; [done|]. rewrite insert_index_partition_records by done.
      exists (json_review r). unfold partition_records.
      rewrite <- Hpath, (write_all_lookup _ _ _ Hnd Hin).
      split_and!; [apply list_elem_of_fmap; eauto|done|].
      rewrite json_review_country. eapply good_info_country; eauto.
  - apply save_reviews_Raise_spec in Hs
      as [[_ ->]|(g & infos & Hg & Hnd & Hidx & -> & Hcase)]; [done|].
    assert (Forall (good_info self) infos /\ NoDup (map info_path infos))
      as [Hgood Hnd'].
    { destruct Hcase as [(done & failed & rest & -> & Hall & _)|[Hall _]].
      - split.
        + eapply group_loop_good_infos; [done| |done]. set_solver.
        + rewrite (Forall2_info_paths _ _ _ _ Hall).
          rewrite map_app in Hnd. by apply NoDup_app in Hnd as (? & _).
      - split.
        + eapply group_loop_good_infos; [done| |done]. set_solver.
        + by rewrite (Forall2_info_paths _ _ _ _ Hall). }
    split; [by apply write_all_partitions_ok|by apply write_all_index_sound].
Qed.

Lemma reachable_invariant self :
  reachable self -> partitions_ok self /\ index_sound self.
Proof.
  induction 1 as [|self reviews now _ IH].
  - split.
    + intros c ym d _ H. by rewrite lookup_empty in H.
    + intros v c ym (bc & yms & H & _). unfold index_versions in H.
      by rewrite !lookup_empty in H.
  - by apply save_reviews_invariant.
Qed.

(** The index document can be read in every reachable store. *)
Lemma save_reviews_index_readable self reviews now :
  index_readable self -> index_readable (save_reviews self reviews base now).1.
Proof.
  intros Hr.
  destruct (save_reviews self reviews base now) as [self' [[]|e]] eqn:Hs; cbn.
  - apply save_reviews_Ok_spec in Hs as (g & infos & _ & _ & _ & _ & _ & ->).
    right. eexists. by rewrite lookup_insert_eq.
  - apply save_reviews_Raise_spec in Hs
      as [[_ ->]|(g & infos & Hg & Hnd & Hidx & -> & Hcase)]; [done|].
    unfold index_readable. rewrite write_all_lookup_ne; [done|].
    destruct Hcase as [(done & failed & rest & -> & Hall & _)|[Hall _]];
      rewrite (Forall2_info_paths _ _ _ _ Hall).
    + rewrite map_app in Hidx. intros ?. apply Hidx, elem_of_app. by left.
    + done.
Qed.

Lemma reachable_index_readable self :
  reachable self -> exists vs, read_index self base = Ok vs.
Proof.
  intros H. assert (Hr : index_readable self).
  { induction H as [|self reviews now _ IH]; [left; apply lookup_empty|].
    by apply save_reviews_index_readable. }
  unfold read_index, _read_json. destruct Hr as [->|[i ->]]; eauto.
Qed.

(** C4.  In every store reached from the empty store by ingestion runs,
    for every triple (version, country, year-month) of the index, the
    partition of that country and year-month holds a record of that
    country whose version is that version (a missing or empty version
    being the version ["Unknown"], as the index counts it). *)
Theorem index_sound_in_reachable_stores self v c ym :
  reachable self -> index_has self base v c ym ->
  exists r, r ∈ partition_records self base c ym /\
            version_of r = v /\ r_country r = c.
Proof.
  intros [_ Hsound]%reachable_invariant Hhas.
  by destruct (Hsound v c ym Hhas) as [_ ?].
Qed.

End Soundness.

(** ** C1: ingesting a batch a second time *)

(** What a group merged into an empty partition gives is merged again
    into itself: no id is new, and the order of the stored dates is the
    order of the dates. *)
Lemma merge_reviews_again news merged :
  Forall utc_normalized news ->
  merge_reviews [] news = Ok merged ->
  merge_reviews (map json_review merged) news = Ok (map json_review merged).
Proof.
  intros Hu Hm. pose proof (merge_reviews_perm _ _ _ Hm) as Hp.
  apply merge_reviews_Ok in Hm as (-> & Hc & Hmiss).
  rewrite app_nil_l in *.
  set (fresh := fresh_reviews (ids_of []) news) in *.
  assert (Hfu : Forall utc_normalized fresh).
  { apply Forall_forall. intros x [Hx _]%elem_of_fresh_reviews.
    rewrite Forall_forall in Hu. auto. }
  unfold merge_reviews. rewrite merge_loop_fresh.
  change (list_to_set (map r_id (map json_review (sort_desc fresh))))
    with (ids_of (map json_review (sort_desc fresh))).
  rewrite fresh_reviews_seen, app_nil_r.
  - apply sort_by_date_desc_sorted.
    + apply Sorted_json; [| |apply sort_desc_sorted].
      * eapply Permutation_Forall; [symmetry; exact Hp|exact Hfu].
      * eapply comparable_keys_perm; [symmetry; apply Hp|done].
    + apply comparable_keys_json.
      eapply comparable_keys_perm; [symmetry; apply Hp|done].
    + apply Forall_fmap.
      eapply Permutation_Forall; [symmetry; exact Hp|].
      eapply Forall_impl; [exact Hmiss|].
      intros r. cbn. by destruct (r_date r).
  - intros r Hr. rewrite ids_of_json, (ids_of_perm _ _ Hp).
    pose proof (fresh_reviews_covers (ids_of []) news r Hr) as Hcov.
    apply elem_of_union in Hcov as [Hcov|Hcov]; [|done].
    by apply elem_of_ids_of in Hcov as (x & ?%elem_of_nil & _).
Qed.

Lemma write_all_id self infos :
  (forall info, info ∈ infos ->
     self !! info_path info = Some (Reviews (map json_review (info_reviews info)))) ->
  write_all self infos = self.
Proof.
  induction infos as [|info infos IH]; intros Hall; [done|].
  rewrite write_all_cons. unfold _write_json. cbn.
  rewrite insert_id by (apply Hall; by left).
  apply IH. intros i Hi. apply Hall. by right.
Qed.

(** The second run against a store [self2] in which the groups the first
    run wrote are found as written, and the other groups as before. *)
Lemma plan_rerun self self2 base g :
  NoDup (map (group_path base) g) ->
  (forall grp, grp ∈ g ->
     merged_group self2 base grp =
     if decide (group_path base grp ∈ map info_path (plan self base g).1)
     then match merged_group self base grp with
          | Ok m => Ok (map json_review m)
          | Raise e => Raise e
          end
     else merged_group self base grp) ->
  plan self2 base g = (map json_info (plan self base g).1, (plan self base g).2).
Proof.
  induction g as [|grp g IH]; intros Hnd Hall; [done|].
  cbn [map] in Hnd. apply NoDup_cons in Hnd as [Hgrp Hnd].
  pose proof (Hall grp ltac:(by left)) as Hhead. cbn [plan] in *.
  destruct (merged_group self base grp) as [m|e] eqn:Hm.
  - destruct (plan self base g) as [infos stop] eqn:Hplan. cbn [fst snd map] in *.
    rewrite decide_True in Hhead by (by left). rewrite Hhead.
    rewrite IH; [done..|].
    intros grp' Hin'. rewrite (Hall grp') by (by right).
    assert (group_path base grp' ≠ group_path base grp).
    { intros E. apply Hgrp. rewrite <- E. apply list_elem_of_fmap. eauto. }
    destruct (decide (group_path base grp' ∈ map info_path infos)) as [H1|H1].
    + rewrite decide_True; [done|]. by right.
    + rewrite decide_False; [done|]. by intros [?|?]%elem_of_cons.
  - cbn in Hhead. by rewrite Hhead.
Qed.

Section Idempotence.

Variable fromisoformat : string -> option datetime.

Local Abbreviation save_reviews := (save_reviews fromisoformat).
Local Abbreviation group_loop := (group_loop fromisoformat).

Lemma group_loop_utc reviews g grp :
  Forall utc_normalized reviews -> group_loop [] reviews = Ok g -> grp ∈ g ->
  Forall utc_normalized grp.2.
Proof.
  intros Hu Hg Hin. destruct grp as [k news].
  destruct (group_loop_spec fromisoformat [] reviews g (NoDup_nil_2) Hg)
    as (_ & _ & Hgroups & _).
  destruct (Hgroups _ _ Hin) as (l0 & [?%elem_of_nil|[-> _]] & ->); [done|]. cbn.
  apply Forall_forall. intros r Hr%list_elem_of_In. apply filter_In in Hr as [Hr _].
  rewrite Forall_forall in Hu. by apply Hu, list_elem_of_In.
Qed.

Lemma merged_group_empty base grp : merged_group ∅ base grp = merge_reviews [] grp.2.
Proof. unfold merged_group, read_existing, _read_json. by rewrite lookup_empty. Qed.

(** The run against the empty store, by its plan. *)
Lemma save_reviews_empty_store reviews base now g :
  group_loop [] reviews = Ok g ->
  save_reviews ∅ reviews base now =
  match (plan ∅ base g).2 with
  | Some e => (write_all ∅ (plan ∅ base g).1, Raise e)
  | None =>
      (<[index_path base :=
           Index (mkIndex (Some (index_files ∅ (plan ∅ base g).1)) (Some now))]>
         (write_all ∅ (plan ∅ base g).1), Ok tt)
  end.
Proof.
  intros Hg. rewrite (save_reviews_plan _ _ _ _ _ _ Hg).
  destruct (plan ∅ base g).2 eqn:Hstop; [done|].
  apply update_index_Ok. rewrite read_index_write_all.
  - unfold read_index, _read_json. by rewrite lookup_empty.
  - intros H%plan_infos_paths. by eapply group_loop_paths_not_index.
Qed.

(** The second run does what a single run at its time does. *)
Lemma save_reviews_again reviews base now1 now2 :
  Forall utc_normalized reviews ->
  save_reviews (save_reviews ∅ reviews base now1).1 reviews base now2 =
  save_reviews ∅ reviews base now2.
Proof.
  intros Hu. destruct (group_loop [] reviews) as [g|e] eqn:Hg;
    [|by rewrite !(save_reviews_group_Raise _ _ _ _ _ _ Hg)].
  pose proof (group_loop_paths_NoDup _ base _ _ Hg) as Hnd.
  pose proof (group_loop_paths_not_index _ base _ _ Hg) as Hidx.
  rewrite !(save_reviews_empty_store _ _ _ _ Hg).
  set (infos := (plan ∅ base g).1) in *. set (stop := (plan ∅ base g).2) in *.
  set (written := write_all ∅ infos) in *.
  pose proof (plan_infos_NoDup ∅ base g Hnd) as Hndi. fold infos in Hndi.
  assert (Hidxi : index_path base ∉ map info_path infos).
  { by intros ?%plan_infos_paths. }
  destruct (plan_prefix ∅ base g) as (done & rest & Eg & Hall & Hstop).
  fold infos in Hall. fold stop in Hstop.
  (* the store the second run starts from *)
  set (once := match stop with
               | Some e => (written, Raise e)
               | None => (<[index_path base :=
                              Index (mkIndex (Some (index_files ∅ infos)) (Some now1))]>
                            written, Ok tt)
               end).
  assert (Hpart : forall p, p ≠ index_path base -> once.1 !! p = written !! p).
  { intros p Hp. unfold once. destruct stop; cbn; [done|].
    by rewrite lookup_insert_ne. }
  assert (Hsame : forall info, info ∈ infos ->
            once.1 !! info_path info = Some (Reviews (map json_review (info_reviews info)))).
  { intros info Hin. rewrite Hpart.
    - by apply write_all_lookup.
    - intros E. apply Hidxi. rewrite <- E. apply list_elem_of_fmap. eauto. }
  (* the plan of the second run *)
  assert (Hplan : plan once.1 base g = (map json_info infos, stop)).
  { apply plan_rerun; [done|]. fold infos. intros grp Hin.
    assert (Hne : group_path base grp ≠ index_path base).
    { intros E. apply Hidx. rewrite <- E. apply list_elem_of_fmap. eauto. }
    rewrite merged_group_empty.
    destruct (decide (group_path base grp ∈ map info_path infos)) as [Hp|Hp].
    - apply list_elem_of_fmap in Hp as (info & Hp & Hinfo).
      pose proof (Hsame _ Hinfo) as Hl. rewrite <- Hp in Hl.
      destruct (merge_reviews [] grp.2) as [m|e] eqn:Hm.
      + assert (info = info_of base grp m) as ->.
        { rewrite (Forall2_info_paths _ _ _ _ Hall) in Hndi.
          apply list_elem_of_lookup in Hinfo as [i Hi].
          destruct (Forall2_lookup_r _ _ _ _ _ Hall Hi) as (grp' & Hi' & m' & Hm' & ->).
          assert (grp' = grp) as ->.
          { assert (Hin' : grp' ∈ g).
            { rewrite Eg. apply elem_of_app. left. by eapply list_elem_of_lookup_2. }
            cbn in Hp. apply list_elem_of_lookup in Hin as [j Hj], Hin' as [j' Hj'].
            assert (j = j'); [|congruence].
            eapply NoDup_lookup; [exact Hnd|..]; rewrite list_lookup_fmap.
            - by rewrite Hj.
            - rewrite Hj'. cbn. by rewrite Hp. }
          rewrite merged_group_empty in Hm'. congruence. }
        cbn in Hl. unfold merged_group, read_existing, _read_json. rewrite Hl. cbn.
        apply merge_reviews_again; [|done]. by eapply group_loop_utc.
      + exfalso.
        apply list_elem_of_lookup in Hinfo as [i Hi].
        destruct (Forall2_lookup_r _ _ _ _ _ Hall Hi) as (grp' & Hi' & m' & Hm' & ->).
        assert (grp' = grp) as ->.
        { assert (Hin' : grp' ∈ g).
          { rewrite Eg. apply elem_of_app. left. by eapply list_elem_of_lookup_2. }
          cbn in Hp. apply list_elem_of_lookup in Hin as [j Hj], Hin' as [j' Hj'].
          assert (j = j'); [|congruence].
          eapply NoDup_lookup; [exact Hnd|..]; rewrite list_lookup_fmap.
          - by rewrite Hj.
          - rewrite Hj'. cbn. by rewrite Hp. }
        rewrite merged_group_empty in Hm'. congruence.
    - unfold merged_group, read_existing, _read_json.
      rewrite Hpart by done. unfold written.
      rewrite write_all_lookup_ne by done. by rewrite lookup_empty. }
  (* the second run writes what is there *)
  assert (Hwrite : write_all once.1 (map json_info infos) = once.1).
  { apply write_all_id. intros info' (info & -> & Hin)%list_elem_of_fmap. cbn.
    rewrite map_json_review_idemp. by apply Hsame. }
  change (save_reviews once.1 reviews base now2 =
          match stop with
          | Some e => (written, Raise e)
          | None => (<[index_path base :=
                         Index (mkIndex (Some (index_files ∅ infos)) (Some now2))]>
                       written, Ok tt)
          end).
  rewrite (save_reviews_plan _ _ _ _ _ _ Hg), Hplan. cbn [fst snd]. rewrite Hwrite.
  unfold once. destruct stop as [e|]; cbn [fst]; [done|].
  rewrite (update_index_Ok _ _ _ _ (index_files ∅ infos)).
  - rewrite insert_insert_eq. f_equal. f_equal. f_equal. f_equal. f_equal.
    apply index_files_id.
    intros info' r (info & -> & Hin)%list_elem_of_fmap
      (y & -> & Hy)%list_elem_of_fmap. cbn.
    rewrite json_review_version. by apply index_files_has.
  - unfold read_index, _read_json. by rewrite lookup_insert_eq.
Qed.

(** How the outcome of a run against the empty store depends on its time:
    in the stamp of the index only. *)
Lemma save_reviews_time reviews base now1 now2 :
  let run1 := save_reviews ∅ reviews base now1 in
  let run2 := save_reviews ∅ reviews base now2 in
  run2.2 = run1.2 /\
  (forall path, path ≠ index_path base -> run2.1 !! path = run1.1 !! path) /\
  index_versions run2.1 base = index_versions run1.1 base.
Proof.
  cbn zeta. destruct (group_loop [] reviews) as [g|e] eqn:Hg;
    [|by rewrite !(save_reviews_group_Raise _ _ _ _ _ _ Hg)].
  rewrite !(save_reviews_empty_store _ _ _ _ Hg).
  destruct (plan ∅ base g).2; cbn; [done|]. split_and!; [done| |].
  - intros path Hp. by rewrite !lookup_insert_ne.
  - by rewrite !index_versions_insert.
Qed.

(** C1 as the code has it.  Ingesting a batch a second time against the
    store its first ingestion into an empty store left gives the store
    and the outcome of a single ingestion at the time of the second run:
    every partition document is as the first run left it, the index maps
    the same versions to the same countries and year-months, the outcome
    is the same, and only [updated_at] carries the later time.  The dates
    are those of the data model: datetimes normalised to UTC. *)
Theorem ingest_twice_same_but_stamp reviews base now1 now2 :
  Forall utc_normalized reviews ->
  let once := save_reviews ∅ reviews base now1 in
  let twice := save_reviews once.1 reviews base now2 in
  twice = save_reviews ∅ reviews base now2 /\
  twice.2 = once.2 /\
  (forall path, path ≠ index_path base -> twice.1 !! path = once.1 !! path) /\
  index_versions twice.1 base = index_versions once.1 base.
Proof.
  intros Hu. cbn zeta. rewrite save_reviews_again by done.
  split; [done|]. apply save_reviews_time.
Qed.

End Idempotence.

(** ** When a run returns, and when the sort raises *)

(** A stored date against a fetched one.  The dates of a partition come
    back from the store as strs; a review the fetchers bring carries a
    datetime.  When such a review is appended to a partition that holds a
    record, the sort of line 83 raises and nothing is written. *)
Theorem stored_and_fetched_dates_do_not_sort existing new_reviews x y s d :
  x ∈ existing -> r_date x = DateStr s ->
  y ∈ fresh_reviews (ids_of existing) new_reviews -> r_date y = DateTime d ->
  merge_reviews existing new_reviews = Raise KeyError \/
  merge_reviews existing new_reviews = Raise TypeError.
Proof.
  intros Hx Hdx Hy Hdy. unfold merge_reviews. rewrite merge_loop_fresh.
  fold (ids_of existing). set (merged := existing ++ fresh_reviews (ids_of existing) new_reviews).
  unfold sort_by_date_desc. destruct (existsb _ merged); [by left|]. right.
  destruct (comparable_keys merged) eqn:Hc; [|done]. exfalso.
  apply comparable_keys_spec in Hc as [Hlen|[c Hc]].
  - apply list_elem_of_split in Hx as (l1 & l2 & ->).
    apply list_elem_of_split in Hy as (l3 & l4 & E).
    unfold merged in Hlen. rewrite E, !length_app in Hlen. cbn in Hlen. lia.
  - rewrite Forall_forall in Hc.
    assert (Hcx : class_of (r_date x) = Some c)
      by (apply Hc, elem_of_app; by left).
    assert (Hcy : class_of (r_date y) = Some c)
      by (apply Hc, elem_of_app; by right).
    rewrite Hdx in Hcx. rewrite Hdy in Hcy. cbn in Hcx, Hcy.
    destruct (tzinfo d); congruence.
Qed.

Section FirstRun.

Variable fromisoformat : string -> option datetime.

Local Abbreviation save_reviews := (save_reviews fromisoformat).
Local Abbreviation group_loop := (group_loop fromisoformat).
Local Abbreviation key_of := (key_of fromisoformat).

Lemma group_loop_total g0 reviews :
  Forall (fun r => is_Some (key_of r)) reviews ->
  exists g, group_loop g0 reviews = Ok g.
Proof.
  revert g0. induction reviews as [|r reviews IH]; intros g0 Hall; cbn [group_loop].
  - eauto.
  - apply Forall_cons in Hall as [[k Hk] Hall]. unfold key_of in Hk.
    destruct (date_of_review fromisoformat r); [|done]. cbn. by apply IH.
Qed.

Lemma merge_fetched news :
  Forall fetched news -> exists merged, merge_reviews [] news = Ok merged.
Proof.
  intros Hf. unfold merge_reviews. rewrite merge_loop_fresh, app_nil_l.
  set (fresh := fresh_reviews _ news).
  assert (Hfresh : Forall fetched fresh).
  { apply Forall_forall. intros x [Hx _]%elem_of_fresh_reviews.
    rewrite Forall_forall in Hf. auto. }
  unfold sort_by_date_desc.
  assert (existsb (fun x => bool_decide (r_date x = DateMissing)) fresh = false) as ->.
  { apply not_true_is_false. intros (x & Hx%list_elem_of_In & Hd%bool_decide_eq_true)%existsb_exists.
    rewrite Forall_forall in Hfresh. destruct (Hfresh x Hx) as (d & off & Hdt & _).
    congruence. }
  assert (comparable_keys fresh = true) as ->; [|eauto].
  apply comparable_keys_spec. right. exists KAware.
  eapply Forall_impl; [exact Hfresh|]. intros x (d & off & -> & Htz). cbn. by rewrite Htz.
Qed.

Lemma plan_no_stop self base g :
  Forall (fun grp => exists merged, merged_group self base grp = Ok merged) g ->
  (plan self base g).2 = None.
Proof.
  induction 1 as [|grp g [merged Hm] _ IH]; cbn [plan]; [done|].
  rewrite Hm. by destruct (plan self base g).
Qed.

(** A first ingestion returns.  Whatever batch the fetchers bring, its
    ingestion into the empty store goes through: every date is a
    datetime, every partition is new, and there is no index to read. *)
Theorem first_run_returns reviews base now :
  Forall fetched reviews -> (save_reviews ∅ reviews base now).2 = Ok tt.
Proof.
  intros Hf.
  assert (Hkeys : Forall (fun r => is_Some (key_of r)) reviews).
  { eapply Forall_impl; [exact Hf|]. intros r (d & off & Hd & _).
    unfold key_of, date_of_review. rewrite Hd. eauto. }
  destruct (group_loop_total [] reviews Hkeys) as [g Hg].
  rewrite (save_reviews_empty_store _ _ _ _ _ Hg).
  rewrite plan_no_stop; [done|].
  destruct (group_loop_spec fromisoformat [] reviews g (NoDup_nil_2) Hg)
    as (_ & _ & Hgroups & _).
  apply Forall_forall. intros [k news] Hin. rewrite merged_group_empty. cbn.
  apply merge_fetched.
  destruct (Hgroups _ _ Hin) as (l0 & [?%elem_of_nil|[-> _]] & ->); [done|]. cbn.
  apply Forall_forall. intros r Hr%list_elem_of_In. apply filter_In in Hr as [Hr _].
  rewrite Forall_forall in Hf. by apply Hf, list_elem_of_In.
Qed.

End FirstRun.

(** ** The dates of the fetchers *)

(** An [updated] text that does not parse gives the entry the time of the
    fetch (fetcher.py 120-121), and an Android review without ['at']
    carries [None] as its date (fetcher.py 161-174). *)
Lemma fetcher_dates fromisoformat astimezone_utc updated now_utc :
  fromisoformat updated = None ->
  entry_date fromisoformat astimezone_utc updated now_utc = now_utc /\
  android_date astimezone_utc None = DateNone.
Proof. intros H. unfold entry_date. by rewrite H. Qed.

(** ** What a run writes, however it ends *)

Lemma fresh_reviews_NoDup ids new : NoDup (map r_id (fresh_reviews ids new)).
Proof.
  revert ids. induction new as [|nr new IH]; intros ids; cbn [fresh_reviews].
  - constructor.
  - case_decide; [apply IH|]. cbn [map]. apply NoDup_cons. split; [|apply IH].
    intros (x & E & [_ Hx]%elem_of_fresh_reviews)%list_elem_of_fmap.
    apply Hx, elem_of_union. left. apply elem_of_singleton. by symmetry.
Qed.

Lemma merge_reviews_NoDup existing new merged :
  merge_reviews existing new = Ok merged ->
  NoDup (map r_id existing) -> NoDup (map r_id merged).
Proof.
  intros Hm%merge_reviews_perm Hnd.
  change (NoDup (r_id <$> merged)). rewrite Hm.
  rewrite fmap_app. apply NoDup_app. split_and!; [done| |apply fresh_reviews_NoDup].
  intros i Hi (x & -> & [_ Hx]%elem_of_fresh_reviews)%list_elem_of_fmap.
  apply Hx. by apply elem_of_list_to_set.
Qed.

Lemma write_all_doc self infos p d :
  NoDup (map info_path infos) ->
  write_all self infos !! p = Some d ->
  ((p ∉ map info_path infos) /\ self !! p = Some d) \/
  (exists info, info ∈ infos /\ p = info_path info /\
                d = Reviews (map json_review (info_reviews info))).
Proof.
  intros Hnd Hd.
  destruct (decide (p ∈ map info_path infos)) as [Hin|Hnin].
  - right. apply list_elem_of_fmap in Hin as (info & -> & Hin).
    rewrite (write_all_lookup _ _ _ Hnd Hin) in Hd. injection Hd as <-. eauto.
  - left. by rewrite write_all_lookup_ne in Hd.
Qed.

Section Writes.

Variable fromisoformat : string -> option datetime.
Variable base : string.

Local Abbreviation save_reviews := (save_reviews fromisoformat).
Local Abbreviation group_loop := (group_loop fromisoformat).
Local Abbreviation key_of := (key_of fromisoformat).
Local Abbreviation has_key := (has_key fromisoformat).
Local Abbreviation reachable := (reachable fromisoformat base).
Local Abbreviation written := (written fromisoformat base).
Local Abbreviation filed_under := (filed_under fromisoformat).

Lemma group_loop_written self reviews g gs infos :
  group_loop [] reviews = Ok g -> gs ⊆ g ->
  Forall2 (fun grp info => exists merged,
             merged_group self base grp = Ok merged /\ info = info_of base grp merged)
          gs infos ->
  Forall (written self reviews) infos.
Proof.
  intros Hg Hsub Hall.
  destruct (group_loop_spec fromisoformat [] reviews g (NoDup_nil_2) Hg)
    as (_ & _ & Hgroups & _).
  revert Hsub.
  induction Hall as [|grp info gs infos Hgrp _ IH]; intros Hsub; [constructor|].
  destruct Hgrp as (merged & Hm & ->). destruct grp as [[c ym] news].
  constructor; [|apply IH; set_solver].
  assert (Hin : ((c, ym), news) ∈ g) by set_solver.
  split_and!.
  - by apply (group_loop_key_length _ _ _ _ _ Hg Hin).
  - done.
  - exists news. split; [by apply (merged_group_Ok _ _ (c, ym))|].
    destruct (Hgroups _ _ Hin) as (l0 & [?%elem_of_nil|[-> _]] & ->); [done|].
    apply Forall_forall. intros r Hr%list_elem_of_In.
    apply filter_In in Hr as [Hr%list_elem_of_In Hk%bool_decide_eq_true]. done.
Qed.

(** The store a run leaves: the partitions of a prefix of its groups
    written over the store it started from, and then the index when the
    run returns. *)
Lemma run_writes self reviews now :
  exists infos,
    NoDup (map info_path infos) /\
    (index_path base ∉ map info_path infos) /\
    Forall (written self reviews) infos /\
    (((save_reviews self reviews base now).1 = write_all self infos /\
      exists e, (save_reviews self reviews base now).2 = Raise e) \/
     ((save_reviews self reviews base now).1
      = <[index_path base :=
            Index (mkIndex (Some (index_files (index_versions self base) infos))
                           (Some now))]> (write_all self infos) /\
      (save_reviews self reviews base now).2 = Ok tt)).
Proof.
  destruct (save_reviews self reviews base now) as [self' [[]|e]] eqn:Hs; cbn.
  - apply save_reviews_Ok_spec in Hs
      as (g & infos & Hg & Hall & Hnd & Hidx & Hread & ->).
    exists infos. split_and!; [done|done| |by right].
    by eapply group_loop_written.
  - apply save_reviews_Raise_spec in Hs
      as [[_ ->]|(g & infos & Hg & Hnd & Hidx & -> & Hcase)].
    { exists []. split_and!; [constructor|by intros ?%elem_of_nil|constructor|left; eauto]. }
    exists infos.
    destruct Hcase as [(done & failed & rest & -> & Hall & _)|[Hall _]].
    + rewrite (Forall2_info_paths _ _ _ _ Hall).
      rewrite map_app in Hnd, Hidx. split_and!.
      * by apply NoDup_app in Hnd as (? & _).
      * intros ?. apply Hidx, elem_of_app. by left.
      * eapply group_loop_written; [done| |done]. set_solver.
      * left; eauto.
    + rewrite (Forall2_info_paths _ _ _ _ Hall). split_and!; [done|done| |left; eauto].
      by eapply group_loop_written.
Qed.

(** *** The documents of a reachable store *)

(** Every list of reviews in the store has pairwise distinct ids and
    dates that are strs. *)
Local Abbreviation docs_ok := (fun self : store =>
  forall p l, self !! p = Some (Reviews l) ->
    NoDup (map r_id l) /\ Forall (fun r => exists s, r_date r = DateStr s) l).

Lemma key_of_date r k :
  key_of r = Some k ->
  r_country r = k.1 /\
  exists dt, strftime_Y_m dt = k.2 /\
    (r_date r = DateTime dt \/ exists s, r_date r = DateStr s /\ fromisoformat s = Some dt).
Proof.
  unfold key_of, date_of_review.
  destruct (r_date r) as [| |s|dt]; try done.
  - destruct (fromisoformat s) as [dt|] eqn:E; [|done]. intros [= <-]. eauto 10.
  - intros [= <-]. eauto 10.
Qed.

Lemma partition_records_doc (self : store) c ym l :
  self !! partition_path base c ym = Some (Reviews l) ->
  partition_records self base c ym = l.
Proof. unfold partition_records. by intros ->. Qed.

Lemma written_merged self reviews info r :
  written self reviews info -> r ∈ info_reviews info ->
  r ∈ partition_records self base (info_country info) (info_ym info) \/
  (r ∈ reviews /\ key_of r = Some (info_country info, info_ym info) /\
   r_id r ∉ ids_of (partition_records self base (info_country info) (info_ym info))).
Proof.
  intros (_ & _ & news & Hm & Hnews) Hr.
  rewrite (merge_reviews_perm _ _ _ Hm) in Hr.
  apply elem_of_app in Hr as [Hr|[Hr Hid]%elem_of_fresh_reviews]; [by left|].
  right. rewrite Forall_forall in Hnews. destruct (Hnews _ Hr). done.
Qed.

Lemma json_review_dated r k :
  key_of r = Some k -> exists s, r_date (json_review r) = DateStr s.
Proof.
  intros (_ & dt & _ & [H|(s & H & _)])%key_of_date; unfold json_review; cbn;
    rewrite H; cbn; eauto.
Qed.

Lemma json_review_stored r s : r_date r = DateStr s -> json_review r = r.
Proof. destruct r as [? d ? ? ? ? ? ? ?]. cbn. intros ->. done. Qed.

Lemma partition_records_elem (self : store) c ym r :
  r ∈ partition_records self base c ym ->
  exists l, self !! partition_path base c ym = Some (Reviews l) /\ r ∈ l.
Proof.
  unfold partition_records.
  destruct (self !! partition_path base c ym) as [[l|i]|]; [eauto|by intros ?%elem_of_nil..].
Qed.

Lemma partition_records_NoDup (self : store) c ym :
  docs_ok self -> NoDup (map r_id (partition_records self base c ym)).
Proof.
  intros Hok. unfold partition_records.
  destruct (self !! partition_path base c ym) as [[l|i]|] eqn:E; [|constructor..].
  by destruct (Hok _ _ E).
Qed.

Lemma write_all_docs_ok self reviews infos :
  docs_ok self -> Forall (written self reviews) infos ->
  NoDup (map info_path infos) -> docs_ok (write_all self infos).
Proof.
  intros Hok Hw Hnd p l Hl.
  apply write_all_doc in Hl; [|done].
  destruct Hl as [[_ Hl]|(info & Hin & -> & [= ->])]; [by eapply Hok|].
  rewrite Forall_forall in Hw. specialize (Hw _ Hin).
  split.
  - rewrite <- list_fmap_compose.
    change (r_id ∘ json_review) with r_id.
    destruct Hw as (_ & _ & news & Hm & _).
    eapply merge_reviews_NoDup; [done|]. by apply partition_records_NoDup.
  - apply Forall_forall. intros x (r & -> & Hr)%list_elem_of_fmap.
    destruct (written_merged _ _ _ _ Hw Hr) as [Hold|(_ & Hk & _)].
    + apply partition_records_elem in Hold as (l & Hl & Hrl).
      destruct (Hok _ _ Hl) as [_ Hd]. rewrite Forall_forall in Hd.
      destruct (Hd _ Hrl) as [s Hs]. rewrite (json_review_stored _ _ Hs). eauto.
    + by eapply json_review_dated.
Qed.

Lemma save_reviews_docs_ok self reviews now :
  docs_ok self -> docs_ok (save_reviews self reviews base now).1.
Proof.
  intros Hok.
  destruct (run_writes self reviews now) as (infos & Hnd & Hidx & Hw & [[-> _]|[-> _]]).
  - by eapply write_all_docs_ok.
  - intros p l. destruct (decide (index_path base = p)) as [<-|Hne].
    + by rewrite lookup_insert_eq.
    + rewrite lookup_insert_ne by done. by eapply write_all_docs_ok.
Qed.

Lemma reachable_docs_ok self : reachable self -> docs_ok self.
Proof.
  induction 1 as [|self reviews now _ IH].
  - intros p l H. by rewrite lookup_empty in H.
  - by apply save_reviews_docs_ok.
Qed.

Lemma reachable_index_doc self :
  reachable self -> index_readable base self.
Proof.
  induction 1 as [|self reviews now _ IH]; [left; apply lookup_empty|].
  by apply save_reviews_index_readable.
Qed.

(** *** Every stored record is in the partition of its country and month *)

Local Abbreviation filed_ok := (fun self : store =>
  forall c ym, String.length ym = 7%nat ->
    Forall (filed_under c ym) (partition_records self base c ym)).

Lemma json_review_filed r c ym :
  key_of r = Some (c, ym) -> filed_under c ym (json_review r).
Proof.
  intros (Hc & dt & Hym & Hd)%key_of_date. cbn in *. split; [done|].
  exists dt. split; [done|]. unfold json_review. cbn.
  destruct Hd as [->|(s & -> & Hs)]; cbn; eauto.
Qed.

Lemma filed_under_stored c ym r : filed_under c ym r -> json_review r = r.
Proof.
  intros (_ & dt & _ & [H|(s & H & _)]); by eapply json_review_stored.
Qed.

Lemma write_all_filed_ok self reviews infos :
  filed_ok self -> Forall (written self reviews) infos ->
  NoDup (map info_path infos) -> filed_ok (write_all self infos).
Proof.
  intros Hok Hw Hnd c ym Hlen. apply Forall_forall. intros x Hx.
  apply partition_records_elem in Hx as (l & Hl & Hx).
  apply write_all_doc in Hl; [|done].
  destruct Hl as [[_ Hl]|(info & Hin & Hp & [= ->])].
  - specialize (Hok c ym Hlen). rewrite Forall_forall in Hok. apply Hok.
    by rewrite (partition_records_doc _ _ _ _ Hl).
  - rewrite Forall_forall in Hw. specialize (Hw _ Hin).
    pose proof Hw as (Hlen' & Hpath & _). rewrite Hpath in Hp.
    apply partition_path_inj in Hp as [-> ->]; [|done..].
    apply list_elem_of_fmap in Hx as (r & -> & Hr).
    destruct (written_merged _ _ _ _ Hw Hr) as [Hold|(_ & Hk & _)].
    + specialize (Hok (info_country info) (info_ym info) Hlen').
      rewrite Forall_forall in Hok.
      specialize (Hok _ Hold). by rewrite (filed_under_stored _ _ _ Hok).
    + by apply json_review_filed.
Qed.

Lemma save_reviews_filed_ok self reviews now :
  filed_ok self -> filed_ok (save_reviews self reviews base now).1.
Proof.
  intros Hok.
  destruct (run_writes self reviews now) as (infos & Hnd & Hidx & Hw & [[-> _]|[-> _]]).
  - by eapply write_all_filed_ok.
  - intros c ym Hlen. rewrite insert_index_partition_records by done.
    by eapply write_all_filed_ok.
Qed.

Lemma reachable_filed_ok self : reachable self -> filed_ok self.
Proof.
  induction 1 as [|self reviews now _ IH].
  - intros c ym _. unfold partition_records. rewrite lookup_empty. constructor.
  - by apply save_reviews_filed_ok.
Qed.

(** In every store reached from the empty store by ingestion runs, the
    records of a partition have pairwise distinct ids. *)
Theorem stored_ids_unique self c ym :
  reachable self -> NoDup (map r_id (partition_records self base c ym)).
Proof. intros H. apply partition_records_NoDup. by apply reachable_docs_ok. Qed.

(** In every store reached from the empty store by ingestion runs, a
    record of the partition of country [c] and year-month [ym] is a
    record of country [c], and its date is a str: the [str()] of a
    datetime of that year-month, or a str that parses to one. *)
Theorem stored_record_in_its_partition self c ym r :
  reachable self -> String.length ym = 7%nat ->
  r ∈ partition_records self base c ym -> filed_under c ym r.
Proof.
  intros H Hlen Hr. pose proof (reachable_filed_ok _ H c ym Hlen) as Hf.
  rewrite Forall_forall in Hf. auto.
Qed.

(** A run never removes a record: what a partition of a reachable store
    holds, it still holds, unchanged, after any further run, whether the
    run returns or raises. *)
Theorem run_keeps_stored_records self reviews now c ym x :
  reachable self -> x ∈ partition_records self base c ym ->
  x ∈ partition_records (save_reviews self reviews base now).1 base c ym.
Proof.
  intros Hreach Hx.
  pose proof (reachable_docs_ok _ Hreach) as Hok.
  pose proof (reachable_index_doc _ Hreach) as Hidx.
  apply partition_records_elem in Hx as (l & Hl & Hx).
  destruct (Hok _ _ Hl) as [_ Hd]. rewrite Forall_forall in Hd.
  destruct (Hd _ Hx) as [s Hs].
  assert (Hw : forall infos, NoDup (map info_path infos) ->
            Forall (written self reviews) infos ->
            x ∈ partition_records (write_all self infos) base c ym).
  { intros infos Hnd Hwr. unfold partition_records at 1.
    destruct (decide (partition_path base c ym ∈ map info_path infos)) as [Hin|Hnin].
    - apply list_elem_of_fmap in Hin as (info & Hp & Hin).
      rewrite Hp, (write_all_lookup _ _ _ Hnd Hin).
      rewrite Forall_forall in Hwr. destruct (Hwr _ Hin) as (_ & Hpath & news & Hm & _).
      apply list_elem_of_fmap. exists x. split; [by rewrite (json_review_stored _ _ Hs)|].
      rewrite (merge_reviews_perm _ _ _ Hm). apply elem_of_app. left.
      unfold partition_records. by rewrite <- Hpath, <- Hp, Hl.
    - rewrite write_all_lookup_ne by done. by rewrite Hl. }
  destruct (run_writes self reviews now) as (infos & Hnd & Hni & Hwr & [[-> _]|[-> _]]).
  - by apply Hw.
  - unfold partition_records. rewrite lookup_insert_ne.
    + by apply Hw.
    + intros E. rewrite <- E in Hl. destruct Hidx as [H|[j H]]; congruence.
Qed.

(** *** A stored partition takes no new review *)

(** A merged list with a str date and a datetime does not sort. *)
Lemma merge_reviews_mixed existing new merged x y s d :
  x ∈ existing -> r_date x = DateStr s ->
  y ∈ fresh_reviews (ids_of existing) new -> r_date y = DateTime d ->
  merge_reviews existing new ≠ Ok merged.
Proof.
  intros Hx Hdx Hy Hdy (_ & Hc & _)%merge_reviews_Ok.
  apply comparable_keys_spec in Hc as [Hlen|[k Hk]].
  - apply list_elem_of_split in Hx as (l1 & l2 & ->).
    apply list_elem_of_split in Hy as (l3 & l4 & E).
    rewrite E, !length_app in Hlen. cbn in Hlen. lia.
  - rewrite Forall_forall in Hk.
    assert (Hcx : class_of (r_date x) = Some k) by (apply Hk, elem_of_app; by left).
    assert (Hcy : class_of (r_date y) = Some k) by (apply Hk, elem_of_app; by right).
    rewrite Hdx in Hcx. rewrite Hdy in Hcy. cbn in Hcx, Hcy.
    destruct (tzinfo d); congruence.
Qed.

(** With stored dates and fetched reviews, a merge can only fail in the
    sort, with [TypeError]. *)
Lemma merged_group_raises self grp e :
  docs_ok self -> Forall fetched grp.2 ->
  merged_group self base grp = Raise e -> e = TypeError.
Proof.
  intros Hok Hf. unfold merged_group.
  destruct (read_existing self (group_path base grp)) as [ex|e'] eqn:Hex; cbn.
  - unfold merge_reviews. rewrite merge_loop_fresh. unfold sort_by_date_desc.
    destruct (existsb _ _) eqn:Hm.
    + exfalso. apply existsb_exists in Hm as (z & Hz%list_elem_of_In & Hd%bool_decide_eq_true).
      apply elem_of_app in Hz as [Hz|[Hz _]%elem_of_fresh_reviews].
      * unfold read_existing, _read_json in Hex.
        destruct (self !! group_path base grp) as [[l|[[?|] [?|]]]|] eqn:E;
          simplify_eq; try by apply elem_of_nil in Hz.
        destruct (Hok _ _ E) as [_ Hs]. rewrite Forall_forall in Hs.
        destruct (Hs _ Hz) as [s Hs']. congruence.
      * rewrite Forall_forall in Hf. destruct (Hf _ Hz) as (d & off & Hd' & _). congruence.
    + destruct (comparable_keys _); [done|]. by intros [= <-].
  - unfold read_existing in Hex.
    destruct (_read_json self _) as [[l|[[?|] [?|]]]|]; simplify_eq; by intros [= <-].
Qed.

(** Once a partition holds a record, no run can add a review the
    fetchers bring to it: the stored dates are strs, the fetched one is a
    datetime, the sort raises [TypeError] and the run ends without having
    written the partition or the index. *)
Theorem stored_partition_takes_no_new_review self reviews now c ym x r :
  reachable self -> Forall fetched reviews ->
  x ∈ partition_records self base c ym ->
  r ∈ reviews -> key_of r = Some (c, ym) ->
  r_id r ∉ ids_of (partition_records self base c ym) ->
  (save_reviews self reviews base now).2 = Raise TypeError /\
  (save_reviews self reviews base now).1 !! partition_path base c ym
    = self !! partition_path base c ym /\
  (save_reviews self reviews base now).1 !! index_path base = self !! index_path base.
Proof.
  intros Hreach Hf Hx Hr Hk Hid.
  pose proof (reachable_docs_ok _ Hreach) as Hok.
  set (grp := ((c, ym), List.filter (has_key (c, ym)) reviews)).
  assert (Hkeys : Forall (fun r => is_Some (key_of r)) reviews).
  { eapply Forall_impl; [exact Hf|]. intros z (d & off & Hd & _).
    unfold key_of, date_of_review. rewrite Hd. eauto. }
  destruct (group_loop_total fromisoformat [] reviews Hkeys) as [g Hg].
  destruct (group_loop_elem _ _ _ _ Hg Hr) as (k & Hk' & Hin & Hrin).
  assert (k = (c, ym)) as -> by congruence. fold grp in Hin.
  assert (Hnews : Forall fetched grp.2).
  { apply Forall_forall. intros z Hz%list_elem_of_In. apply filter_In in Hz as [Hz _].
    rewrite Forall_forall in Hf. by apply Hf, list_elem_of_In. }
  (* the group of [r] does not merge *)
  assert (Hfail : forall merged, merged_group self base grp ≠ Ok merged).
  { intros merged Hm%merged_group_Ok. cbn in Hm.
    pose proof (fresh_reviews_covers (ids_of (partition_records self base c ym)) _ _ Hrin)
      as [?|(y & Hy & _)%elem_of_ids_of]%elem_of_union; [done|].
    apply partition_records_elem in Hx as (l & Hl & Hx).
    destruct (Hok _ _ Hl) as [_ Hd]. rewrite Forall_forall in Hd.
    destruct (Hd _ Hx) as [s Hs].
    pose proof Hy as [Hyn _]%elem_of_fresh_reviews.
    rewrite Forall_forall in Hnews. destruct (Hnews _ Hyn) as (d & off & Hdy & _).
    eapply merge_reviews_mixed; [| |exact Hy| |exact Hm]; [|done..].
    by rewrite (partition_records_doc _ _ _ _ Hl). }
  assert (Hall_fetched : forall grp', grp' ∈ g -> Forall fetched grp'.2).
  { intros [k' l'] Hin'.
    destruct (group_loop_spec fromisoformat [] reviews g (NoDup_nil_2) Hg)
      as (_ & _ & Hgroups & _).
    destruct (Hgroups _ _ Hin') as (l0 & [?%elem_of_nil|[-> _]] & ->); [done|]. cbn.
    apply Forall_forall. intros z Hz%list_elem_of_In. apply filter_In in Hz as [Hz _].
    rewrite Forall_forall in Hf. by apply Hf, list_elem_of_In. }
  destruct (save_reviews self reviews base now) as [self' [[]|e]] eqn:Hs; cbn.
  - exfalso. apply save_reviews_Ok_spec in Hs
      as (g' & infos & Hg' & Hall & _). assert (g' = g) as -> by congruence.
    apply list_elem_of_lookup in Hin as [i Hi].
    destruct (Forall2_lookup_l _ _ _ _ _ Hall Hi) as (info & _ & m & Hm & _).
    by eapply Hfail.
  - apply save_reviews_Raise_spec in Hs
      as [[Hg' _]|(g' & infos & Hg' & Hnd & Hidx & -> & Hcase)]; [congruence|].
    assert (g' = g) as -> by congruence.
    destruct Hcase as [(done & failed & rest & E & Hall & Hraise)|[Hall _]].
    + assert (e = TypeError) as ->.
      { eapply merged_group_raises; [exact Hok| |exact Hraise]. apply Hall_fetched. rewrite E.
        apply elem_of_app. right. by left. }
      split; [done|].
      assert (Hpaths : map info_path infos = map (group_path base) done)
        by by eapply Forall2_info_paths.
      split.
      * apply write_all_lookup_ne. rewrite Hpaths.
        intros ([k' l'] & Hp & Hin')%list_elem_of_fmap.
        assert (Hin'' : (k', l') ∈ g) by (rewrite E; apply elem_of_app; by left).
        pose proof (group_loop_key_length _ _ _ _ _ Hg Hin'') as Hlen.
        pose proof (group_loop_key_length _ _ _ _ _ Hg Hin) as Hlen'.
        unfold group_path in Hp. cbn in Hp, Hlen, Hlen'. destruct k' as [c' ym'].
        apply partition_path_inj in Hp as [-> ->]; [|done..].
        destruct (group_loop_spec fromisoformat [] reviews g (NoDup_nil_2) Hg)
          as (_ & _ & Hgroups & _).
        destruct (Hgroups _ _ Hin'') as (l0 & [?%elem_of_nil|[-> _]] & ->); [done|].
        apply list_elem_of_lookup in Hin' as [i Hi].
        destruct (Forall2_lookup_l _ _ _ _ _ Hall Hi) as (info & _ & m & Hm & _).
        by eapply Hfail.
      * apply write_all_lookup_ne. rewrite Hpaths. rewrite E, map_app in Hidx.
        intros ?. apply Hidx, elem_of_app. by left.
    + exfalso. apply list_elem_of_lookup in Hin as [i Hi].
      destruct (Forall2_lookup_l _ _ _ _ _ Hall Hi) as (info & _ & m & Hm & _).
      by eapply Hfail.
Qed.

End Writes.

(** ** The lists of the index are sorted *)

Lemma str_lt_compare a b : str_lt a b <-> String.compare a b = Lt.
Proof. unfold str_lt, String.ltb. by destruct (String.compare a b). Qed.

Lemma str_lt_irrefl a : ~ str_lt a a.
Proof. rewrite str_lt_compare, compare_refl. done. Qed.

Lemma str_lt_trans a b c : str_lt a b -> str_lt b c -> str_lt a c.
Proof.
  rewrite !str_lt_compare. intros H1 H2.
  apply OrderedTypeEx.String_as_OT.cmp_lt.
  eapply OrderedTypeEx.String_as_OT.lt_trans;
    by apply OrderedTypeEx.String_as_OT.cmp_lt.
Qed.

Lemma str_lt_total a b : str_lt a b \/ a = b \/ str_lt b a.
Proof.
  rewrite !str_lt_compare. destruct (String.compare a b) eqn:E.
  - right. left. by apply String.compare_eq_iff.
  - by left.
  - right. right. rewrite String.compare_antisym, E. done.
Qed.

Lemma insert_str_lt x l :
  x ∉ l -> StronglySorted str_lt l -> StronglySorted str_lt (insert_str x l).
Proof.
  intros Hx Hs. induction Hs as [|y l Hs IH Hy]; cbn [insert_str].
  - repeat constructor.
  - destruct (String.ltb x y) eqn:E.
    + constructor; [by constructor|]. constructor; [done|].
      eapply Forall_impl; [exact Hy|]. intros z Hz. by eapply str_lt_trans.
    + assert (Hyx : str_lt y x).
      { destruct (str_lt_total x y) as [H|[->|H]]; [unfold str_lt in H; congruence| |done].
        exfalso. apply Hx. by left. }
      constructor.
      * apply IH. intros ?. apply Hx. by right.
      * rewrite insert_str_perm. by constructor.
Qed.

Lemma StronglySorted_str_lt_NoDup l : StronglySorted str_lt l -> NoDup l.
Proof.
  induction 1 as [|x l _ IH Hx]; constructor; [|done].
  intros Hin. rewrite Forall_forall in Hx. by apply (str_lt_irrefl x), Hx.
Qed.

(** Appending a new element to a sorted list and sorting it. *)
Lemma sort_strs_snoc l x :
  x ∉ l -> StronglySorted str_lt l -> StronglySorted str_lt (sort_strs (l ++ [x])).
Proof.
  intros Hx Hs. unfold sort_strs. rewrite foldr_app. cbn [foldr insert_str].
  revert Hx. induction Hs as [|y l Hs IH Hy]; intros Hx; cbn [foldr].
  - repeat constructor.
  - apply insert_str_lt.
    + fold (sort_strs (l ++ [x])).
      assert (Hp : foldr insert_str [x] l ≡ₚ l ++ [x]).
      { clear. induction l as [|z l IH]; cbn; [done|]. by rewrite insert_str_perm, IH. }
      rewrite Hp. intros [Hin|Hin%list_elem_of_singleton]%elem_of_app.
      * rewrite Forall_forall in Hy. by apply (str_lt_irrefl y), Hy.
      * apply Hx. rewrite Hin. by left.
    + apply IH. intros ?. apply Hx. by right.
Qed.

Local Abbreviation index_ok := (fun vs : gmap string (gmap string (list string)) =>
  forall v by_country c yms,
    vs !! v = Some by_country -> by_country !! c = Some yms ->
    yms ≠ [] /\ StronglySorted str_lt yms).

Lemma add_ym_index_ok vs v c ym : index_ok vs -> index_ok (add_ym vs v c ym).
Proof.
  intros Hok v' bc c' yms. unfold add_ym.
  destruct (decide (v = v')) as [<-|Hv]; [|rewrite lookup_insert_ne by done; apply Hok].
  rewrite lookup_insert_eq. intros [= <-].
  destruct (decide (c = c')) as [<-|Hc].
  - rewrite lookup_insert_eq. intros [= <-].
    destruct (vs !! v) as [bc|] eqn:Ev; cbn.
    + destruct (bc !! c) as [l|] eqn:Ec; cbn.
      * destruct (Hok _ _ _ _ Ev Ec) as [Hne Hs].
        case_decide; [done|]. split; [|by apply sort_strs_snoc].
        intros E. apply (f_equal length) in E.
        rewrite (Permutation_length (sort_strs_perm _)), length_app in E. cbn in E. lia.
      * rewrite decide_False by (by intros ?%elem_of_nil). cbn.
        split; [done|repeat constructor].
    + rewrite lookup_empty. cbn. rewrite decide_False by (by intros ?%elem_of_nil). cbn.
      split; [done|repeat constructor].
  - rewrite lookup_insert_ne by done.
    destruct (vs !! v) as [bc|] eqn:Ev; cbn; [|by rewrite lookup_empty].
    intros H. exact (Hok _ _ _ _ Ev H).
Qed.

Lemma index_files_index_ok vs infos : index_ok vs -> index_ok (index_files vs infos).
Proof.
  revert vs. induction infos as [|info infos IH]; intros vs Hok; cbn; [done|].
  apply IH. unfold index_file.
  generalize (versions_in_file (info_reviews info)). intros l. revert vs Hok.
  induction l as [|v l IHl]; intros vs Hok; cbn; [done|].
  apply IHl. by apply add_ym_index_ok.
Qed.

Lemma index_versions_write_all self base infos :
  index_path base ∉ map info_path infos ->
  index_versions (write_all self infos) base = index_versions self base.
Proof. intros H. unfold index_versions. by rewrite write_all_lookup_ne. Qed.

Section IndexInvariants.

Variable fromisoformat : string -> option datetime.
Variable base : string.

Local Abbreviation save_reviews := (save_reviews fromisoformat).
Local Abbreviation key_of := (key_of fromisoformat).
Local Abbreviation reachable := (reachable fromisoformat base).
Local Abbreviation reachable_by := (reachable_by fromisoformat).
Local Abbreviation returns := (returns fromisoformat base).
Local Abbreviation written := (written fromisoformat base).

Lemma save_reviews_index_ok self reviews now :
  index_ok (index_versions self base) ->
  index_ok (index_versions (save_reviews self reviews base now).1 base).
Proof.
  intros Hok.
  destruct (run_writes fromisoformat base self reviews now)
    as (infos & Hnd & Hidx & Hw & [[-> _]|[-> _]]).
  - by rewrite index_versions_write_all.
  - rewrite index_versions_insert. by apply index_files_index_ok.
Qed.

(** In every store reached from the empty store by ingestion runs, each
    list of year-months of the index is non-empty, in strictly ascending
    order, and so without repetition. *)
Theorem index_lists_sorted self v by_country c yms :
  reachable self ->
  index_versions self base !! v = Some by_country -> by_country !! c = Some yms ->
  yms ≠ [] /\ StronglySorted str_lt yms /\ NoDup yms.
Proof.
  intros Hreach Hv Hc.
  assert (Hok : index_ok (index_versions self base)).
  { clear Hv Hc. induction Hreach as [|self reviews now _ IH].
    - intros v' bc c' l. unfold index_versions. by rewrite !lookup_empty.
    - by apply save_reviews_index_ok. }
  destruct (Hok _ _ _ _ Hv Hc) as [Hne Hs].
  split_and!; [done..|]. by apply StronglySorted_str_lt_NoDup.
Qed.

(** *** While every run returns, the index is complete *)

Lemma reachable_by_reachable admitted self :
  reachable_by admitted base self -> reachable self.
Proof. induction 1; by constructor. Qed.

(** In a store reached by runs that all returned, the index lists the
    version of every record of every partition, under the country and
    the year-month of the partition. *)
Theorem index_complete_while_runs_return self c ym r :
  reachable_by returns base self -> String.length ym = 7%nat ->
  r ∈ partition_records self base c ym ->
  index_has self base (version_of r) c ym.
Proof.
  intros Hreach. revert c ym r.
  induction Hreach as [|self reviews now Hreach IH Hret]; intros c ym r Hlen Hr.
  { unfold partition_records in Hr. rewrite lookup_empty in Hr.
    by apply elem_of_nil in Hr. }
  unfold returns in Hret.
  destruct (run_writes fromisoformat base self reviews now)
    as (infos & Hnd & Hidx & Hw & [[_ [e He]]|[Hs _]]); [congruence|].
  rewrite Hs in Hr |- *. unfold index_has. rewrite index_versions_insert.
  rewrite insert_index_partition_records in Hr by done.
  apply partition_records_elem in Hr as (l & Hl & Hr).
  apply write_all_doc in Hl; [|done].
  destruct Hl as [[_ Hl]|(info & Hin & Hp & [= ->])].
  - apply index_files_mono. apply IH; [done|].
    by rewrite (partition_records_doc _ _ _ _ _ Hl).
  - rewrite Forall_forall in Hw. destruct (Hw _ Hin) as (Hlen' & Hpath & _).
    rewrite Hpath in Hp. apply partition_path_inj in Hp as [-> ->]; [|done..].
    apply list_elem_of_fmap in Hr as (r0 & -> & Hr0).
    rewrite json_review_version. by apply index_files_has.
Qed.

(** *** With dates normalised to UTC, every partition is sorted *)

Local Abbreviation sorted_ok := (fun self : store =>
  forall p l, self !! p = Some (Reviews l) -> StronglySorted date_ge l).

Lemma stored_valid (l : list review) :
  Forall (fun r => exists s, r_date r = DateStr s) l -> Forall utc_normalized l.
Proof.
  intros H. eapply Forall_impl; [exact H|].
  intros r [s Hs]. unfold utc_normalized. by rewrite Hs.
Qed.

Lemma utc_normalized_valid r : utc_normalized r -> valid_review r.
Proof. unfold utc_normalized, valid_review, valid_date. destruct (r_date r); tauto. Qed.

Lemma written_sorted self reviews info :
  reachable self -> Forall utc_normalized reviews -> written self reviews info ->
  StronglySorted date_ge (map json_review (info_reviews info)).
Proof.
  intros Hreach Hu (_ & _ & news & Hm & Hnews).
  pose proof (merge_reviews_perm _ _ _ Hm) as Hp.
  apply merge_reviews_Ok in Hm as (E & Hc & _).
  set (unsorted := _ ++ _) in *.
  assert (Hun : Forall utc_normalized unsorted).
  { apply Forall_app. split.
    - apply stored_valid. apply Forall_forall. intros x Hx.
      apply partition_records_elem in Hx as (l & Hl & Hx).
      destruct (reachable_docs_ok _ _ _ Hreach _ _ Hl) as [_ Hd].
      rewrite Forall_forall in Hd. auto.
    - apply Forall_forall. intros x [Hx _]%elem_of_fresh_reviews.
      rewrite Forall_forall in Hnews, Hu. destruct (Hnews _ Hx). auto. }
  assert (Hum : Forall utc_normalized (info_reviews info))
    by (eapply Permutation_Forall; [symmetry; exact Hp|exact Hun]).
  assert (Hcm : comparable_keys (info_reviews info) = true)
    by (eapply comparable_keys_perm; [symmetry; exact Hp|exact Hc]).
  apply sorted_date_ge_strongly.
  - apply Forall_fmap, Forall_forall. intros r _.
    unfold valid_review. cbn. by destruct (r_date r).
  - by apply comparable_keys_json.
  - apply Sorted_json; [done..|]. rewrite E. apply sort_desc_sorted.
Qed.

Lemma reachable_by_normalized_sorted_ok self :
  reachable_by normalized base self -> sorted_ok self.
Proof.
  induction 1 as [|self reviews now Hreach IH Hu].
  - intros p l H. by rewrite lookup_empty in H.
  - apply reachable_by_reachable in Hreach. unfold normalized in Hu.
    assert (Hw : forall infos, NoDup (map info_path infos) ->
              Forall (written self reviews) infos -> sorted_ok (write_all self infos)).
    { intros infos Hnd Hwr p l Hl. apply write_all_doc in Hl; [|done].
      destruct Hl as [[_ Hl]|(info & Hin & _ & [= ->])]; [by eapply IH|].
      rewrite Forall_forall in Hwr.
      apply (written_sorted self reviews info Hreach Hu). by apply Hwr. }
    destruct (run_writes fromisoformat base self reviews now)
      as (infos & Hnd & Hidx & Hwr & [[-> _]|[-> _]]); [by apply Hw|].
    intros p l. destruct (decide (index_path base = p)) as [<-|Hne].
    + by rewrite lookup_insert_eq.
    + rewrite lookup_insert_ne by done. by apply Hw.
Qed.


End IndexInvariants.

(** ** The order in which the versions of a file are visited *)

(** The versions of a file are a Python set, visited in an order the
    language does not fix.  Whatever the order, the index a file leaves
    is the same: every list of the versions of the file, each listed
    once, gives the index that [index_file] computes. *)
Theorem index_file_any_order vs info (visited : list string) :
  NoDup visited ->
  (forall v, v ∈ visited <-> exists r, r ∈ info_reviews info /\ version_of r = v) ->
  foldl (fun acc v => add_ym acc v (info_country info) (info_ym info)) vs visited
  = index_file vs info.
Proof.
  intros Hnd Hv. unfold index_file. apply foldl_add_ym_perm.
  apply NoDup_Permutation; [done|apply NoDup_remove_dups|].
  intros v. rewrite Hv. unfold versions_in_file.
  rewrite elem_of_remove_dups, list_elem_of_fmap.
  split; [intros (r & Hr & <-)|intros (r & -> & Hr)]; eauto.
Qed.

(** ** The paths of the store *)

(** Two groups are stored at the same path only when they are the same
    group, and no group is stored at the path of the index, whatever
    characters the country and the base path hold. *)
Theorem group_paths_distinct fromisoformat base r1 r2 k1 k2 :
  key_of fromisoformat r1 = Some k1 -> key_of fromisoformat r2 = Some k2 ->
  (partition_path base k1.1 k1.2 = partition_path base k2.1 k2.2 <-> k1 = k2) /\
  partition_path base k1.1 k1.2 ≠ index_path base.
Proof.
  destruct k1 as [c1 ym1], k2 as [c2 ym2]. intros H1%key_of_length H2%key_of_length. cbn.
  split; [split|].
  - by intros [-> ->]%partition_path_inj.
  - by intros [= -> ->].
  - by apply partition_path_not_index.
Qed.

(** ** The fetchers *)

Section FetcherFacts.

Variable fromisoformat : string -> option datetime.
Variable astimezone_utc : datetime -> datetime.
Variable int_of_str : string -> option Z.

Local Abbreviation ios_review := (ios_review fromisoformat astimezone_utc int_of_str).
Local Abbreviation xml_loop := (xml_loop fromisoformat astimezone_utc int_of_str).
Local Abbreviation fetch_ios_reviews_xml :=
  (fetch_ios_reviews_xml fromisoformat astimezone_utc int_of_str).
Local Abbreviation fetch_ios_reviews :=
  (fetch_ios_reviews fromisoformat astimezone_utc int_of_str).
Local Abbreviation fetch_android_reviews := (fetch_android_reviews astimezone_utc).
Local Abbreviation json_entry := (json_entry int_of_str).
Local Abbreviation json_entries := (json_entries int_of_str).
Local Abbreviation json_feed := (json_feed int_of_str).

(** *** The Atom feed: how many reviews *)

Lemma xml_loop_length now_utc country count i entries acc l :
  xml_loop now_utc country count i entries acc = Ok l ->
  l = acc \/ Z.of_nat (length l) <= Z.max (Z.of_nat (length acc) + 1) count.
Proof.
  revert i acc. induction entries as [|entry rest IH]; intros i acc; cbn [xml_loop].
  - intros [= <-]. by left.
  - destruct (e_rating entry) as [t|]; [|apply IH].
    destruct (ios_review country entry t (now_utc i)) as [r|e]; [|done]. cbn.
    case_bool_decide as Hc.
    + intros [= <-]. right. rewrite length_app. cbn. lia.
    + intros [->|Hl]%IH; right; rewrite ?length_app in *; cbn in *; lia.
Qed.

(** The Atom fetcher returns at most [count] reviews, and at most one
    when [count] is smaller than one: the limit is tested after a review
    has been appended. *)
Theorem fetch_ios_reviews_xml_at_most feed now_utc country count :
  Z.of_nat (length (fetch_ios_reviews_xml feed now_utc country count)) <= Z.max 1 count.
Proof.
  unfold fetch_ios_reviews_xml. destruct feed as [entries|]; [|cbn; lia].
  destruct (xml_loop now_utc country count 0 entries []) as [l|e] eqn:E; [|cbn; lia].
  apply xml_loop_length in E as [->|E]; cbn in *; lia.
Qed.

Lemma xml_loop_unrated now_utc country count i pre rest acc :
  Forall (fun entry => e_rating entry = None) pre ->
  xml_loop now_utc country count i (pre ++ rest) acc
  = xml_loop now_utc country count (i + length pre) rest acc.
Proof.
  intros H. revert i. induction H as [|entry pre He _ IH]; intros i; cbn [app xml_loop length].
  - by rewrite Nat.add_0_r.
  - rewrite He, IH. f_equal. lia.
Qed.

(** A limit of one or less, zero included, gives the first review of the
    feed, not an empty list. *)
Theorem fetch_ios_reviews_xml_first pre entry post now_utc country count text r :
  Forall (fun e => e_rating e = None) pre ->
  e_rating entry = Some text ->
  ios_review country entry text (now_utc (length pre)) = Ok r ->
  count <= 1 ->
  fetch_ios_reviews_xml (Some (pre ++ entry :: post)) now_utc country count = [r].
Proof.
  intros Hpre He Hr Hc. unfold fetch_ios_reviews_xml.
  rewrite xml_loop_unrated by done. cbn [xml_loop Nat.add].
  rewrite He, Hr. cbn. rewrite bool_decide_eq_true_2 by lia. done.
Qed.

(** *** The Atom feed: an entry that does not parse *)

Lemma xml_loop_raises now_utc country count i pre bad post acc text e :
  e_rating bad = Some text ->
  ios_review country bad text (now_utc (i + length pre)%nat) = Raise e ->
  Z.of_nat (length acc + length (List.filter (fun x => bool_decide (is_Some (e_rating x))) pre))
    < count \/
  List.filter (fun x => bool_decide (is_Some (e_rating x))) pre = [] ->
  exists e', xml_loop now_utc country count i (pre ++ bad :: post) acc = Raise e'.
Proof.
  intros Hb Hr. revert i acc Hr.
  induction pre as [|x pre IH]; intros i acc Hr Hc; cbn [app xml_loop].
  - rewrite Nat.add_0_r in Hr. rewrite Hb, Hr. cbn. eauto.
  - cbn [length] in Hr. replace (i + S (length pre))%nat with (S i + length pre)%nat in Hr by lia.
    cbn [List.filter] in Hc.
    destruct (e_rating x) as [tx|] eqn:Hx.
    + rewrite bool_decide_eq_true_2 in Hc by eauto.
      destruct Hc as [Hc|Hc]; [|done]. cbn [length] in Hc.
      destruct (ios_review country x tx (now_utc i)) as [rx|ex]; cbn; [|eauto].
      rewrite bool_decide_eq_false_2 by (rewrite length_app; cbn; lia).
      apply IH; [done|]. left. rewrite length_app. cbn. lia.
    + rewrite bool_decide_eq_false_2 in Hc by (by intros [? ?]).
      by apply IH.
Qed.

(** One entry that does not parse loses the whole feed.  When the loop
    reaches an entry with a rating that lacks one of the elements the
    fetcher reads, or whose rating is not a number, the fetcher returns
    the empty list: the reviews it had read before are not returned. *)
Theorem fetch_ios_reviews_xml_all_or_nothing pre bad post now_utc country count text e :
  e_rating bad = Some text ->
  ios_review country bad text (now_utc (length pre)) = Raise e ->
  Z.of_nat (length (List.filter (fun x => bool_decide (is_Some (e_rating x))) pre))
    < Z.max 1 count ->
  fetch_ios_reviews_xml (Some (pre ++ bad :: post)) now_utc country count = [].
Proof.
  intros Hb Hr Hc. unfold fetch_ios_reviews_xml.
  destruct (xml_loop_raises now_utc country count 0 pre bad post [] text e Hb Hr) as [e' ->];
    [|done].
  cbn [length Nat.add].
  destruct (List.filter _ pre) as [|? ?]; [by right|left]. cbn [length] in *. lia.
Qed.

(** *** What holds of every review of the Atom fetcher *)

Lemma xml_loop_Forall (P : review -> Prop) now_utc country count i entries acc l :
  (forall entry text j r, ios_review country entry text (now_utc j) = Ok r -> P r) ->
  xml_loop now_utc country count i entries acc = Ok l ->
  exists l', l = acc ++ l' /\ Forall P l'.
Proof.
  intros HP. revert i acc.
  induction entries as [|entry rest IH]; intros i acc; cbn [xml_loop].
  - intros [= <-]. exists []. by rewrite app_nil_r.
  - destruct (e_rating entry) as [t|]; [|apply IH].
    destruct (ios_review country entry t (now_utc i)) as [r|e] eqn:Hr; [|done]. cbn.
    apply HP in Hr.
    case_bool_decide.
    + intros [= <-]. exists [r]. split; [done|]. by constructor.
    + intros (l' & -> & Hl')%IH. exists (r :: l'). rewrite <- app_assoc.
      split; [done|]. by constructor.
Qed.

Lemma fetch_ios_reviews_xml_Forall (P : review -> Prop) feed now_utc country count :
  (forall entry text j r, ios_review country entry text (now_utc j) = Ok r -> P r) ->
  Forall P (fetch_ios_reviews_xml feed now_utc country count).
Proof.
  intros HP. unfold fetch_ios_reviews_xml.
  destruct feed as [entries|]; [|constructor].
  destruct (xml_loop now_utc country count 0 entries []) as [l|e] eqn:E; [|constructor].
  by apply (xml_loop_Forall P) in E as (l' & -> & Hl').
Qed.

Lemma fetch_ios_reviews_cases response feed now_utc country count :
  fetch_ios_reviews response feed now_utc country count = [] \/
  fetch_ios_reviews response feed now_utc country count
  = fetch_ios_reviews_xml feed now_utc country count.
Proof.
  unfold fetch_ios_reviews. destruct response as [data|]; [|by left].
  destruct (json_feed data); [by right|by left].
Qed.

Lemma fetch_ios_reviews_Forall (P : review -> Prop) response feed now_utc country count :
  (forall entry text j r, ios_review country entry text (now_utc j) = Ok r -> P r) ->
  Forall P (fetch_ios_reviews response feed now_utc country count).
Proof.
  intros HP. destruct (fetch_ios_reviews_cases response feed now_utc country count) as [->| ->];
    [constructor|by apply fetch_ios_reviews_xml_Forall].
Qed.

Lemma ios_review_dated country entry text now r :
  ios_review country entry text now = Ok r -> exists d, r_date r = DateTime d.
Proof.
  unfold ios_review.
  destruct (e_id entry) as [rid|]; [|done]. cbn.
  destruct (e_updated entry) as [up|]; [|done]. cbn.
  destruct (e_author entry) as [[name|]|]; [|done..]. cbn.
  destruct (e_title entry) as [title|]; [|done]. cbn.
  destruct (e_content entry) as [content|]; [|done]. cbn.
  destruct (int_of_text int_of_str text) as [rating|]; [|done]. cbn.
  destruct (e_version entry) as [version|]; [|done]. cbn.
  intros [= <-]. cbn. eauto.
Qed.

(** *** The dates of the reviews *)

Section Dates.

(** What the library promises: [astimezone(timezone.utc)] and
    [now(timezone.utc)] return datetimes whose [tzinfo] is UTC. *)
Hypothesis astimezone_utc_tzinfo : forall d, tzinfo (astimezone_utc d) = Some 0.

Lemma ensure_utc_tzinfo d : tzinfo (ensure_utc astimezone_utc d) = Some 0.
Proof. unfold ensure_utc. by destruct (tzinfo d). Qed.

Lemma ios_review_date country entry text now r :
  tzinfo now = Some 0 ->
  ios_review country entry text now = Ok r ->
  r_country r = country /\ r_source r = "ios" /\
  exists d, r_date r = DateTime d /\ tzinfo d = Some 0.
Proof.
  intros Hnow. unfold ios_review.
  destruct (e_id entry) as [rid|]; [|done]. cbn.
  destruct (e_updated entry) as [up|]; [|done]. cbn.
  destruct (e_author entry) as [[name|]|]; [|done..]. cbn.
  destruct (e_title entry) as [title|]; [|done]. cbn.
  destruct (e_content entry) as [content|]; [|done]. cbn.
  destruct (int_of_text int_of_str text) as [rating|]; [|done]. cbn.
  destruct (e_version entry) as [version|]; [|done]. cbn.
  intros [= <-]. cbn. split_and!; [done..|]. eexists. split; [done|].
  unfold updated_date, entry_date. destruct up as [s|]; [|done].
  destruct (fromisoformat s); [apply ensure_utc_tzinfo|done].
Qed.

Lemma xml_loop_dates now_utc country count i entries acc l :
  (forall j, tzinfo (now_utc j) = Some 0) ->
  xml_loop now_utc country count i entries acc = Ok l ->
  exists l', l = acc ++ l' /\
    Forall (fun r => r_country r = country /\ r_source r = "ios" /\
                     exists d, r_date r = DateTime d /\ tzinfo d = Some 0) l'.
Proof.
  intros Hnow. apply xml_loop_Forall. intros entry t j r Hr.
  by apply ios_review_date in Hr.
Qed.

(** Every review of the Atom fetcher is a review of the country asked
    for, from source ["ios"], dated by a datetime whose [tzinfo] is UTC:
    the date of the entry converted to UTC, or the time of the fetch when
    the entry has no date that parses. *)
Theorem fetch_ios_reviews_xml_dates feed now_utc country count r :
  (forall j, tzinfo (now_utc j) = Some 0) ->
  r ∈ fetch_ios_reviews_xml feed now_utc country count ->
  r_country r = country /\ r_source r = "ios" /\
  exists d, r_date r = DateTime d /\ tzinfo d = Some 0.
Proof.
  intros Hnow. unfold fetch_ios_reviews_xml.
  destruct feed as [entries|]; [|by intros ?%elem_of_nil].
  destruct (xml_loop now_utc country count 0 entries []) as [l|e] eqn:E;
    [|by intros ?%elem_of_nil].
  apply xml_loop_dates in E as (l' & -> & Hl'); [|done]. cbn.
  rewrite Forall_forall in Hl'. auto.
Qed.

End Dates.

(** *** The JSON feed *)

Lemma json_entries_key_raises items :
  "im:rating" ∈ map fst items ->
  exists e, json_entries (map (fun kv : string * json => JStr kv.1) items) = Raise e.
Proof.
  induction items as [|[k v] items IH]; cbn [map fst json_entries];
    [by intros ?%elem_of_nil|].
  intros Hin. unfold json_entry at 1. cbn [contains]. cbn [mbind result_bind].
  destruct (is_substring "im:rating" k) eqn:Hk; cbn; [eauto|].
  apply elem_of_cons in Hin as [<-|Hin]; [done|]. by apply IH.
Qed.

(** A feed whose [entry] is a single object rather than an array of
    objects gives no review at all: the loop of the JSON fetcher then
    visits the keys of the object, the key ["im:rating"] is taken for a
    rated entry, [get] is called on a str, and the fetcher returns the
    empty list without asking for the Atom feed. *)
Theorem fetch_ios_reviews_single_entry data feed_items entry_items feed now_utc country count :
  dict_get data "feed" (JDict []) = Ok (JDict feed_items) ->
  dict_lookup "entry" feed_items = Some (JDict entry_items) ->
  "im:rating" ∈ map fst entry_items ->
  fetch_ios_reviews (Some data) feed now_utc country count = [].
Proof.
  intros Hfeed Hentry Hkey. unfold fetch_ios_reviews, json_feed.
  rewrite Hfeed. cbn. rewrite Hentry. cbn.
  by destruct (json_entries_key_raises entry_items Hkey) as [e ->].
Qed.

(** *** The Play Store *)


End FetcherFacts.

(** ** [main]: from the fetchers to the store *)

Section MainFacts.

Variable fromisoformat : string -> option datetime.
Variable astimezone_utc : datetime -> datetime.
Variable int_of_str : string -> option Z.

Local Abbreviation ios_review := (ios_review fromisoformat astimezone_utc int_of_str).
Local Abbreviation fetch_ios_reviews :=
  (fetch_ios_reviews fromisoformat astimezone_utc int_of_str).
Local Abbreviation fetch_android_reviews := (fetch_android_reviews astimezone_utc).
Local Abbreviation fetch_country := (fetch_country fromisoformat astimezone_utc int_of_str).
Local Abbreviation fetch_all := (fetch_all fromisoformat astimezone_utc int_of_str).
Local Abbreviation main := (main fromisoformat astimezone_utc int_of_str).
Local Abbreviation save_reviews := (save_reviews fromisoformat).
Local Abbreviation group_loop := (group_loop fromisoformat).
Local Abbreviation key_of := (key_of fromisoformat).

(** The reviews one app and one country bring. *)
Local Abbreviation fetched_for := (fun (net : network) (a : app_entry) (country : string) =>
  match app_ios_id a with
  | Some ios_id =>
      fetch_ios_reviews (ios_json net ios_id country) (ios_xml net ios_id country)
                        (ios_clock net ios_id country) country 200
  | None => []
  end ++
  match app_android_id a with
  | Some android_id => fetch_android_reviews (gps net android_id) country 200
  | None => []
  end).

Lemma fetch_country_app net a all_reviews country :
  fetch_country net a all_reviews country = all_reviews ++ fetched_for net a country.
Proof.
  unfold fetch_country.
  destruct (app_ios_id a), (app_android_id a); by rewrite ?app_nil_r, <- ?app_assoc.
Qed.

Lemma foldl_fetch_country net a all_reviews countries :
  foldl (fetch_country net a) all_reviews countries
  = all_reviews ++ concat (map (fetched_for net a) countries).
Proof.
  revert all_reviews. induction countries as [|c countries IH]; intros all_reviews; cbn.
  - by rewrite app_nil_r.
  - by rewrite IH, fetch_country_app, <- app_assoc.
Qed.

Lemma fetch_all_concat net apps :
  fetch_all net apps
  = concat (map (fun a => concat (map (fetched_for net a) (app_countries a))) apps).
Proof.
  unfold fetch_all.
  enough (forall acc, foldl (fun all_reviews a =>
                        foldl (fetch_country net a) all_reviews (app_countries a)) acc apps
            = acc ++ concat (map (fun a => concat (map (fetched_for net a) (app_countries a)))
                                 apps)) as H by apply (H []).
  induction apps as [|a apps IH]; intros acc; cbn.
  - by rewrite app_nil_r.
  - by rewrite IH, foldl_fetch_country, <- app_assoc.
Qed.

Lemma elem_of_concat {A : Type} (x : A) (ls : list (list A)) :
  x ∈ concat ls <-> exists l, x ∈ l /\ l ∈ ls.
Proof.
  rewrite list_elem_of_In, in_concat. split; intros (l & H1 & H2); exists l;
    by rewrite ?list_elem_of_In in *.
Qed.

Lemma elem_of_fetch_all net apps r :
  r ∈ fetch_all net apps <->
  exists a country, a ∈ apps /\ country ∈ app_countries a /\ r ∈ fetched_for net a country.
Proof.
  rewrite fetch_all_concat, elem_of_concat. split.
  - intros (l & Hr & (a & -> & Ha)%list_elem_of_fmap).
    apply elem_of_concat in Hr as (l' & Hr & (c & -> & Hc)%list_elem_of_fmap). eauto.
  - intros (a & c & Ha & Hc & Hr).
    exists (concat (map (fetched_for net a) (app_countries a))). split.
    + apply elem_of_concat. exists (fetched_for net a c). split; [exact Hr|].
      apply list_elem_of_fmap. by exists c.
    + apply list_elem_of_fmap. by exists a.
Qed.

Lemma fetch_all_Forall (P : review -> Prop) net apps :
  (forall a country, a ∈ apps -> country ∈ app_countries a ->
     Forall P (fetched_for net a country)) ->
  Forall P (fetch_all net apps).
Proof.
  intros H. apply Forall_forall. intros r (a & c & Ha & Hc & Hr)%elem_of_fetch_all.
  specialize (H a c Ha Hc). rewrite Forall_forall in H. auto.
Qed.

(** *** Nothing fetched *)

(** When every request fails, [main] returns without touching the store:
    no partition is written, and the index keeps its [updated_at], which
    an ingestion of the empty batch would have moved. *)
Theorem main_nothing_fetched net apps base self now :
  (forall ios_id country, ios_json net ios_id country = None) ->
  (forall android_id lang country count, gps net android_id lang country count = None) ->
  main net apps base self now = (self, Ok tt).
Proof.
  intros Hios Hgps. unfold main.
  assert (H : Forall (fun _ : review => False) (fetch_all net apps)).
  { apply fetch_all_Forall. intros a c _ _.
    destruct (app_ios_id a) as [i|], (app_android_id a) as [j|]; cbn;
      unfold fetch_ios_reviews, fetch_android_reviews;
      rewrite ?Hios, ?Hgps; constructor. }
  destruct (fetch_all net apps); [done|]. by apply Forall_cons in H as [[] _].
Qed.

(** *** A first run *)

Lemma android_review_fetched country g :
  (forall d, tzinfo (astimezone_utc d) = Some 0) ->
  is_Some (g_at g) ->
  fetched (ensure_version (android_review astimezone_utc country g)).
Proof.
  intros Htz [d Hd]. exists (ensure_utc astimezone_utc d), 0.
  split; [|by apply ensure_utc_tzinfo].
  unfold ensure_version, android_review. rewrite Hd. cbn.
  by destruct (default _ _).
Qed.

(** A first run of [main] returns.  With the datetimes of the library at
    UTC and a date on every result of the Play Store scraper, every
    review the fetchers bring is dated by an aware datetime, and their
    ingestion into the empty store goes through, whatever the feeds
    hold. *)
Theorem main_first_run_returns net apps base now :
  (forall d, tzinfo (astimezone_utc d) = Some 0) ->
  (forall ios_id country j, tzinfo (ios_clock net ios_id country j) = Some 0) ->
  (forall android_id lang country count result g,
     gps net android_id lang country count = Some result -> g ∈ result ->
     is_Some (g_at g)) ->
  (main net apps base ∅ now).2 = Ok tt.
Proof.
  intros Htz Hclock Hat. unfold main.
  assert (Hf : Forall fetched (fetch_all net apps)).
  { apply fetch_all_Forall. intros a c _ _. apply Forall_app. split.
    - destruct (app_ios_id a) as [i|]; [|constructor].
      apply fetch_ios_reviews_Forall. intros entry text j r Hr.
      apply ios_review_date in Hr as (_ & _ & d & Hd & Hd0); [|done..].
      by exists d, 0.
    - destruct (app_android_id a) as [i|]; [|constructor].
      unfold fetch_android_reviews.
      destruct (gps net i (android_lang c) c 200) as [result|] eqn:Hg; [|constructor].
      rewrite <- list_fmap_compose. apply Forall_fmap, Forall_forall. intros g Hin. cbn.
      apply android_review_fetched; [done|]. by eapply Hat. }
  enough (Hrun : forall batch, Forall fetched batch ->
                   (save_reviews ∅ batch base now).2 = Ok tt).
  { destruct (fetch_all net apps) as [|r0 reviews]; [done|]. by apply Hrun. }
  clear Hf. intros batch Hf.
  assert (Hkeys : Forall (fun r => is_Some (key_of r)) batch).
  { eapply Forall_impl; [exact Hf|]. intros r (d & off & Hd & _).
    unfold key_of, date_of_review. rewrite Hd. eauto. }
  destruct (group_loop_total fromisoformat [] _ Hkeys) as [g Hg].
  rewrite (save_reviews_empty_store _ _ _ _ _ Hg).
  rewrite plan_no_stop; [done|].
  destruct (group_loop_spec fromisoformat [] _ g (NoDup_nil_2) Hg) as (_ & _ & Hgroups & _).
  apply Forall_forall. intros [k news] Hin. rewrite merged_group_empty. cbn.
  apply merge_fetched.
  destruct (Hgroups _ _ Hin) as (l0 & [?%elem_of_nil|[-> _]] & ->); [done|]. cbn.
  apply Forall_forall. intros r Hr%list_elem_of_In. apply filter_In in Hr as [Hr _].
  rewrite Forall_forall in Hf. by apply Hf, list_elem_of_In.
Qed.

(** *** A review without a date *)

Lemma group_loop_undated g0 reviews :
  Forall (fun r => r_date r = DateNone \/ exists d, r_date r = DateTime d) reviews ->
  Exists (fun r => r_date r = DateNone) reviews ->
  group_loop g0 reviews = Raise AttributeError.
Proof.
  intros Hall Hex. revert g0.
  induction Hall as [|r reviews Hr Hall IH]; intros g0; [by apply Exists_nil in Hex|].
  cbn [group_loop]. unfold date_of_review.
  destruct Hr as [Hr|[d Hr]]; rewrite Hr; [done|]. cbn.
  apply Exists_cons in Hex as [Hex|Hex]; [congruence|]. by apply IH.
Qed.

(** One Play Store result without ['at'] makes the whole run fail.  The
    Android fetcher passes the review on with [None] as its date,
    [save_reviews] raises [AttributeError] on it while grouping, and
    nothing is stored: not the review, and none of the other reviews of
    the run, of whatever app, country or source. *)
Theorem main_android_review_without_date net apps base self now
    a country android_id result g :
  a ∈ apps -> country ∈ app_countries a -> app_android_id a = Some android_id ->
  gps net android_id (android_lang country) country 200 = Some result ->
  g ∈ result -> g_at g = None ->
  main net apps base self now = (self, Raise AttributeError).
Proof.
  intros Ha Hc Hid Hg Hin Hat. unfold main.
  set (bad := ensure_version (android_review astimezone_utc country g)).
  assert (Hbad : bad ∈ fetch_all net apps).
  { apply elem_of_fetch_all. exists a, country. split_and!; [done..|].
    apply elem_of_app. right. rewrite Hid. unfold fetch_android_reviews. rewrite Hg.
    rewrite <- list_fmap_compose. apply list_elem_of_fmap. by exists g. }
  assert (Hnone : r_date bad = DateNone).
  { unfold bad, ensure_version, android_review. rewrite Hat. cbn. by destruct (default _ _). }
  assert (Hall : Forall (fun r => r_date r = DateNone \/ exists d, r_date r = DateTime d)
                        (fetch_all net apps)).
  { apply fetch_all_Forall. intros a' c' _ _. apply Forall_app. split.
    - destruct (app_ios_id a') as [i|]; [|constructor].
      apply fetch_ios_reviews_Forall. intros entry text j r Hr. right.
      by eapply ios_review_dated.
    - destruct (app_android_id a') as [i|]; [|constructor].
      unfold fetch_android_reviews.
      destruct (gps net i (android_lang c') c' 200) as [result'|]; [|constructor].
      rewrite <- list_fmap_compose. apply Forall_fmap, Forall_forall. intros g' _. cbn.
      unfold ensure_version, android_review.
      destruct (g_at g'), (default _ _); cbn; eauto. }
  destruct (fetch_all net apps) as [|r0 reviews] eqn:E; [by apply elem_of_nil in Hbad|].
  unfold save_reviews.
  rewrite group_loop_undated; [done|done|].
  apply Exists_exists. by exists bad.
Qed.

End MainFacts.

(** ** The viewer: the files it loads *)

Lemma month_loop_step c e cur files :
  month_loop c e cur files =
  if date_le cur e then
    match next_month cur with
    | Raise x => Raise x
    | Ok next =>
        month_loop c e next
          ({[BASE_PATH +:+ "/" +:+ c +:+ "/" +:+ date_strftime_Y_m cur +:+ ".json"]} ∪ files)
    end
  else Ok files.
Proof.
  rewrite month_loop_equation_1. unfold month_loop_unfold_clause_1.
  destruct (inspect (date_le cur e)) as [[|] Hb]; [|by rewrite Hb].
  etransitivity; [|by rewrite Hb].
  unfold month_loop_unfold_clause_1_clause_2.
  destruct (inspect (next_month cur)) as [[next|x] Hn]; by rewrite Hn.
Qed.

Lemma days_in_month_bounds y m : 28 <= days_in_month y m <= 31.
Proof.
  unfold days_in_month. case_decide; [destruct (is_leap y); lia|].
  case_bool_decide; lia.
Qed.

(** The first day of a month against a date: the months decide. *)
Lemma date_le_first cy cm e :
  1 <= d_day e ->
  date_le (mkdate cy cm 1) e = true <->
  cy < d_year e \/ (cy = d_year e /\ cm <= d_month e).
Proof.
  intros Hd. unfold date_le. cbn [lex_compare d_year d_month d_day].
  destruct (Z.compare_spec cy (d_year e));
    [|split; [intros _; by left|done]|split; [done|intros [?|[? _]]; exfalso; lia]].
  destruct (Z.compare_spec cm (d_month e));
    [|split; [intros _; right; lia|done]|split; [done|intros [?|[_ ?]]; exfalso; lia]].
  destruct (Z.compare_spec 1 (d_day e)); [..|exfalso; lia];
    (split; [intros _; right; lia|done]).
Qed.

Lemma make_date_first y m :
  1 <= y <= 9999 -> 1 <= m <= 12 -> make_date y m 1 = Ok (mkdate y m 1).
Proof.
  intros Hy Hm. unfold make_date. rewrite bool_decide_eq_true_2; [done|].
  pose proof (days_in_month_bounds y m). unfold valid_ymd. lia.
Qed.

(** The loop from the first day of a month: one path for each month up
    to the month of [end_date]. *)
Lemma month_loop_range c e cy cm files :
  valid e -> d_year e < 9999 -> 1 <= cy -> 1 <= cm <= 12 ->
  exists out,
    month_loop c e (mkdate cy cm 1) files = Ok out /\
    forall p, p ∈ out <->
      p ∈ files \/
      exists y m, 1 <= m <= 12 /\
        cy * 12 + cm <= y * 12 + m <= d_year e * 12 + d_month e /\
        p = partition_path BASE_PATH c (zpad 4 y +:+ "/" +:+ zpad 2 m).
Proof.
  intros (Hey & Hem & Hed) Hmax.
  remember (Z.to_nat (d_year e * 12 + d_month e - (cy * 12 + cm) + 1)) as n eqn:Hn.
  revert cy cm files Hn. induction n as [|n IH]; intros cy cm files Hn Hcy Hcm;
    rewrite month_loop_step.
  - assert (Hle : date_le (mkdate cy cm 1) e = false).
    { apply not_true_is_false. rewrite date_le_first by lia. lia. }
    rewrite Hle. exists files. split; [done|]. intros p. split; [by left|].
    intros [?|(y & m & ? & ? & _)]; [done|lia].
  - assert (Hle : date_le (mkdate cy cm 1) e = true).
    { apply date_le_first; lia. }
    rewrite Hle.
    assert (Hcye : cy <= d_year e) by (apply date_le_first in Hle; lia).
    set (here := BASE_PATH +:+ "/" +:+ c +:+ "/" +:+ date_strftime_Y_m (mkdate cy cm 1)
                 +:+ ".json").
    assert (exists ny nm, next_month (mkdate cy cm 1) = Ok (mkdate ny nm 1) /\
              1 <= ny /\ 1 <= nm <= 12 /\ ny * 12 + nm = cy * 12 + cm + 1)
      as (ny & nm & -> & Hny & Hnm & Hnext).
    { unfold next_month. cbn. case_decide as Hc.
      - exists (cy + 1), 1. rewrite make_date_first by lia. split_and!; try done; lia.
      - exists cy, (cm + 1). rewrite make_date_first by lia. split_and!; try done; lia. }
    destruct (IH ny nm ({[here]} ∪ files)) as (out & -> & Hout); [lia|done..|].
    exists out. split; [done|]. intros p. rewrite Hout, elem_of_union, elem_of_singleton.
    split.
    + intros [[->|?]|(y & m & ? & ? & ->)]; [|by left|].
      * right. exists cy, cm. split_and!; [lia..|done].
      * right. exists y, m. split_and!; [lia..|done].
    + intros [?|(y & m & Hm & Hr & ->)]; [by left; right|].
      destruct (decide (y * 12 + m = cy * 12 + cm)) as [E|E].
      * left. left. assert (y = cy /\ m = cm) as [-> ->] by lia. done.
      * right. exists y, m. split_and!; [lia..|done].
Qed.

(** Without a version chosen the viewer loads one file for each month
    from the month of the start date to the month of the end date, both
    included, and no other; each is the path at which the collector
    stores the partition of the country and that month.  The days of the
    two dates play no part.  The years are those ['%Y'] prints with four
    digits, and the end date lies before the last year of [date]. *)
Theorem files_of_date_range versions country selected_version start_date end_date :
  valid start_date -> 1000 <= d_year start_date ->
  valid end_date -> d_year end_date < 9999 ->
  exists files,
    files_to_load versions country false selected_version start_date end_date = Ok files /\
    forall p, p ∈ files <->
      exists y m, 1 <= m <= 12 /\
        d_year start_date * 12 + d_month start_date <= y * 12 + m
          <= d_year end_date * 12 + d_month end_date /\
        p = partition_path BASE_PATH country (zpad 4 y +:+ "/" +:+ zpad 2 m).
Proof.
  intros (Hy & Hm & Hd) _ He Hmax.
  assert (files_to_load versions country false selected_version start_date end_date
          = month_loop country end_date (mkdate (d_year start_date) (d_month start_date) 1) ∅)
    as ->.
  { unfold files_to_load. destruct selected_version; cbn; by rewrite make_date_first. }
  destruct (month_loop_range country end_date (d_year start_date) (d_month start_date) ∅)
    as (out & -> & Hout); [done|lia..|].
  exists out. split; [done|]. intros p. rewrite Hout. split; [|by right].
  by intros [?%not_elem_of_empty|?].
Qed.

(** *** The default dates of the sidebar *)

Lemma days_in_month_values y :
  days_in_month y 1 = 31 /\ days_in_month y 2 = (if is_leap y then 29 else 28) /\
  days_in_month y 3 = 31 /\ days_in_month y 4 = 30 /\ days_in_month y 5 = 31 /\
  days_in_month y 6 = 30 /\ days_in_month y 7 = 31 /\ days_in_month y 8 = 31 /\
  days_in_month y 9 = 30 /\ days_in_month y 10 = 31 /\ days_in_month y 11 = 30 /\
  days_in_month y 12 = 31.
Proof. repeat split; vm_compute; reflexivity. Qed.

(** The default start date is today's date with the month before, in the
    same year.  For a day the month before does not have, [replace]
    raises [ValueError] and the page does not load: on the 31st of
    March, May, July, October and December, on 30 March, and on 29 March
    when the year is not a leap year.  On every other day it is a date. *)
Theorem default_start_date_raises today :
  valid today ->
  (default_start_date today = Raise ValueError <->
   (d_day today = 31 /\ d_month today ∈ [3; 5; 7; 10; 12]) \/
   (d_month today = 3 /\ d_day today = 30) \/
   (d_month today = 3 /\ d_day today = 29 /\ is_leap (d_year today) = false)) /\
  (default_start_date today ≠ Raise ValueError ->
   default_start_date today
   = Ok (mkdate (d_year today)
                (if decide (1 < d_month today) then d_month today - 1 else 12)
                (d_day today))).
Proof.
  intros (Hy & Hm & Hd). unfold default_start_date, make_date.
  split; [|by case_bool_decide].
  destruct (days_in_month_values (d_year today))
    as (D1 & D2 & D3 & D4 & D5 & D6 & D7 & D8 & D9 & D10 & D11 & D12).
  assert (d_month today = 1 \/ d_month today = 2 \/ d_month today = 3 \/
          d_month today = 4 \/ d_month today = 5 \/ d_month today = 6 \/
          d_month today = 7 \/ d_month today = 8 \/ d_month today = 9 \/
          d_month today = 10 \/ d_month today = 11 \/ d_month today = 12) as H by lia.
  unfold valid_ymd.
  destruct (is_leap (d_year today)) eqn:Hl;
    destruct H as [E|[E|[E|[E|[E|[E|[E|[E|[E|[E|[E|E]]]]]]]]]]];
    rewrite E in *; rewrite ?elem_of_cons, ?elem_of_nil;
    (case_decide; [|exfalso; lia]) || (case_decide; [exfalso; lia|]);
    repeat match goal with
           | |- context [Z.pos ?p - 1] =>
               let v := eval vm_compute in (Z.pos p - 1) in
               change (Z.pos p - 1) with v in *
           end;
    rewrite ?D1, ?D2, ?D3, ?D4, ?D5, ?D6, ?D7, ?D8, ?D9, ?D10, ?D11, ?D12 in *;
    case_bool_decide as Hv; (split; [intros Hr|intros Hr]);
    try done; try (exfalso; lia);
    try (assert (d_day today = 31) by lia; by auto 10);
    try (assert (d_day today = 30 \/ d_day today = 31) as [?|?] by lia; by auto 10);
    try (assert (d_day today = 29 \/ d_day today = 30 \/ d_day today = 31)
           as [?|[?|?]] by lia; by auto 10).
Qed.



(** In January the default start date falls in December of the same
    year, eleven months ahead of today, and with the default dates the
    viewer loads no file at all. *)
Theorem default_range_in_january versions country selected_version today :
  valid today -> d_month today = 1 ->
  default_start_date today = Ok (mkdate (d_year today) 12 (d_day today)) /\
  files_to_load versions country false selected_version
                (mkdate (d_year today) 12 (d_day today)) today = Ok ∅.
Proof.
  intros (Hy & Hm & Hd) Hjan. rewrite Hjan in *.
  assert (Hd31 : d_day today <= 31) by (pose proof (days_in_month_bounds (d_year today) 1); lia).
  split.
  - unfold default_start_date. rewrite Hjan, decide_False by lia.
    unfold make_date. rewrite bool_decide_eq_true_2; [done|]. unfold valid_ymd.
    pose proof (days_in_month_values (d_year today)) as (_ & _ & _ & _ & _ & _ & _ & _ & _ & _ & _ & D12).
    rewrite D12. lia.
  - assert (files_to_load versions country false selected_version
              (mkdate (d_year today) 12 (d_day today)) today
            = month_loop country today (mkdate (d_year today) 12 1) ∅) as ->.
    { unfold files_to_load. destruct selected_version; cbn; by rewrite make_date_first. }
    rewrite month_loop_step.
    assert (date_le (mkdate (d_year today) 12 1) today = false) as ->; [|done].
    apply not_true_is_false. rewrite date_le_first by lia. lia.
Qed.

(** *** The files of a version *)

Section VersionFilter.

Variable fromisoformat : string -> option datetime.

(** With a version chosen, the viewer loads the files the index lists for
    the version and the country.  When it reads the store the collector
    wrote under ["reviews"], each of those files is there, and holds a
    record of that country whose version, as the index counts it, is the
    version chosen. *)
Theorem files_of_version_hold_it self env country v start_date end_date versions files p :
  reachable fromisoformat BASE_PATH self ->
  (forall path, load_json env path = self !! path) ->
  versions_map (load_index env) = Ok versions ->
  v ≠ "" ->
  files_to_load versions country true (Some v) start_date end_date = Ok files ->
  p ∈ files ->
  versions = index_versions self BASE_PATH /\
  exists ym l r,
    p = partition_path BASE_PATH country ym /\
    load_json env p = Some (Reviews l) /\ r ∈ l /\
    version_of r = v /\ r_country r = country.
Proof.
  intros Hreach Hload Hvs Hv Hfiles Hp.
  assert (versions = index_versions self BASE_PATH) as ->.
  { unfold load_index in Hvs. rewrite Hload in Hvs. unfold index_versions.
    change (BASE_PATH +:+ "/index.json") with (index_path BASE_PATH) in Hvs.
    destruct (reachable_index_doc _ _ _ Hreach) as [E|[i E]]; rewrite E in Hvs |- *.
    - cbn in Hvs. by injection Hvs as <-.
    - destruct i as [[vs|] [u|]]; cbn in Hvs; by injection Hvs as <-. }
  split; [done|].
  unfold files_to_load in Hfiles. cbn in Hfiles.
  rewrite bool_decide_eq_false_2 in Hfiles by done. cbn in Hfiles.
  destruct (index_versions self BASE_PATH !! v) as [by_country|] eqn:Ev; cbn in Hfiles;
    [|injection Hfiles as <-; by apply not_elem_of_empty in Hp].
  destruct (by_country !! country) as [ym_list|] eqn:Ec; cbn in Hfiles;
    [|injection Hfiles as <-; by apply not_elem_of_empty in Hp].
  injection Hfiles as <-.
  apply elem_of_list_to_set, list_elem_of_fmap in Hp as (ym & -> & Hym).
  assert (Hhas : index_has self BASE_PATH v country ym).
  { exists by_country, ym_list. done. }
  destruct (reachable_invariant _ _ _ Hreach) as [_ Hsound].
  destruct (Hsound _ _ _ Hhas) as (_ & r & Hr & Hrv & Hrc).
  apply partition_records_elem in Hr as (l & Hl & Hr).
  exists ym, l, r. split_and!; try done. by rewrite Hload.
Qed.

End VersionFilter.

(** ** The notifier: the size of the description *)





(** ** A run that brings only reviews already stored *)

Section KnownReviews.

Variable fromisoformat : string -> option datetime.
Variable base : string.

Local Abbreviation save_reviews := (save_reviews fromisoformat).
Local Abbreviation group_loop := (group_loop fromisoformat).
Local Abbreviation key_of := (key_of fromisoformat).
Local Abbreviation has_key := (has_key fromisoformat).
Local Abbreviation reachable := (reachable fromisoformat base).
Local Abbreviation reachable_by := (reachable_by fromisoformat).

(** A stored partition merged with reviews whose ids it holds: nothing is
    appended, and the sort leaves it as it is. *)
Lemma merge_reviews_known existing news :
  StronglySorted date_ge existing ->
  Forall (fun r => exists s, r_date r = DateStr s) existing ->
  (forall r, r ∈ news -> r_id r ∈ ids_of existing) ->
  merge_reviews existing news = Ok existing.
Proof.
  intros Hs Hd Hknown. unfold merge_reviews. rewrite merge_loop_fresh.
  fold (ids_of existing). rewrite fresh_reviews_seen by done. rewrite app_nil_r.
  apply sort_by_date_desc_sorted.
  - by apply StronglySorted_Sorted.
  - apply comparable_keys_spec. right. exists KStr.
    eapply Forall_impl; [exact Hd|]. by intros r [s ->].
  - eapply Forall_impl; [exact Hd|]. intros r [s Hr]. congruence.
Qed.

(** When every review of the batch has its id in the partition it goes
    to, the run returns and no partition changes: in a store reached by
    runs with dates normalised to UTC, a batch of known reviews writes
    every partition it touches back as it was, and only the index
    document is written anew. *)
Theorem run_of_known_reviews self reviews now :
  reachable_by normalized base self ->
  (forall r, r ∈ reviews ->
     exists c ym, key_of r = Some (c, ym) /\
                  r_id r ∈ ids_of (partition_records self base c ym)) ->
  (save_reviews self reviews base now).2 = Ok tt /\
  forall path, path ≠ index_path base ->
    (save_reviews self reviews base now).1 !! path = self !! path.
Proof.
  intros Hby Hknown.
  pose proof (reachable_by_reachable _ _ _ _ Hby) as Hreach.
  pose proof (reachable_docs_ok _ _ _ Hreach) as Hdocs.
  (* every group merges into the partition as stored *)
  assert (Hgroups : forall g grp, group_loop [] reviews = Ok g -> grp ∈ g ->
            exists l, self !! group_path base grp = Some (Reviews l) /\
                      merged_group self base grp = Ok l).
  { intros g [[c ym] news] Hg Hin.
    destruct (group_loop_spec fromisoformat [] reviews g (NoDup_nil_2) Hg)
      as (_ & _ & Hgr & Hkeys).
    destruct (Hgr _ _ Hin) as (l0 & [?%elem_of_nil|[-> _]] & ->); [done|].
    cbn [app] in *.
    assert (Hnews : forall r, r ∈ List.filter (has_key (c, ym)) reviews ->
              r_id r ∈ ids_of (partition_records self base c ym)).
    { intros r Hr%list_elem_of_In. apply filter_In in Hr as [Hr%list_elem_of_In Hk].
      apply bool_decide_eq_true in Hk.
      destruct (Hknown r Hr) as (c' & ym' & Hk' & Hid). congruence. }
    destruct (Hkeys (c, ym)) as [?%elem_of_nil|(r0 & Hr0 & Hk0)]; [|done|].
    { apply list_elem_of_fmap. by exists ((c, ym), List.filter (has_key (c, ym)) reviews). }
    destruct (Hknown r0 Hr0) as (c' & ym' & Hk' & Hid).
    assert (c' = c /\ ym' = ym) as [-> ->] by (split; congruence).
    apply elem_of_ids_of in Hid as (x & Hx & _).
    apply partition_records_elem in Hx as (l & Hl & _).
    exists l. split; [done|].
    unfold merged_group, group_path, read_existing, _read_json. cbn.
    rewrite Hl. cbn.
    rewrite <- (partition_records_doc base self c ym l Hl) at 2.
    rewrite <- (partition_records_doc base self c ym l Hl) at 1.
    rewrite (partition_records_doc base self c ym l Hl) in *.
    apply merge_reviews_known; [|by destruct (Hdocs _ _ Hl)|done].
    exact (reachable_by_normalized_sorted_ok _ _ _ Hby _ _ Hl). }
  destruct (save_reviews self reviews base now) as [self' [[]|e]] eqn:Hs; cbn.
  - split; [done|]. intros path Hpath.
    apply save_reviews_Ok_spec in Hs as (g & infos & Hg & Hall & Hnd & Hidx & _ & ->).
    rewrite lookup_insert_ne by done. f_equal.
    apply write_all_id. intros info Hin.
    apply list_elem_of_lookup in Hin as [i Hi].
    destruct (Forall2_lookup_r _ _ _ _ _ Hall Hi) as (grp & Hgi & merged & Hm & ->).
    destruct (Hgroups g grp Hg) as (l & Hl & Hml); [by eapply list_elem_of_lookup_2|].
    assert (merged = l) as -> by congruence. cbn.
    rewrite Hl. do 2 f_equal. destruct (Hdocs _ _ Hl) as [_ Hd].
    clear -Hd. induction Hd as [|r l [s Hr] _ IH]; cbn; [done|].
    by rewrite (json_review_stored r s Hr), <- IH.
  - exfalso. apply save_reviews_Raise_spec in Hs
      as [[Hg _]|(g & infos & Hg & _ & _ & _ & Hcase)].
    + assert (Hkeys : Forall (fun r => is_Some (key_of r)) reviews).
      { apply Forall_forall. intros r Hr. destruct (Hknown r Hr) as (c & ym & -> & _). eauto. }
      destruct (group_loop_total fromisoformat [] reviews Hkeys) as [g Hg']. congruence.
    + destruct Hcase as [(done & failed & rest & -> & _ & Hraise)|[_ Hidx]].
      * destruct (Hgroups _ failed Hg) as (l & _ & Hml); [|congruence].
        apply elem_of_app. right. by left.
      * destruct (reachable_index_readable _ _ _ Hreach) as [vs Hvs]. congruence.
Qed.

End KnownReviews.

(** ** The scenarios of the specification, run on the model *)

Section Scenarios.

Import Sample.

Local Abbreviation run := (save_reviews IsoFormat.fromisoformat).

(** Scenario A: [a] into the empty store. *)
Example scenario_A :
  store_A !! "reviews/jp/2024/05.json" = Some (Reviews [a_stored]) /\
  index_versions store_A "reviews" = {[ "1.0" := {[ "jp" := ["2024/05"] ]} ]}.
Proof. split; vm_compute; reflexivity. Qed.

(** Scenario B: [a] again with version 2.0; the stored record keeps 1.0
    and the index holds 1.0 only. *)
Example scenario_B :
  let s := (run store_A [a_again] "reviews" "2024-05-03T09:00:00").1 in
  s !! "reviews/jp/2024/05.json" = Some (Reviews [a_stored]) /\
  index_versions s "reviews" = {[ "1.0" := {[ "jp" := ["2024/05"] ]} ]}.
Proof. split; vm_compute; reflexivity. Qed.

(** Scenario C: a record of June after scenario A. *)
Example scenario_C :
  let s := (run store_A [b] "reviews" "2024-06-16T09:00:00").1 in
  s !! "reviews/jp/2024/06.json" = Some (Reviews [json_review b]) /\
  index_versions s "reviews" =
  {[ "1.0" := {[ "jp" := ["2024/05"] ]}; "1.1" := {[ "jp" := ["2024/06"] ]} ]}.
Proof. split; vm_compute; reflexivity. Qed.

(** A new review of a month already stored: the stored dates are strs,
    the new one is a datetime, and the sort of line 83 raises. *)
Example new_review_in_stored_month :
  run store_A [c] "reviews" "2024-05-21T09:00:00" = (store_A, Raise TypeError).
Proof. vm_compute. reflexivity. Qed.

(** A date with an offset is grouped by its own year and month: 23:30 on
    31 May at -07:00 is 1 June at UTC, and goes to the partition of May. *)
Example offset_date_partition :
  key_of IsoFormat.fromisoformat
    (review_of "o" (DateStr "2024-05-31T23:30:00-07:00") "us" "1.0")
  = Some ("us", "2024/05").
Proof. vm_compute. reflexivity. Qed.

(** Datetimes of different offsets, outside the data model: the first
    run orders them by instant, the second by the strs it reads back, and
    the partition document changes. *)
Example offsets_reorder_on_second_run :
  let once := (run ∅ [p; q] "reviews" "t1").1 in
  let twice := (run once [p; q] "reviews" "t2").1 in
  once !! "reviews/jp/2024/05.json" = Some (Reviews [json_review q; json_review p]) /\
  twice !! "reviews/jp/2024/05.json" = Some (Reviews [json_review p; json_review q]).
Proof. split; vm_compute; reflexivity. Qed.

End Scenarios.

(** ** The theorems at concrete inputs *)

Section Instances.

Import Sample.

Local Abbreviation run := (save_reviews IsoFormat.fromisoformat).

Local Ltac by_computation := vm_compute; first [reflexivity | congruence | tauto].

Local Ltac valid_reviews :=
  repeat first [apply Forall_nil_2 | apply Forall_cons_2];
  try (vm_compute; intuition congruence).

(** *** C1 *)

(** The store after a second ingestion of [a] is not the store after the
    first: [updated_at] has moved. *)
Lemma ingest_twice_changes_stamp :
  ~ idempotent_on IsoFormat.fromisoformat [a] "reviews"
      "2024-05-02T09:00:00" "2024-05-03T09:00:00".
Proof.
  unfold idempotent_on. intros H.
  apply (f_equal (fun s : store => s !! "reviews/index.json")) in H.
  vm_compute in H. discriminate H.
Qed.

Lemma ingest_twice_same_but_stamp_witness :
  Forall utc_normalized [a; c; d] /\
  let once := run ∅ [a; c; d] "reviews" "2024-05-02T09:00:00" in
  let twice := run once.1 [a; c; d] "reviews" "2024-05-03T09:00:00" in
  twice = run ∅ [a; c; d] "reviews" "2024-05-03T09:00:00" /\
  twice.2 = once.2 /\
  (forall path, path ≠ index_path "reviews" -> twice.1 !! path = once.1 !! path) /\
  index_versions twice.1 "reviews" = index_versions once.1 "reviews".
Proof.
  assert (H : Forall utc_normalized [a; c; d]) by valid_reviews.
  split; [exact H|].
  exact (ingest_twice_same_but_stamp IsoFormat.fromisoformat [a; c; d] "reviews"
           "2024-05-02T09:00:00" "2024-05-03T09:00:00" H).
Defined.

(** *** C2 *)

Lemma merge_reviews_existing_wins_witness :
  merge_reviews [a_stored] [a_again] = Ok [a_stored] /\
  a_stored ∈ [a_stored] /\ a_again ∈ [a_again] /\
  r_id a_again = r_id a_stored /\ a_again ≠ a_stored /\
  a_stored ∈ [a_stored] /\
  (forall r, r ∈ [a_stored] -> r_id r = r_id a_stored -> r ∈ [a_stored]) /\
  (NoDup (map r_id [a_stored]) ->
   (forall r, r ∈ [a_stored] -> r_id r = r_id a_stored -> r = a_stored) /\
   a_again ∉ [a_stored]).
Proof.
  assert (H1 : merge_reviews [a_stored] [a_again] = Ok [a_stored]) by by_computation.
  assert (H2 : a_stored ∈ [a_stored]) by apply list_elem_of_here.
  assert (H3 : a_again ∈ [a_again]) by apply list_elem_of_here.
  assert (H4 : r_id a_again = r_id a_stored) by reflexivity.
  assert (H5 : a_again ≠ a_stored) by (vm_compute; congruence).
  split; [exact H1|]. split; [exact H2|]. split; [exact H3|]. split; [exact H4|]. split; [exact H5|].
  exact (merge_reviews_existing_wins [a_stored] [a_again] [a_stored] a_stored a_again
           H1 H2 H3 H4 H5).
Defined.

(** *** C3 *)


(** *** C4 *)

Lemma index_sound_in_reachable_stores_witness :
  reachable IsoFormat.fromisoformat "reviews" store_A /\
  index_has store_A "reviews" "1.0" "jp" "2024/05" /\
  exists r, r ∈ partition_records store_A "reviews" "jp" "2024/05" /\
            version_of r = "1.0" /\ r_country r = "jp".
Proof.
  assert (H1 : reachable IsoFormat.fromisoformat "reviews" store_A).
  { apply reachable_run, reachable_empty. }
  assert (H2 : index_has store_A "reviews" "1.0" "jp" "2024/05").
  { exists {[ "jp" := ["2024/05"] ]}, ["2024/05"].
    split_and!; [by_computation|by_computation|apply list_elem_of_here]. }
  split; [exact H1|]. split; [exact H2|].
  exact (index_sound_in_reachable_stores IsoFormat.fromisoformat "reviews" store_A
           "1.0" "jp" "2024/05" H1 H2).
Defined.

(** *** C5 *)


(** *** C6 *)

(** A run of [c] and [d] after scenario A: the merge of the group of [c]
    raises, the group of [d] would have merged, and nothing is written. *)
Lemma failure_not_isolated :
  merged_group store_A "reviews" (("jp", "2024/05"), [c]) = Raise TypeError /\
  merged_group store_A "reviews" (("us", "2024/05"), [d]) = Ok [d] /\
  run store_A [c; d] "reviews" "2024-05-22T09:00:00" = (store_A, Raise TypeError) /\
  store_A !! "reviews/us/2024/05.json" = None /\
  ~ isolates_failures IsoFormat.fromisoformat store_A [c; d] "reviews"
      "2024-05-22T09:00:00".
Proof.
  split_and!; [by_computation..|].
  intros H.
  destruct (H [(("jp", "2024/05"), [c]); (("us", "2024/05"), [d])] ltac:(by_computation))
    as (Hwritten & _ & _).
  specialize (Hwritten (("us", "2024/05"), [d]) [d]
                ltac:(apply list_elem_of_further, list_elem_of_here)
                ltac:(by_computation)).
  vm_compute in Hwritten. discriminate Hwritten.
Qed.

Lemma merge_failure_aborts_run_witness :
  group_loop IsoFormat.fromisoformat [] [d; c; b]
    = Ok ([(("us", "2024/05"), [d])] ++ (("jp", "2024/05"), [c]) :: [(("jp", "2024/06"), [b])]) /\
  Forall (fun g => exists merged, merged_group store_A "reviews" g = Ok merged)
         [(("us", "2024/05"), [d])] /\
  merged_group store_A "reviews" (("jp", "2024/05"), [c]) = Raise TypeError /\
  exists self',
    run store_A [d; c; b] "reviews" "2024-06-16T09:00:00" = (self', Raise TypeError) /\
    (forall g merged, g ∈ [(("us", "2024/05"), [d])] ->
       merged_group store_A "reviews" g = Ok merged ->
       self' !! group_path "reviews" g = Some (Reviews (map json_review merged))) /\
    (forall g, g ∈ (("jp", "2024/05"), [c]) :: [(("jp", "2024/06"), [b])] ->
       self' !! group_path "reviews" g = store_A !! group_path "reviews" g) /\
    self' !! index_path "reviews" = store_A !! index_path "reviews".
Proof.
  assert (H1 : group_loop IsoFormat.fromisoformat [] [d; c; b]
    = Ok ([(("us", "2024/05"), [d])] ++ (("jp", "2024/05"), [c]) :: [(("jp", "2024/06"), [b])]))
    by by_computation.
  assert (H2 : Forall (fun g => exists merged, merged_group store_A "reviews" g = Ok merged)
                 [(("us", "2024/05"), [d])]).
  { apply Forall_cons_2; [|apply Forall_nil_2]. exists [d]. by_computation. }
  assert (H3 : merged_group store_A "reviews" (("jp", "2024/05"), [c]) = Raise TypeError)
    by by_computation.
  split; [exact H1|]. split; [exact H2|]. split; [exact H3|].
  exact (merge_failure_aborts_run IsoFormat.fromisoformat store_A [d; c; b] "reviews"
           "2024-06-16T09:00:00" _ _ _ TypeError H1 H2 H3).
Defined.

(** *** C7 *)

(** A batch of [a] and a record whose date does not parse: the run on the
    batch raises and stores nothing, where the run on the dated records
    alone stores [a]. *)
Lemma undated_record_not_dropped :
  run ∅ [a; undated_record] "reviews" "2024-05-02T09:00:00" = (∅, Raise ValueError) /\
  List.filter (dated IsoFormat.fromisoformat) [a; undated_record] = [a] /\
  (run ∅ [a] "reviews" "2024-05-02T09:00:00").1 !! "reviews/jp/2024/05.json"
    = Some (Reviews [a_stored]) /\
  ~ drops_undated_records IsoFormat.fromisoformat ∅ [a; undated_record] "reviews"
      "2024-05-02T09:00:00".
Proof.
  split_and!; [by_computation..|].
  unfold drops_undated_records. intros H.
  apply (f_equal snd) in H. vm_compute in H. discriminate H.
Qed.

Lemma undated_record_aborts_run_witness :
  undated_record ∈ [a; undated_record] /\
  undated IsoFormat.fromisoformat undated_record /\
  exists e, run store_A [a; undated_record] "reviews" "2024-05-02T09:00:00"
            = (store_A, Raise e).
Proof.
  assert (H1 : undated_record ∈ [a; undated_record])
    by (apply list_elem_of_further, list_elem_of_here).
  assert (H2 : undated IsoFormat.fromisoformat undated_record).
  { right. right. exists "yesterday". split; by_computation. }
  split; [exact H1|]. split; [exact H2|].
  exact (undated_record_aborts_run IsoFormat.fromisoformat store_A [a; undated_record]
           "reviews" "2024-05-02T09:00:00" undated_record H1 H2).
Defined.

(** *** C8 *)


(** *** C9 *)

Lemma update_index_keeps_mappings_witness :
  index_has store_A "reviews" "1.0" "jp" "2024/05" /\
  (update_index store_A [] "reviews" "2024-05-03T09:00:00").2 = Ok tt /\
  index_has (update_index store_A [] "reviews" "2024-05-03T09:00:00").1
            "reviews" "1.0" "jp" "2024/05".
Proof.
  assert (H : index_has store_A "reviews" "1.0" "jp" "2024/05").
  { exists {[ "jp" := ["2024/05"] ]}, ["2024/05"].
    split_and!; [by_computation|by_computation|apply list_elem_of_here]. }
  split; [exact H|].
  exact (update_index_keeps_mappings store_A [] "reviews" "2024-05-03T09:00:00"
           "1.0" "jp" "2024/05" H).
Defined.

(** *** C10 *)


(** *** A first run, and a later one *)

Lemma first_run_returns_witness :
  Forall fetched [a; c; d] /\
  (run ∅ [a; c; d] "reviews" "2024-05-22T09:00:00").2 = Ok tt.
Proof.
  assert (H : Forall fetched [a; c; d]).
  { repeat first [apply Forall_nil_2 | apply Forall_cons_2];
      eexists _, _; split; reflexivity. }
  split; [exact H|].
  exact (first_run_returns IsoFormat.fromisoformat [a; c; d] "reviews"
           "2024-05-22T09:00:00" H).
Defined.

Lemma stored_and_fetched_dates_do_not_sort_witness :
  a_stored ∈ [a_stored] /\
  r_date a_stored = DateStr "2024-05-01 00:00:00+00:00" /\
  c ∈ fresh_reviews (ids_of [a_stored]) [c] /\
  r_date c = DateTime (utc 2024 5 20 12 0 0) /\
  (merge_reviews [a_stored] [c] = Raise KeyError \/
   merge_reviews [a_stored] [c] = Raise TypeError).
Proof.
  assert (H1 : a_stored ∈ [a_stored]) by apply list_elem_of_here.
  assert (H2 : r_date a_stored = DateStr "2024-05-01 00:00:00+00:00") by reflexivity.
  assert (H3 : c ∈ fresh_reviews (ids_of [a_stored]) [c]).
  { replace (fresh_reviews (ids_of [a_stored]) [c]) with [c] by by_computation.
    apply list_elem_of_here. }
  assert (H4 : r_date c = DateTime (utc 2024 5 20 12 0 0)) by reflexivity.
  split; [exact H1|]. split; [exact H2|]. split; [exact H3|]. split; [exact H4|].
  exact (stored_and_fetched_dates_do_not_sort [a_stored] [c] a_stored c _ _ H1 H2 H3 H4).
Defined.

End Instances.

(** ** The further theorems at concrete inputs *)

Section FurtherInstances.

Import Sample FeedSample.

Local Abbreviation iso := IsoFormat.fromisoformat.
Local Abbreviation run := (save_reviews IsoFormat.fromisoformat).

Local Ltac by_computation := vm_compute; first [reflexivity | congruence | tauto].

Local Ltac evaluated := vm_compute; intuition congruence.

Lemma store_A_reachable : reachable iso "reviews" store_A.
Proof. apply reachable_run, reachable_empty. Qed.

Lemma a_stored_in_store_A : a_stored ∈ partition_records store_A "reviews" "jp" "2024/05".
Proof. vm_compute. apply list_elem_of_here. Qed.

Lemma astimezone_utc_tzinfo d : tzinfo (PyLib.astimezone_utc d) = Some 0.
Proof. unfold PyLib.astimezone_utc. by destruct (PyLib.ord2ymd _) as [[? ?] ?]. Qed.

(** *** The store *)

Lemma stored_ids_unique_witness :
  reachable iso "reviews" store_A /\
  NoDup (map r_id (partition_records store_A "reviews" "jp" "2024/05")).
Proof.
  split; [exact store_A_reachable|].
  exact (stored_ids_unique iso "reviews" store_A "jp" "2024/05" store_A_reachable).
Defined.

Lemma stored_record_in_its_partition_witness :
  reachable iso "reviews" store_A /\ String.length "2024/05" = 7%nat /\
  a_stored ∈ partition_records store_A "reviews" "jp" "2024/05" /\
  filed_under iso "jp" "2024/05" a_stored.
Proof.
  assert (H2 : String.length "2024/05" = 7%nat) by reflexivity.
  split; [exact store_A_reachable|]. split; [exact H2|].
  split; [exact a_stored_in_store_A|].
  exact (stored_record_in_its_partition iso "reviews" store_A "jp" "2024/05" a_stored
           store_A_reachable H2 a_stored_in_store_A).
Defined.

Lemma run_keeps_stored_records_witness :
  reachable iso "reviews" store_A /\
  a_stored ∈ partition_records store_A "reviews" "jp" "2024/05" /\
  a_stored ∈ partition_records (run store_A [c; b] "reviews" "2024-06-16T09:00:00").1
               "reviews" "jp" "2024/05".
Proof.
  split; [exact store_A_reachable|]. split; [exact a_stored_in_store_A|].
  exact (run_keeps_stored_records iso "reviews" store_A [c; b] "2024-06-16T09:00:00"
           "jp" "2024/05" a_stored store_A_reachable a_stored_in_store_A).
Defined.

Lemma stored_partition_takes_no_new_review_witness :
  reachable iso "reviews" store_A /\ Forall fetched [b; c] /\
  a_stored ∈ partition_records store_A "reviews" "jp" "2024/05" /\
  c ∈ [b; c] /\ key_of iso c = Some ("jp", "2024/05") /\
  (r_id c ∉ ids_of (partition_records store_A "reviews" "jp" "2024/05")) /\
  (run store_A [b; c] "reviews" "2024-06-16T09:00:00").2 = Raise TypeError /\
  (run store_A [b; c] "reviews" "2024-06-16T09:00:00").1
    !! partition_path "reviews" "jp" "2024/05"
  = store_A !! partition_path "reviews" "jp" "2024/05" /\
  (run store_A [b; c] "reviews" "2024-06-16T09:00:00").1 !! index_path "reviews"
  = store_A !! index_path "reviews".
Proof.
  assert (H2 : Forall fetched [b; c]).
  { repeat constructor; eexists _, 0; by split. }
  assert (H4 : c ∈ [b; c]) by (apply list_elem_of_further, list_elem_of_here).
  assert (H5 : key_of iso c = Some ("jp", "2024/05")) by reflexivity.
  assert (H6 : r_id c ∉ ids_of (partition_records store_A "reviews" "jp" "2024/05")).
  { intros (x & Hx & Hid)%elem_of_ids_of. vm_compute in Hx.
    apply list_elem_of_singleton in Hx as ->. discriminate Hid. }
  split; [exact store_A_reachable|]. split; [exact H2|].
  split; [exact a_stored_in_store_A|]. split; [exact H4|]. split; [exact H5|].
  split; [exact H6|].
  exact (stored_partition_takes_no_new_review iso "reviews" store_A [b; c]
           "2024-06-16T09:00:00" "jp" "2024/05" a_stored c
           store_A_reachable H2 a_stored_in_store_A H4 H5 H6).
Defined.

Lemma store_A_normalized : reachable_by iso normalized "reviews" store_A.
Proof.
  apply (reachable_by_run iso normalized "reviews" ∅ [a] "2024-05-02T09:00:00").
  - apply reachable_by_empty.
  - repeat constructor; evaluated.
Qed.

Lemma run_of_known_reviews_witness :
  reachable_by iso normalized "reviews" store_A /\
  (forall r, r ∈ [a_again] ->
     exists c ym, key_of iso r = Some (c, ym) /\
                  r_id r ∈ ids_of (partition_records store_A "reviews" c ym)) /\
  (run store_A [a_again] "reviews" "2024-05-03T09:00:00").2 = Ok tt /\
  forall path, path ≠ index_path "reviews" ->
    (run store_A [a_again] "reviews" "2024-05-03T09:00:00").1 !! path = store_A !! path.
Proof.
  assert (H2 : forall r, r ∈ [a_again] ->
     exists c ym, key_of iso r = Some (c, ym) /\
                  r_id r ∈ ids_of (partition_records store_A "reviews" c ym)).
  { intros r ->%list_elem_of_singleton. exists "jp", "2024/05". split; [reflexivity|].
    apply elem_of_ids_of. exists a_stored. split; [exact a_stored_in_store_A|reflexivity]. }
  split; [exact store_A_normalized|]. split; [exact H2|].
  exact (run_of_known_reviews iso "reviews" store_A [a_again] "2024-05-03T09:00:00"
           store_A_normalized H2).
Defined.


(** *** The index *)

Lemma index_lists_sorted_witness :
  reachable iso "reviews" store_A /\
  index_versions store_A "reviews" !! "1.0" = Some {[ "jp" := ["2024/05"] ]} /\
  ({[ "jp" := ["2024/05"] ]} : gmap string (list string)) !! "jp" = Some ["2024/05"] /\
  ["2024/05"] ≠ [] /\ StronglySorted str_lt ["2024/05"] /\ NoDup ["2024/05"].
Proof.
  assert (H2 : index_versions store_A "reviews" !! "1.0" = Some {[ "jp" := ["2024/05"] ]})
    by by_computation.
  assert (H3 : ({[ "jp" := ["2024/05"] ]} : gmap string (list string)) !! "jp"
               = Some ["2024/05"]) by by_computation.
  split; [exact store_A_reachable|]. split; [exact H2|]. split; [exact H3|].
  exact (index_lists_sorted iso "reviews" store_A "1.0" {[ "jp" := ["2024/05"] ]} "jp"
           ["2024/05"] store_A_reachable H2 H3).
Defined.

Lemma index_complete_while_runs_return_witness :
  reachable_by iso (returns iso "reviews") "reviews" store_A /\
  String.length "2024/05" = 7%nat /\
  a_stored ∈ partition_records store_A "reviews" "jp" "2024/05" /\
  index_has store_A "reviews" (version_of a_stored) "jp" "2024/05".
Proof.
  assert (H1 : reachable_by iso (returns iso "reviews") "reviews" store_A).
  { apply (reachable_by_run iso (returns iso "reviews") "reviews" ∅ [a] "2024-05-02T09:00:00").
    - apply reachable_by_empty.
    - by_computation. }
  assert (H2 : String.length "2024/05" = 7%nat) by reflexivity.
  split; [exact H1|]. split; [exact H2|]. split; [exact a_stored_in_store_A|].
  exact (index_complete_while_runs_return iso "reviews" store_A "jp" "2024/05" a_stored
           H1 H2 a_stored_in_store_A).
Defined.

Lemma index_file_any_order_witness :
  NoDup ["1.1"; "1.0"] /\
  (forall v, v ∈ ["1.1"; "1.0"] <->
     exists r, r ∈ info_reviews (mkInfo "reviews/jp/2024/05.json" "jp" "2024/05" [a; c]) /\
               version_of r = v) /\
  foldl (fun acc v => add_ym acc v "jp" "2024/05") ∅ ["1.1"; "1.0"]
  = index_file ∅ (mkInfo "reviews/jp/2024/05.json" "jp" "2024/05" [a; c]).
Proof.
  assert (H1 : NoDup ["1.1"; "1.0"]).
  { repeat constructor; rewrite ?elem_of_cons, ?elem_of_nil; intuition congruence. }
  assert (H2 : forall v, v ∈ ["1.1"; "1.0"] <->
     exists r, r ∈ info_reviews (mkInfo "reviews/jp/2024/05.json" "jp" "2024/05" [a; c]) /\
               version_of r = v).
  { intros v. cbn [info_reviews]. split.
    - intros [->|[->|[]%elem_of_nil]%elem_of_cons]%elem_of_cons;
        [exists c|exists a]; (split; [|reflexivity]);
        rewrite ?elem_of_cons; auto.
    - intros (r & [->|[->|[]%elem_of_nil]%elem_of_cons]%elem_of_cons & <-);
        rewrite ?elem_of_cons; auto. }
  split; [exact H1|]. split; [exact H2|].
  exact (index_file_any_order ∅ (mkInfo "reviews/jp/2024/05.json" "jp" "2024/05" [a; c])
           ["1.1"; "1.0"] H1 H2).
Defined.

Lemma group_paths_distinct_witness :
  key_of iso a = Some ("jp", "2024/05") /\ key_of iso d = Some ("us", "2024/05") /\
  (partition_path "reviews" "jp" "2024/05" = partition_path "reviews" "us" "2024/05" <->
   ("jp", "2024/05") = ("us", "2024/05")) /\
  partition_path "reviews" "jp" "2024/05" ≠ index_path "reviews".
Proof.
  assert (H1 : key_of iso a = Some ("jp", "2024/05")) by reflexivity.
  assert (H2 : key_of iso d = Some ("us", "2024/05")) by reflexivity.
  split; [exact H1|]. split; [exact H2|].
  exact (group_paths_distinct iso "reviews" a d ("jp", "2024/05") ("us", "2024/05") H1 H2).
Defined.

(** *** The fetchers *)

Local Abbreviation fetch_xml :=
  (fetch_ios_reviews_xml iso PyLib.astimezone_utc PyLib.int_of_str).

Lemma fetch_ios_reviews_xml_first_witness :
  Forall (fun e => e_rating e = None) [app_info] /\
  e_rating entry_1 = Some (Some "5") /\
  ios_review iso PyLib.astimezone_utc PyLib.int_of_str "jp" entry_1 (Some "5")
             (clock (length [app_info])) = Ok review_1 /\
  0 <= 1 /\
  fetch_xml (Some ([app_info] ++ entry_1 :: [entry_2])) clock "jp" 0 = [review_1].
Proof.
  assert (H1 : Forall (fun e => e_rating e = None) [app_info]) by by repeat constructor.
  assert (H2 : e_rating entry_1 = Some (Some "5")) by reflexivity.
  assert (H3 : ios_review iso PyLib.astimezone_utc PyLib.int_of_str "jp" entry_1 (Some "5")
                 (clock (length [app_info])) = Ok review_1) by by_computation.
  assert (H4 : 0 <= 1) by lia.
  split; [exact H1|]. split; [exact H2|]. split; [exact H3|]. split; [exact H4|].
  exact (fetch_ios_reviews_xml_first iso PyLib.astimezone_utc PyLib.int_of_str
           [app_info] entry_1 [entry_2] clock "jp" 0 (Some "5") review_1 H1 H2 H3 H4).
Defined.

Lemma fetch_ios_reviews_xml_all_or_nothing_witness :
  e_rating entry_without_id = Some (Some "4") /\
  ios_review iso PyLib.astimezone_utc PyLib.int_of_str "jp" entry_without_id (Some "4")
             (clock (length [app_info; entry_1])) = Raise AttributeError /\
  Z.of_nat (length (List.filter (fun x => bool_decide (is_Some (e_rating x)))
                                [app_info; entry_1])) < Z.max 1 200 /\
  fetch_xml (Some ([app_info; entry_1] ++ entry_without_id :: [entry_2])) clock "jp" 200 = [].
Proof.
  assert (H1 : e_rating entry_without_id = Some (Some "4")) by reflexivity.
  assert (H2 : ios_review iso PyLib.astimezone_utc PyLib.int_of_str "jp" entry_without_id
                 (Some "4") (clock (length [app_info; entry_1])) = Raise AttributeError)
    by by_computation.
  assert (H3 : Z.of_nat (length (List.filter (fun x => bool_decide (is_Some (e_rating x)))
                                   [app_info; entry_1])) < Z.max 1 200) by by_computation.
  split; [exact H1|]. split; [exact H2|]. split; [exact H3|].
  exact (fetch_ios_reviews_xml_all_or_nothing iso PyLib.astimezone_utc PyLib.int_of_str
           [app_info; entry_1] entry_without_id [entry_2] clock "jp" 200 (Some "4")
           AttributeError H1 H2 H3).
Defined.

Lemma fetch_ios_reviews_xml_dates_witness :
  (forall d, tzinfo (PyLib.astimezone_utc d) = Some 0) /\
  (forall j, tzinfo (clock j) = Some 0) /\
  review_1 ∈ fetch_xml (Some [app_info; entry_1; entry_2]) clock "jp" 200 /\
  r_country review_1 = "jp" /\ r_source review_1 = "ios" /\
  exists d, r_date review_1 = DateTime d /\ tzinfo d = Some 0.
Proof.
  assert (H2 : forall j, tzinfo (clock j) = Some 0) by reflexivity.
  assert (H3 : review_1 ∈ fetch_xml (Some [app_info; entry_1; entry_2]) clock "jp" 200).
  { vm_compute. apply list_elem_of_here. }
  split; [exact astimezone_utc_tzinfo|]. split; [exact H2|]. split; [exact H3|].
  exact (fetch_ios_reviews_xml_dates iso PyLib.astimezone_utc PyLib.int_of_str
           astimezone_utc_tzinfo (Some [app_info; entry_1; entry_2]) clock "jp" 200 review_1
           H2 H3).
Defined.

Lemma fetch_ios_reviews_single_entry_witness :
  dict_get single_entry_feed "feed" (JDict [])
  = Ok (JDict [("title", JDict [("label", JStr "Customer Reviews")]);
               ("entry",
                JDict [("author", JDict [("name", JDict [("label", JStr "ann")])]);
                       ("im:version", JDict [("label", JStr "1.0")]);
                       ("im:rating", JDict [("label", JStr "5")]);
                       ("id", JDict [("label", JStr "r1")])])]) /\
  dict_lookup "entry"
    [("title", JDict [("label", JStr "Customer Reviews")]);
     ("entry",
      JDict [("author", JDict [("name", JDict [("label", JStr "ann")])]);
             ("im:version", JDict [("label", JStr "1.0")]);
             ("im:rating", JDict [("label", JStr "5")]);
             ("id", JDict [("label", JStr "r1")])])]
  = Some (JDict [("author", JDict [("name", JDict [("label", JStr "ann")])]);
                 ("im:version", JDict [("label", JStr "1.0")]);
                 ("im:rating", JDict [("label", JStr "5")]);
                 ("id", JDict [("label", JStr "r1")])]) /\
  "im:rating" ∈ map fst [("author", JDict [("name", JDict [("label", JStr "ann")])]);
                         ("im:version", JDict [("label", JStr "1.0")]);
                         ("im:rating", JDict [("label", JStr "5")]);
                         ("id", JDict [("label", JStr "r1")])] /\
  fetch_ios_reviews iso PyLib.astimezone_utc PyLib.int_of_str (Some single_entry_feed)
                    (Some [app_info; entry_1]) clock "jp" 200 = [].
Proof.
  set (entry_items := [("author", JDict [("name", JDict [("label", JStr "ann")])]);
                       ("im:version", JDict [("label", JStr "1.0")]);
                       ("im:rating", JDict [("label", JStr "5")]);
                       ("id", JDict [("label", JStr "r1")])]).
  set (feed_items := [("title", JDict [("label", JStr "Customer Reviews")]);
                      ("entry", JDict entry_items)]).
  assert (H1 : dict_get single_entry_feed "feed" (JDict []) = Ok (JDict feed_items))
    by reflexivity.
  assert (H2 : dict_lookup "entry" feed_items = Some (JDict entry_items)) by reflexivity.
  assert (H3 : "im:rating" ∈ map fst entry_items).
  { cbn. rewrite !elem_of_cons. auto. }
  split; [exact H1|]. split; [exact H2|]. split; [exact H3|].
  exact (fetch_ios_reviews_single_entry iso PyLib.astimezone_utc PyLib.int_of_str
           single_entry_feed feed_items entry_items (Some [app_info; entry_1]) clock "jp" 200
           H1 H2 H3).
Defined.


(** *** [main] *)

Local Abbreviation main := (main iso PyLib.astimezone_utc PyLib.int_of_str).

Lemma main_nothing_fetched_witness :
  (forall ios_id country, ios_json offline ios_id country = None) /\
  (forall android_id lang country count, gps offline android_id lang country count = None) /\
  main offline apps "reviews" store_A "2024-05-03T09:00:00" = (store_A, Ok tt).
Proof.
  assert (H1 : forall ios_id country, ios_json offline ios_id country = None) by reflexivity.
  assert (H2 : forall android_id lang country count,
            gps offline android_id lang country count = None) by reflexivity.
  split; [exact H1|]. split; [exact H2|].
  exact (main_nothing_fetched iso PyLib.astimezone_utc PyLib.int_of_str offline apps
           "reviews" store_A "2024-05-03T09:00:00" H1 H2).
Defined.

Lemma main_first_run_returns_witness :
  (forall d, tzinfo (PyLib.astimezone_utc d) = Some 0) /\
  (forall ios_id country j, tzinfo (ios_clock online ios_id country j) = Some 0) /\
  (forall android_id lang country count result g,
     gps online android_id lang country count = Some result -> g ∈ result ->
     is_Some (g_at g)) /\
  (main online apps "reviews" ∅ "2024-05-22T09:00:00").2 = Ok tt.
Proof.
  assert (H2 : forall ios_id country j, tzinfo (ios_clock online ios_id country j) = Some 0)
    by reflexivity.
  assert (H3 : forall android_id lang country count result g,
     gps online android_id lang country count = Some result -> g ∈ result ->
     is_Some (g_at g)).
  { intros ? ? ? ? result g [= <-] [->|[->|[]%elem_of_nil]%elem_of_cons]%elem_of_cons;
      by eexists. }
  split; [exact astimezone_utc_tzinfo|]. split; [exact H2|]. split; [exact H3|].
  exact (main_first_run_returns iso PyLib.astimezone_utc PyLib.int_of_str online apps
           "reviews" "2024-05-22T09:00:00" astimezone_utc_tzinfo H2 H3).
Defined.

Lemma main_android_review_without_date_witness :
  mkApp "Sample" ["jp"; "us"] (Some "123456") (Some "com.example.sample") ∈ apps /\
  "us" ∈ ["jp"; "us"] /\
  app_android_id (mkApp "Sample" ["jp"; "us"] (Some "123456") (Some "com.example.sample"))
  = Some "com.example.sample" /\
  gps online_undated "com.example.sample" (android_lang "us") "us" 200
  = Some [gps_1; gps_undated] /\
  gps_undated ∈ [gps_1; gps_undated] /\ g_at gps_undated = None /\
  main online_undated apps "reviews" store_A "2024-05-22T09:00:00"
  = (store_A, Raise AttributeError).
Proof.
  set (sample := mkApp "Sample" ["jp"; "us"] (Some "123456") (Some "com.example.sample")).
  assert (H1 : sample ∈ apps) by apply list_elem_of_here.
  assert (H2 : "us" ∈ app_countries sample) by (apply list_elem_of_further, list_elem_of_here).
  assert (H3 : app_android_id sample = Some "com.example.sample") by reflexivity.
  assert (H4 : gps online_undated "com.example.sample" (android_lang "us") "us" 200
               = Some [gps_1; gps_undated]) by reflexivity.
  assert (H5 : gps_undated ∈ [gps_1; gps_undated])
    by (apply list_elem_of_further, list_elem_of_here).
  assert (H6 : g_at gps_undated = None) by reflexivity.
  split; [exact H1|]. split; [exact H2|]. split; [exact H3|]. split; [exact H4|].
  split; [exact H5|]. split; [exact H6|].
  exact (main_android_review_without_date iso PyLib.astimezone_utc PyLib.int_of_str
           online_undated apps "reviews" store_A "2024-05-22T09:00:00"
           sample "us" "com.example.sample" [gps_1; gps_undated] gps_undated
           H1 H2 H3 H4 H5 H6).
Defined.

(** *** The viewer *)

Lemma files_of_date_range_witness :
  valid (mkdate 2023 11 20) /\ 1000 <= d_year (mkdate 2023 11 20) /\
  valid (mkdate 2024 2 10) /\ d_year (mkdate 2024 2 10) < 9999 /\
  exists files,
    files_to_load ∅ "jp" false None (mkdate 2023 11 20) (mkdate 2024 2 10) = Ok files /\
    forall p, p ∈ files <->
      exists y m, 1 <= m <= 12 /\
        d_year (mkdate 2023 11 20) * 12 + d_month (mkdate 2023 11 20) <= y * 12 + m
          <= d_year (mkdate 2024 2 10) * 12 + d_month (mkdate 2024 2 10) /\
        p = partition_path BASE_PATH "jp" (zpad 4 y +:+ "/" +:+ zpad 2 m).
Proof.
  assert (H1 : valid (mkdate 2023 11 20)) by evaluated.
  assert (H2 : valid (mkdate 2024 2 10)) by evaluated.
  assert (H3 : d_year (mkdate 2024 2 10) < 9999) by reflexivity.
  assert (H4 : 1000 <= d_year (mkdate 2023 11 20)) by (cbn; lia).
  split; [exact H1|]. split; [exact H4|]. split; [exact H2|]. split; [exact H3|].
  exact (files_of_date_range ∅ "jp" None (mkdate 2023 11 20) (mkdate 2024 2 10)
           H1 H4 H2 H3).
Defined.

Lemma default_start_date_raises_witness :
  valid (mkdate 2024 3 31) /\
  (default_start_date (mkdate 2024 3 31) = Raise ValueError <->
   (d_day (mkdate 2024 3 31) = 31 /\ d_month (mkdate 2024 3 31) ∈ [3; 5; 7; 10; 12]) \/
   (d_month (mkdate 2024 3 31) = 3 /\ d_day (mkdate 2024 3 31) = 30) \/
   (d_month (mkdate 2024 3 31) = 3 /\ d_day (mkdate 2024 3 31) = 29 /\
    is_leap (d_year (mkdate 2024 3 31)) = false)) /\
  (default_start_date (mkdate 2024 3 31) ≠ Raise ValueError ->
   default_start_date (mkdate 2024 3 31)
   = Ok (mkdate (d_year (mkdate 2024 3 31))
                (if decide (1 < d_month (mkdate 2024 3 31))
                 then d_month (mkdate 2024 3 31) - 1 else 12)
                (d_day (mkdate 2024 3 31)))).
Proof.
  assert (H1 : valid (mkdate 2024 3 31)) by evaluated.
  split; [exact H1|].
  exact (default_start_date_raises (mkdate 2024 3 31) H1).
Defined.

Lemma default_range_in_january_witness :
  valid (mkdate 2025 1 15) /\ d_month (mkdate 2025 1 15) = 1 /\
  default_start_date (mkdate 2025 1 15)
  = Ok (mkdate (d_year (mkdate 2025 1 15)) 12 (d_day (mkdate 2025 1 15))) /\
  files_to_load ∅ "jp" false None
                (mkdate (d_year (mkdate 2025 1 15)) 12 (d_day (mkdate 2025 1 15)))
                (mkdate 2025 1 15) = Ok ∅.
Proof.
  assert (H1 : valid (mkdate 2025 1 15)) by evaluated.
  assert (H2 : d_month (mkdate 2025 1 15) = 1) by reflexivity.
  split; [exact H1|]. split; [exact H2|].
  exact (default_range_in_january ∅ "jp" None (mkdate 2025 1 15) H1 H2).
Defined.

Lemma files_of_version_hold_it_witness :
  reachable iso BASE_PATH store_A /\
  (forall path, load_json viewer path = store_A !! path) /\
  versions_map (load_index viewer) = Ok {[ "1.0" := {[ "jp" := ["2024/05"] ]} ]} /\
  "1.0" ≠ "" /\
  files_to_load {[ "1.0" := {[ "jp" := ["2024/05"] ]} ]} "jp" true (Some "1.0")
                (mkdate 2024 4 1) (mkdate 2024 5 1)
  = Ok {[ "reviews/jp/2024/05.json" ]} /\
  "reviews/jp/2024/05.json" ∈ ({[ "reviews/jp/2024/05.json" ]} : gset string) /\
  ({[ "1.0" := {[ "jp" := ["2024/05"] ]} ]} : gmap string (gmap string (list string)))
  = index_versions store_A BASE_PATH /\
  exists ym l r,
    "reviews/jp/2024/05.json" = partition_path BASE_PATH "jp" ym /\
    load_json viewer "reviews/jp/2024/05.json" = Some (Reviews l) /\ r ∈ l /\
    version_of r = "1.0" /\ r_country r = "jp".
Proof.
  assert (H2 : forall path, load_json viewer path = store_A !! path) by reflexivity.
  assert (H3 : versions_map (load_index viewer) = Ok {[ "1.0" := {[ "jp" := ["2024/05"] ]} ]})
    by by_computation.
  assert (H4 : "1.0" ≠ "") by discriminate.
  assert (H5 : files_to_load {[ "1.0" := {[ "jp" := ["2024/05"] ]} ]} "jp" true (Some "1.0")
                 (mkdate 2024 4 1) (mkdate 2024 5 1)
               = Ok {[ "reviews/jp/2024/05.json" ]}) by by_computation.
  assert (H6 : "reviews/jp/2024/05.json" ∈ ({[ "reviews/jp/2024/05.json" ]} : gset string))
    by by apply elem_of_singleton.
  split; [exact store_A_reachable|]. split; [exact H2|]. split; [exact H3|].
  split; [exact H4|]. split; [exact H5|]. split; [exact H6|].
  exact (files_of_version_hold_it iso store_A viewer "jp" "1.0" (mkdate 2024 4 1)
           (mkdate 2024 5 1) {[ "1.0" := {[ "jp" := ["2024/05"] ]} ]}
           {[ "reviews/jp/2024/05.json" ]} "reviews/jp/2024/05.json"
           store_A_reachable H2 H3 H4 H5 H6).
Defined.

(** *** The notifier *)


End FurtherInstances.
